(** * crash-backend: the seeded game simulations, the candle aggregator,
      the game-history ring buffer and the unified event hub.

    Go [float64] values are Rocq's primitive binary64 floats, Go [int] and
    [int64] values are [Z], byte slices are [list byte], Go maps with string
    keys are [gmap string _].  The Go standard library pieces the program
    calls ([crypto/sha256], [math/rand], [fmt]) are the fields of the class
    [Std]: the general statements are made for an arbitrary instance of it,
    the worked examples for an instance that replays a chosen list of draws.
    Floating-point operations round once each, as on amd64: no fused
    multiply-add. *)

From Stdlib Require Import ZArith List Bool Lia Floats String Ascii.
From Stdlib.Strings Require Import Byte.
From stdpp Require Import base option list gmap strings.

Set Warnings "-inexact-float,-register-all".
Set Default Proof Using "Type".

Local Open Scope Z_scope.

(** ** float64 *)

Module F64.

(** Go's [a > b] and [a >= b], written with the primitive comparisons. *)
Definition gt (a b : float) : bool := PrimFloat.ltb b a.
Definition ge (a b : float) : bool := PrimFloat.leb b a.
Definition lt (a b : float) : bool := PrimFloat.ltb a b.
Definition le (a b : float) : bool := PrimFloat.leb a b.

Definition IsNaN (x : float) : bool := negb (PrimFloat.eqb x x).
Definition IsPosInf (x : float) : bool := PrimFloat.eqb x infinity.
Definition IsNegInf (x : float) : bool := PrimFloat.eqb x neg_infinity.

(** [math.Signbit]: true for negative values and for -0. *)
Definition Signbit (x : float) : bool :=
  match Prim2SF x with
  | S754_zero s | S754_infinity s | S754_finite s _ _ => s
  | S754_nan => false
  end.

(** [math.Max], with the special cases of its documentation:
    Max(x, +Inf) = Max(+Inf, x) = +Inf, Max(x, NaN) = Max(NaN, x) = NaN,
    Max(+0, ±0) = Max(±0, +0) = +0, Max(-0, -0) = -0. *)
Definition Max (x y : float) : float :=
  if IsPosInf x || IsPosInf y then infinity
  else if IsNaN x || IsNaN y then nan
  else if PrimFloat.eqb x 0%float && PrimFloat.eqb x y then
    (if Signbit x then y else x)
  else if gt x y then x else y.

(** [math.Min]: Min(x, -Inf) = Min(-Inf, x) = -Inf,
    Min(x, NaN) = Min(NaN, x) = NaN, Min(-0, ±0) = Min(±0, -0) = -0. *)
Definition Min (x y : float) : float :=
  if IsNegInf x || IsNegInf y then neg_infinity
  else if IsNaN x || IsNaN y then nan
  else if PrimFloat.eqb x 0%float && PrimFloat.eqb x y then
    (if Signbit x then x else y)
  else if lt x y then x else y.

Definition Sqrt (x : float) : float := PrimFloat.sqrt x.

End F64.

(** ** The standard library the program is linked against *)

(** [Sum256] is [sha256.Sum256]; [rand_state] is the state of a
    [*rand.Rand], [rand_NewSource] is [rand.New(rand.NewSource(seed))] and
    [rand_Float64] is one call of the generator's method [Float64], returning
    the draw and the generator's next state; [FormatFloat n] is the [fmt]
    verb [%.nf]. *)
Class Std := {
  Sum256 : list byte → list byte;
  Sum256_length : ∀ data, length (Sum256 data) = 32%nat;
  rand_state : Type;
  rand_NewSource : Z → rand_state;
  rand_Float64 : rand_state → float * rand_state;
  FormatFloat : nat → float → string;
}.

(** ** Computations that use one generator *)

Section RandMonad.
Context `{Std}.

Definition M (A : Type) : Type := rand_state → A * rand_state.

Definition ret {A} (a : A) : M A := λ r, (a, r).
Definition bind {A B} (m : M A) (k : A → M B) : M B :=
  λ r, let '(a, r') := m r in k a r'.

(** [rng.Float64()] *)
Definition Float64 : M float := rand_Float64.

Definition eval {A} (m : M A) (r : rand_state) : A := fst (m r).

(** The first [n] draws of a generator. *)
Fixpoint draws (n : nat) (r : rand_state) : list float :=
  match n with
  | O => []
  | S n' => let '(x, r') := rand_Float64 r in x :: draws n' r'
  end.
End RandMonad.

Notation "x <- m ;; k" := (bind m (λ x, k))
  (at level 100, m at next level, right associativity, only parsing).

(** ** Loops *)

(** What one iteration of a [for] body hands back: go round again (the end
    of the body, or [continue]), leave the loop ([break]), or a run-time
    panic (a nil pointer dereference). *)
Inductive flow (S : Type) : Type :=
  | Again (s : S)
  | Break (s : S)
  | Panic.
Arguments Again {S} s.
Arguments Break {S} s.
Arguments Panic {S}.

(** Why a loop stopped: its condition became false, its body executed
    [break], its body panicked, or the model ran out of fuel. *)
Inductive stop : Type := CondFalse | Broke | Panicked | NoFuel.

Section Loop.
Context `{Std} {S : Type}.
Variable cond : S → bool.
Variable body : S → M (flow S).

Fixpoint for_loop (fuel : nat) (s : S) : M (stop * S) :=
  if cond s then
    match fuel with
    | O => ret (NoFuel, s)
    | Datatypes.S n =>
        f <- body s ;;
        match f with
        | Again s' => for_loop n s'
        | Break s' => ret (Broke, s')
        | Panic => ret (Panicked, s)
        end
    end
  else ret (CondFalse, s).
End Loop.

(** ** game/prng.go *)

Module Prng.
Section Prng.
Context `{Std}.

(** [binary.BigEndian.Uint64] on the first eight bytes. *)
Definition BigEndianUint64 (b : list byte) : Z :=
  fold_left (λ acc x, acc * 256 + Z.of_N (Byte.to_N x)) (take 8 b) 0.

(** The conversion [int64(u)] of a [uint64]. *)
Definition int64 (u : Z) : Z :=
  let m := u mod 2 ^ 64 in if m <? 2 ^ 63 then m else m - 2 ^ 64.

Definition NewSeededRNG (seed : string) : rand_state :=
  let hash := Sum256 (list_byte_of_string seed) in
  let seedInt := int64 (BigEndianUint64 hash) in
  rand_NewSource seedInt.
End Prng.
End Prng.

(** ** game/engine.go: the version that tracks the peak it reaches *)

Module Engine.

Definition StartingPrice : float := 1.0.
Definition MaxTicks : Z := 5000.
Definition RugProb : float := 0.01.
Definition GodCandleChance : float := 0.002.
Definition GodCandleMult : float := 2.5.
Definition BigMoveChance : float := 0.12.
Definition BigMoveMin : float := 0.08.
Definition BigMoveMax : float := 0.50.
Definition DriftMin : float := (-0.04)%float.
Definition DriftMax : float := 0.04.

(** The constant expressions [BigMoveMax-BigMoveMin] and
    [DriftMax-DriftMin]: Go evaluates them exactly, then rounds. *)
Definition BigMoveSpan : float := 0.42.
Definition DriftSpan : float := 0.08.

(** Modelled from the spec: the [GameResult] struct of this version is not
    among the sources; its fields are the four the function fills in,
    [{peakMultiplier, finalPrice, totalTicks, rugged}]. *)
Record GameResult := {
  PeakMultiplier : float;
  FinalPrice : float;
  Rugged : bool;
  TotalTicks : Z;
}.

(** The local variables of [CalculateGame]. *)
Record vars := {
  price : float;
  peak : float;
  tick : Z;
  rugged : bool;
  momentum : float;
}.

Section Engine.
Context `{Std}.

Definition rugProb_of (momentum : float) : float :=
  if F64.gt momentum 0.05 then (RugProb * 0.05)%float
  else if F64.lt momentum (-0.02)%float then (RugProb * 0.2)%float
  else RugProb.

(** [tick > 50 && rng.Float64() < rugProb]: no draw while [tick <= 50]. *)
Definition rug_check (v : vars) : M bool :=
  if 50 <? tick v then
    r <- Float64 ;; ret (F64.lt r (rugProb_of (momentum v)))
  else ret false.

(** The big-move / drift part of the body: the value of [change]. *)
Definition draw_change (price : float) : M float :=
  b <- Float64 ;;
  if F64.lt b BigMoveChance then
    m <- Float64 ;;
    let move := (BigMoveMin + m * BigMoveSpan)%float in
    d <- Float64 ;;
    ret (if F64.gt d 0.5 then move else (- move)%float)
  else
    d1 <- Float64 ;;
    let drift := (DriftMin + d1 * DriftSpan)%float in
    let volatility := (0.015 * F64.Min 15 (F64.Sqrt price))%float in
    d2 <- Float64 ;;
    let noise := (volatility * (2 * d2 - 1))%float in
    ret (drift + noise)%float.

Definition body (v : vars) : M (flow vars) :=
  rug <- rug_check v ;;
  if rug then
    ret (Break {| price := price v; peak := peak v; tick := tick v;
                  rugged := true; momentum := momentum v |})
  else
    g <- Float64 ;;
    if F64.lt g GodCandleChance && F64.le (price v) 100 then
      let price1 := (price v * GodCandleMult)%float in
      let peak1 := if F64.gt price1 (peak v) then price1 else peak v in
      ret (Again {| price := price1; peak := peak1; tick := tick v + 1;
                    rugged := rugged v; momentum := momentum v |})
    else
      change <- draw_change (price v) ;;
      let price1 := (price v * (1 + change))%float in
      let price2 := if F64.lt price1 0 then 0%float else price1 in
      let peak1 := if F64.gt price2 (peak v) then price2 else peak v in
      let momentum1 := (momentum v * 0.9 + change * 0.1)%float in
      ret (Again {| price := price2; peak := peak1; tick := tick v + 1;
                    rugged := rugged v; momentum := momentum1 |}).

Definition cond (v : vars) : bool := tick v <? MaxTicks.

Definition init : vars :=
  {| price := StartingPrice; peak := StartingPrice; tick := 0;
     rugged := false; momentum := 0%float |}.

(** The loop of [CalculateGame], with the reason it stopped. *)
Definition run (serverSeed gameID : string) : stop * vars :=
  let combined := (serverSeed ++ "-" ++ gameID)%string in
  let rng := Prng.NewSeededRNG combined in
  eval (for_loop cond body (Z.to_nat MaxTicks) init) rng.

Definition CalculateGame (serverSeed gameID : string) : GameResult :=
  let v := snd (run serverSeed gameID) in
  {| PeakMultiplier := peak v; FinalPrice := price v;
     Rugged := rugged v; TotalTicks := tick v |}.

End Engine.
End Engine.

(** ** The engine version with a target peak drawn up front
       (first engine file of the unnamed sources) *)

Module EngineTarget.

Definition StartingPrice : float := 1.0.
Definition MaxTicks : Z := 5000.
Definition RugProb : float := 0.01.
Definition GodCandleChance : float := 0.002.
Definition GodCandleMult : float := 2.5.
Definition BigMoveChance : float := 0.12.
Definition BigMoveMin : float := 0.08.
Definition BigMoveMax : float := 0.50.
Definition DriftMin : float := (-0.04)%float.
Definition DriftMax : float := 0.04.

Definition BigMoveSpan : float := 0.42.
Definition DriftSpan : float := 0.08.
(** [GodCandleMult - 1.0] *)
Definition GodCandleChange : float := 1.5.

(** Modelled from the spec: the [GameResult] struct of this version is not
    among the sources; its fields are the four the function fills in,
    [{peakMultiplier, finalPrice, totalTicks, rugged}]. *)
Record GameResult := {
  PeakMultiplier : float;
  FinalPrice : float;
  Rugged : bool;
  TotalTicks : Z;
}.

Record vars := {
  price : float;
  tick : Z;
  rugged : bool;
  peakReached : bool;
}.

Section EngineTarget.
Context `{Std}.

Definition determineTargetPeak : M float :=
  r <- Float64 ;;
  if F64.lt r 0.40 then x <- Float64 ;; ret (1.0 + x * 0.5)%float
  else if F64.lt r 0.70 then x <- Float64 ;; ret (1.5 + x * 1.5)%float
  else if F64.lt r 0.88 then x <- Float64 ;; ret (3.0 + x * 7.0)%float
  else if F64.lt r 0.97 then x <- Float64 ;; ret (10.0 + x * 40.0)%float
  else x <- Float64 ;; ret (50.0 + x * 150.0)%float.

(** Phase 1: growth to the peak. *)
Definition growth_change (price : float) : M float :=
  g <- Float64 ;;
  if F64.lt g GodCandleChance && F64.le price 100 then
    ret GodCandleChange
  else
    b <- Float64 ;;
    if F64.lt b BigMoveChance then
      m <- Float64 ;;
      ret (BigMoveMin + m * BigMoveSpan)%float
    else
      d1 <- Float64 ;;
      let drift := (d1 * DriftMax)%float in
      let volatility := (0.015 * F64.Min 15 (F64.Sqrt price))%float in
      d2 <- Float64 ;;
      let noise := (volatility * d2)%float in
      ret (drift + noise)%float.

Definition growth_cond (v : vars) : bool :=
  (tick v <? MaxTicks) && negb (peakReached v).

Definition growth_body (targetPeak : float) (v : vars) : M (flow vars) :=
  change <- growth_change (price v) ;;
  let price1 := (price v * (1 + change))%float in
  if F64.ge price1 targetPeak then
    ret (Again {| price := targetPeak; tick := tick v + 1;
                  rugged := rugged v; peakReached := true |})
  else
    ret (Again {| price := price1; tick := tick v + 1;
                  rugged := rugged v; peakReached := peakReached v |}).

(** Phase 2: decline after the peak, and the rug. *)
Definition decline_change (price : float) : M float :=
  b <- Float64 ;;
  if F64.lt b BigMoveChance then
    m <- Float64 ;;
    let move := (BigMoveMin + m * BigMoveSpan)%float in
    d <- Float64 ;;
    ret (if F64.gt d 0.5 then move else (- move)%float)
  else
    d1 <- Float64 ;;
    let drift := (DriftMin + d1 * DriftSpan)%float in
    let volatility := (0.015 * F64.Min 15 (F64.Sqrt price))%float in
    d2 <- Float64 ;;
    let noise := (volatility * (2 * d2 - 1))%float in
    ret (drift + noise)%float.

Definition decline_cond (v : vars) : bool := tick v <? MaxTicks.

Definition decline_body (targetPeak : float) (v : vars) : M (flow vars) :=
  r <- Float64 ;;
  if F64.lt r RugProb then
    ret (Break {| price := price v; tick := tick v; rugged := true;
                  peakReached := peakReached v |})
  else
    change <- decline_change (price v) ;;
    let price1 := (price v * (1 + change))%float in
    let price2 := if F64.lt price1 0 then 0%float else price1 in
    let price3 := if F64.gt price2 targetPeak then targetPeak else price2 in
    ret (Again {| price := price3; tick := tick v + 1; rugged := rugged v;
                  peakReached := peakReached v |}).

Definition init (targetPeak : float) : vars :=
  {| price := StartingPrice; tick := 0; rugged := false;
     peakReached := F64.ge StartingPrice targetPeak |}.

(** Both phases, from a generator: the target peak, why phase 2 stopped,
    and the variables at the end.  [n1] and [n2] bound the iterations of
    the two loops; the program runs them to [MaxTicks]. *)
Definition simulate_upto (n1 n2 : nat) : M (float * stop * vars) :=
  targetPeak <- determineTargetPeak ;;
  let v0 := init targetPeak in
  p1 <- (if negb (peakReached v0)
         then for_loop growth_cond (growth_body targetPeak) n1 v0
         else ret (CondFalse, v0)) ;;
  p2 <- for_loop decline_cond (decline_body targetPeak) n2 (snd p1) ;;
  ret (targetPeak, fst p2, snd p2).

Definition run_upto (n1 n2 : nat) (serverSeed gameID : string)
    : float * stop * vars :=
  let combined := (serverSeed ++ "-" ++ gameID)%string in
  let rng := Prng.NewSeededRNG combined in
  eval (simulate_upto n1 n2) rng.

Definition run := run_upto (Z.to_nat MaxTicks) (Z.to_nat MaxTicks).

Definition CalculateGame (serverSeed gameID : string) : GameResult :=
  let '(targetPeak, _, v) := run serverSeed gameID in
  {| PeakMultiplier := targetPeak; FinalPrice := price v;
     Rugged := rugged v; TotalTicks := tick v |}.

(** game/verify.go *)
Definition VerifyGamePeak (serverSeed gameID : string) : float :=
  let combined := (serverSeed ++ "-" ++ gameID)%string in
  let rng := Prng.NewSeededRNG combined in
  eval determineTargetPeak rng.

End EngineTarget.
End EngineTarget.

(** ** The engine version with a provable peak from its own sub-seed
       (second engine file of the unnamed sources) *)

Module EnginePeak.

Definition StartingPrice : float := 1.0.
Definition GodCandleChance : float := 0.002.
Definition GodCandleMult : float := 2.5.
Definition BigMoveChance : float := 0.12.
Definition BigMoveMin : float := 0.08.
Definition BigMoveMax : float := 0.50.
Definition DriftMin : float := (-0.04)%float.
Definition DriftMax : float := 0.04.

Definition RugProbBeforePeak : float := 0.0001.
Definition RugProbAfterPeak : float := 0.10.

Definition PeakVeryLow : float := 0.50.
Definition PeakLow : float := 0.85.
Definition PeakMedium : float := 0.95.
Definition PeakHigh : float := 0.99.
Definition PeakExtreme : float := 1.00.

Definition PeakMin : float := 1.0.
Definition PeakVeryLowMax : float := 1.5.
Definition PeakLowMax : float := 3.0.
Definition PeakMediumMax : float := 10.0.
Definition PeakHighMax : float := 50.0.
Definition PeakExtremeMax : float := 200.0.

(** The loop's literal bound, [for tick < 10000]. *)
Definition TickLimit : Z := 10000.

Definition BigMoveSpan : float := 0.42.
Definition DriftSpan : float := 0.08.

(** game/types.go *)
Record GameResult := {
  PeakMultiplier : float;
  FinalPrice : float;
  TotalTicks : Z;
  ServerSeed : string;
  GameID : string;
}.

Record vars := {
  price : float;
  peak : float;
  tick : Z;
  momentum : float;
  reachedPredeterminedPeak : bool;
}.

Section EnginePeak.
Context `{Std}.

(** The band of [randValue] and the peak inside it.  The differences of
    constants are the exactly evaluated constant expressions:
    [PeakLow - PeakVeryLow] is 0.35, [PeakMedium - PeakLow] is 0.10,
    [PeakHigh - PeakMedium] is 0.04, [PeakExtreme - PeakHigh] is 0.01, and
    so on for the band widths. *)
Definition peak_of (randValue : float) : float :=
  let peak :=
    if F64.lt randValue PeakVeryLow then
      let normalized := (randValue / PeakVeryLow)%float in
      (PeakMin + normalized * 0.5)%float
    else if F64.lt randValue PeakLow then
      let normalized := ((randValue - PeakVeryLow) / 0.35)%float in
      (PeakVeryLowMax + normalized * 1.5)%float
    else if F64.lt randValue PeakMedium then
      let normalized := ((randValue - PeakLow) / 0.10)%float in
      (PeakLowMax + normalized * 7.0)%float
    else if F64.lt randValue PeakHigh then
      let normalized := ((randValue - PeakMedium) / 0.04)%float in
      (PeakMediumMax + normalized * 40.0)%float
    else
      let normalized := ((randValue - PeakHigh) / 0.01)%float in
      (PeakHighMax + normalized * 150.0)%float in
  if F64.lt peak PeakMin then PeakMin else peak.

Definition GeneratePeakMultiplier (serverSeed gameID : string) : float :=
  let combined := (serverSeed ++ "-" ++ gameID ++ "-peak")%string in
  let rng := Prng.NewSeededRNG combined in
  eval (randValue <- Float64 ;; ret (peak_of randValue)) rng.

(** [tick > 20 && rng.Float64() < rugProb]: no draw while [tick <= 20]. *)
Definition rug_check (v : vars) : M bool :=
  let rugProb := if reachedPredeterminedPeak v then RugProbAfterPeak
                 else RugProbBeforePeak in
  if 20 <? tick v then r <- Float64 ;; ret (F64.lt r rugProb)
  else ret false.

Definition draw_change (reached : bool) (price : float) : M float :=
  b <- Float64 ;;
  if F64.lt b BigMoveChance then
    m <- Float64 ;;
    let move := (BigMoveMin + m * BigMoveSpan)%float in
    let upwardThreshold := if reached then 0.4%float else 0.6%float in
    d <- Float64 ;;
    ret (if F64.lt d upwardThreshold then move else (- move)%float)
  else
    d1 <- Float64 ;;
    let drift := (DriftMin + d1 * DriftSpan)%float in
    let volatility := (0.015 * F64.Min 15 (F64.Sqrt price))%float in
    d2 <- Float64 ;;
    let noise := (volatility * (2 * d2 - 1))%float in
    ret (drift + noise)%float.

Definition body (peakMultiplier : float) (v : vars) : M (flow vars) :=
  rug <- rug_check v ;;
  if rug then ret (Break v)
  else
    let reached := if F64.ge (price v) peakMultiplier then true
                   else reachedPredeterminedPeak v in
    g <- Float64 ;;
    if F64.lt g GodCandleChance && F64.le (price v) 100 then
      let directionThreshold := if reached then 0.4%float else 0.6%float in
      d <- Float64 ;;
      let godCandleChange :=
        if F64.lt d directionThreshold then (- GodCandleMult)%float
        else GodCandleMult in
      let price1 :=
        if F64.gt godCandleChange 0 then (price v * godCandleChange)%float
        else (price v / (- godCandleChange))%float in
      let peak1 := if F64.gt price1 (peak v) then price1 else peak v in
      ret (Again {| price := price1; peak := peak1; tick := tick v + 1;
                    momentum := momentum v;
                    reachedPredeterminedPeak := reached |})
    else
      change <- draw_change reached (price v) ;;
      let price1 := (price v * (1 + change))%float in
      let price2 := if F64.lt price1 0.5 then 0.5%float else price1 in
      let peak1 := if F64.gt price2 (peak v) then price2 else peak v in
      let momentum1 := (momentum v * 0.9 + change * 0.1)%float in
      ret (Again {| price := price2; peak := peak1; tick := tick v + 1;
                    momentum := momentum1;
                    reachedPredeterminedPeak := reached |}).

Definition cond (v : vars) : bool := tick v <? TickLimit.

Definition init : vars :=
  {| price := StartingPrice; peak := StartingPrice; tick := 0;
     momentum := 0%float; reachedPredeterminedPeak := false |}.

(** The simulation loop for at most [n] iterations; the program runs it
    to [TickLimit]. *)
Definition run_upto (n : nat) (serverSeed gameID : string) : stop * vars :=
  let peakMultiplier := GeneratePeakMultiplier serverSeed gameID in
  let combined := (serverSeed ++ "-" ++ gameID)%string in
  let rng := Prng.NewSeededRNG combined in
  eval (for_loop cond (body peakMultiplier) n init) rng.

Definition run := run_upto (Z.to_nat TickLimit).

Definition CalculateGame (serverSeed gameID : string) : GameResult :=
  let peakMultiplier := GeneratePeakMultiplier serverSeed gameID in
  let v := snd (run serverSeed gameID) in
  {| PeakMultiplier := peakMultiplier; FinalPrice := price v;
     TotalTicks := tick v; ServerSeed := serverSeed; GameID := gameID |}.

(** The [determineTargetPeak] this file keeps, and game/verify.go on top
    of it. *)
Definition determineTargetPeak : M float :=
  r <- Float64 ;;
  if F64.lt r 0.40 then x <- Float64 ;; ret (1.0 + x * 0.5)%float
  else if F64.lt r 0.70 then x <- Float64 ;; ret (1.5 + x * 1.5)%float
  else if F64.lt r 0.88 then x <- Float64 ;; ret (3.0 + x * 7.0)%float
  else if F64.lt r 0.97 then x <- Float64 ;; ret (10.0 + x * 40.0)%float
  else x <- Float64 ;; ret (50.0 + x * 150.0)%float.

Definition VerifyGamePeak (serverSeed gameID : string) : float :=
  let combined := (serverSeed ++ "-" ++ gameID)%string in
  let rng := Prng.NewSeededRNG combined in
  eval determineTargetPeak rng.

End EnginePeak.
End EnginePeak.

(** ** game/candleflip.go *)

Module Candleflip.

Definition CandleflipStartingPrice : float := 1.0.
Definition CandleflipTotalTicks : nat := 40.
Definition CandleflipBigMoveChance : float := 0.01.
Definition CandleflipBigMovePct : float := 0.20.
Definition CandleflipSmallMovePctMin : float := 0.01.
Definition CandleflipSmallMovePctMax : float := 0.05.

(** [CandleflipSmallMovePctMax-CandleflipSmallMovePctMin] *)
Definition CandleflipSmallMoveSpan : float := 0.04.

Inductive winner := GREEN | RED.

Definition winner_name (w : winner) : string :=
  match w with GREEN => "GREEN" | RED => "RED" end.

Section Candleflip.
Context `{Std}.

(** The signed percentage of one tick: three draws for a small move, two
    for a big one. *)
Definition percentChange : M float :=
  chance <- Float64 ;;
  if F64.lt chance CandleflipBigMoveChance then
    d <- Float64 ;;
    ret (if F64.lt d 0.5 then (- CandleflipBigMovePct)%float
         else CandleflipBigMovePct)
  else
    m <- Float64 ;;
    let magnitude :=
      (CandleflipSmallMovePctMin + m * CandleflipSmallMoveSpan)%float in
    d <- Float64 ;;
    ret (if F64.lt d 0.5 then (- magnitude)%float else magnitude).

Definition GenerateCandleflipPrice (lastPrice : float) : M float :=
  pc <- percentChange ;;
  let newPrice := (lastPrice * (1 + pc))%float in
  ret (if F64.lt newPrice 0 then 0%float else newPrice).

(** [n] successive price updates. *)
Fixpoint ticks (n : nat) (currentPrice : float) : M float :=
  match n with
  | O => ret currentPrice
  | S n' => p <- GenerateCandleflipPrice currentPrice ;; ticks n' p
  end.

Definition winner_of (finalPrice : float) : winner :=
  if F64.lt finalPrice 1.0 then RED else GREEN.

(** The final price of the game played from the generator [rng]. *)
Definition final_price (rng : rand_state) : float :=
  eval (ticks CandleflipTotalTicks CandleflipStartingPrice) rng.

Definition VerifyCandleflip (serverSeed : string) : string :=
  let combined := (serverSeed ++ "-candleflip")%string in
  let rng := Prng.NewSeededRNG combined in
  winner_name (winner_of (final_price rng)).

End Candleflip.
End Candleflip.

(** ** int64 arithmetic *)

Module Int64.
Definition wrap (z : Z) : Z := (z + 2 ^ 63) mod 2 ^ 64 - 2 ^ 63.
Definition mul (a b : Z) : Z := wrap (a * b).
Definition sub (a b : Z) : Z := wrap (a - b).
Definition in_range (z : Z) : Prop := - 2 ^ 63 <= z < 2 ^ 63.
End Int64.

(** ** game/types.go: candles *)

Module Candle.

(** What a [*float64] can point at in the crash loop: the loop's variable
    [price], or one of the [finalCloseValue] variables, each of which is a
    cell of its own. *)
Inductive ptr : Type :=
  | PriceVar
  | Cell (n : nat).

Record CandleGroup := {
  Open : float;
  Close : option ptr;          (* [*float64], [None] is nil *)
  Max : float;
  Min : float;
  ValueList : list float;
  StartTime : Z;
  DurationMs : Z;
  IsComplete : bool;
}.

End Candle.

(** ** ws/server.go: merging candles *)

Module Server.
Import Candle.

Definition InitialGroupDurationMs : Z := 5000.
Definition MergeThreshold : Z := 30.

(** The candle built from the pair [g1], [g2]. *)
Definition merged (g1 g2 : CandleGroup) : CandleGroup :=
  {| Open := Open g1;
     Close := Close g2;
     Max := F64.Max (Max g1) (Max g2);
     Min := F64.Min (Min g1) (Min g2);
     ValueList := ValueList g1 ++ ValueList g2;
     StartTime := StartTime g1;
     DurationMs := Int64.mul (DurationMs g1) 2;
     IsComplete := true |}.

(** The deep copy made of an odd last candle. *)
Definition lastGroupCopy (lastGroup : CandleGroup) : CandleGroup :=
  {| Open := Open lastGroup;
     Close := Close lastGroup;
     Max := Max lastGroup;
     Min := Min lastGroup;
     ValueList := ValueList lastGroup;
     StartTime := StartTime lastGroup;
     DurationMs := DurationMs lastGroup;
     IsComplete := IsComplete lastGroup |}.

(** [for i := 0; i < len(groups)-1; i += 2], from index [i] on, with the
    candles appended so far in [newGroups]. *)
Fixpoint merge_from (fuel : nat) (groups : list CandleGroup) (i : nat)
    (newGroups : list CandleGroup) : list CandleGroup :=
  match fuel with
  | O => newGroups
  | S fuel' =>
      if Z.of_nat i <? Z.of_nat (length groups) - 1 then
        match groups !! i, groups !! (i + 1)%nat with
        | Some g1, Some g2 =>
            merge_from fuel' groups (i + 2) (newGroups ++ [merged g1 g2])
        | _, _ => newGroups
        end
      else newGroups
  end.

Definition mergeGroups (groups : list CandleGroup) (currentDuration : Z)
    : list CandleGroup * Z :=
  let newGroups := merge_from (length groups) groups 0 [] in
  let newGroups :=
    if (Z.of_nat (length groups) mod 2 =? 1) then
      match last groups with
      | Some lastGroup => newGroups ++ [lastGroupCopy lastGroup]
      | None => newGroups
      end
    else newGroups in
  let newDuration := Int64.mul currentDuration 2 in
  (newGroups, newDuration).

(** The same pairing by recursion on the list. *)
Fixpoint merge_pairs (groups : list CandleGroup) : list CandleGroup :=
  match groups with
  | g1 :: g2 :: rest => merged g1 g2 :: merge_pairs rest
  | [g] => [lastGroupCopy g]
  | [] => []
  end.

(** The extreme of a non-empty candle list, taken with [math.Max] and
    [math.Min] over the candles' [Max] and [Min] fields. *)
Definition globalMax (groups : list CandleGroup) : option float :=
  match groups with
  | [] => None
  | g :: rest => Some (fold_left (λ acc c, F64.Max acc (Max c)) rest (Max g))
  end.

Definition globalMin (groups : list CandleGroup) : option float :=
  match groups with
  | [] => None
  | g :: rest => Some (fold_left (λ acc c, F64.Min acc (Min c)) rest (Min g))
  end.

End Server.

(** ** ws/crash_unified.go: one game of the crash loop *)

Module CrashUnified.
Import Candle.

Definition MaxGameHistory : Z := 10.

Record CrashGameHistory := {
  GameID : string;
  PeakMultiplier : float;
  Rugged : bool;
  Candles : list CandleGroup;
  Timestamp : Z;
}.

(** The variables of the simulation part of [runCrashGameLoop], its candle
    grouping state, and the [finalCloseValue] cells allocated so far. *)
Record vars := {
  price : float;
  peak : float;
  tick : Z;
  rugged : bool;
  groups : list CandleGroup;
  currentGroup : option CandleGroup;
  groupDuration : Z;
  groupStartTime : Z;
  cells : list float;
}.

(** [*p] in the state [v]; [None] is the nil-pointer panic. *)
Definition deref (v : vars) (p : option ptr) : option float :=
  match p with
  | None => None
  | Some PriceVar => Some (price v)
  | Some (Cell n) => cells v !! n
  end.

(** [&finalCloseValue]: a fresh cell holding [x]. *)
Definition alloc (x : float) (v : vars) : ptr * vars :=
  (Cell (length (cells v)),
   {| price := price v; peak := peak v; tick := tick v;
      rugged := rugged v; groups := groups v;
      currentGroup := currentGroup v; groupDuration := groupDuration v;
      groupStartTime := groupStartTime v; cells := cells v ++ [x] |}).

Definition set_groups (gs : list CandleGroup) (d : Z) (v : vars) : vars :=
  {| price := price v; peak := peak v; tick := tick v;
     rugged := rugged v; groups := gs; currentGroup := currentGroup v;
     groupDuration := d; groupStartTime := groupStartTime v;
     cells := cells v |}.

Definition set_current (cg : CandleGroup) (start : Z) (v : vars) : vars :=
  {| price := price v; peak := peak v; tick := tick v;
     rugged := rugged v; groups := groups v; currentGroup := Some cg;
     groupDuration := groupDuration v; groupStartTime := start;
     cells := cells v |}.

(** The candle opened at the current price. *)
Definition new_group (v : vars) (now : Z) : CandleGroup :=
  {| Open := price v; Close := Some PriceVar; Max := price v;
     Min := price v; ValueList := [price v]; StartTime := now;
     DurationMs := groupDuration v; IsComplete := false |}.

(** The frozen copy of [cg] whose close is the cell [p]. *)
Definition frozen (cg : CandleGroup) (p : ptr) : CandleGroup :=
  {| Open := Open cg; Close := Some p; Max := Max cg; Min := Min cg;
     ValueList := []; StartTime := StartTime cg;
     DurationMs := DurationMs cg; IsComplete := true |}.

(** "Candle grouping logic", run once [price] holds the tick's new value;
    [now] is [time.Now().UnixMilli()]. *)
Definition group_tick (now : Z) (v : vars) : option vars :=
  match currentGroup v with
  | None => Some (set_current (new_group v now) now v)
  | Some cg =>
      let elapsed := Int64.sub now (groupStartTime v) in
      if groupDuration v <=? elapsed then
        finalCloseValue ← deref v (Close cg);
        let '(p, v1) := alloc finalCloseValue v in
        let completedGroup := frozen cg p in
        let groups1 := groups v1 ++ [completedGroup] in
        let v2 :=
          if Server.MergeThreshold <=? Z.of_nat (length groups1) then
            let '(gs, d) := Server.mergeGroups groups1 (groupDuration v1) in
            set_groups gs d v1
          else set_groups groups1 (groupDuration v1) v1 in
        Some (set_current (new_group v2 now) now v2)
      else
        let cg1 :=
          {| Open := Open cg; Close := Some PriceVar;
             Max := F64.Max (Max cg) (price v);
             Min := F64.Min (Min cg) (price v);
             ValueList := ValueList cg ++ [price v];
             StartTime := StartTime cg; DurationMs := DurationMs cg;
             IsComplete := IsComplete cg |} in
        Some (set_current cg1 (groupStartTime v) v)
  end.

(** "Complete final group", after the loop. *)
Definition complete_final (v : vars) : option vars :=
  match currentGroup v with
  | Some cg =>
      if negb (IsComplete cg) then
        x ← (if rugged v then Some 0%float else deref v (Close cg));
        let cg1 :=
          if rugged v then
            {| Open := Open cg; Close := Close cg; Max := Max cg;
               Min := 0%float; ValueList := ValueList cg;
               StartTime := StartTime cg; DurationMs := DurationMs cg;
               IsComplete := IsComplete cg |}
          else cg in
        let '(p, v1) := alloc x (set_current cg1 (groupStartTime v) v) in
        Some (set_groups (groups v1 ++ [frozen cg1 p]) (groupDuration v1) v1)
      else Some v
  | None => Some v
  end.

(** "Add to history": append, then keep the last [MaxGameHistory]. *)
Definition add_to_history (crashGameHistory : list CrashGameHistory)
    (g : CrashGameHistory) : list CrashGameHistory :=
  let h := crashGameHistory ++ [g] in
  if MaxGameHistory <? Z.of_nat (length h)
  then drop (Z.to_nat (Z.of_nat (length h) - MaxGameHistory)) h
  else h.

Section Loop.
Context `{Std}.

(** [time.Now().UnixMilli()] as read in the iteration with counter
    [tick]. *)
Variable clock : Z → Z.

(** The price after the tick's move. *)
Definition move (price : float) : M float :=
  g <- Float64 ;;
  if F64.lt g Engine.GodCandleChance && F64.le price 100 then
    ret (price * Engine.GodCandleMult)%float
  else
    b <- Float64 ;;
    change <-
      (if F64.lt b Engine.BigMoveChance then
         m <- Float64 ;;
         let move := (Engine.BigMoveMin + m * Engine.BigMoveSpan)%float in
         d <- Float64 ;;
         ret (if F64.gt d 0.5 then move else (- move)%float)
       else
         d1 <- Float64 ;;
         let drift := (Engine.DriftMin + d1 * Engine.DriftSpan)%float in
         let volatility := (0.005 * F64.Min 10 (F64.Sqrt price))%float in
         d2 <- Float64 ;;
         let noise := (volatility * (2 * d2 - 1))%float in
         ret (drift + noise)%float) ;;
    let price1 := (price * (1 + change))%float in
    ret (if F64.lt price1 0 then 0%float else price1).

Definition set_price (p : float) (v : vars) : vars :=
  {| price := p; peak := (if F64.gt p (peak v) then p else peak v);
     tick := tick v; rugged := rugged v; groups := groups v;
     currentGroup := currentGroup v; groupDuration := groupDuration v;
     groupStartTime := groupStartTime v; cells := cells v |}.

Definition set_rugged (v : vars) : vars :=
  {| price := price v; peak := peak v; tick := tick v; rugged := true;
     groups := groups v; currentGroup := currentGroup v;
     groupDuration := groupDuration v;
     groupStartTime := groupStartTime v; cells := cells v |}.

Definition next_tick (v : vars) : vars :=
  {| price := price v; peak := peak v; tick := tick v + 1;
     rugged := rugged v; groups := groups v;
     currentGroup := currentGroup v; groupDuration := groupDuration v;
     groupStartTime := groupStartTime v; cells := cells v |}.

Definition body (v : vars) : M (flow vars) :=
  r <- Float64 ;;
  if F64.lt r Engine.RugProb then ret (Break (set_rugged v))
  else
    p <- move (price v) ;;
    let v1 := set_price p v in
    let now := clock (tick v) in
    match group_tick now v1 with
    | Some v2 => ret (Again (next_tick v2))
    | None => ret Panic
    end.

Definition cond (v : vars) : bool := tick v <? 5000.

(** The state when the simulation starts; [start] is the clock reading
    taken before the loop. *)
Definition init (start : Z) : vars :=
  {| price := 1.0; peak := 1.0; tick := 0; rugged := false;
     groups := []; currentGroup := None;
     groupDuration := Server.InitialGroupDurationMs;
     groupStartTime := start; cells := [] |}.

(** The running phase of one game and the completion of its last candle:
    the final variables, or [None] after a panic. *)
Definition run_game (serverSeed gameID : string) (start : Z) : option vars :=
  let combined := (serverSeed ++ "-" ++ gameID)%string in
  let rng := Prng.NewSeededRNG combined in
  match eval (for_loop cond body (Z.to_nat 5000) (init start)) rng with
  | (Panicked, _) | (NoFuel, _) => None
  | (_, v) => complete_final v
  end.

(** The record the game appends to the history; [finished] is the clock
    reading at that point. *)
Definition history_entry (gameID : string) (finished : Z) (v : vars)
    : CrashGameHistory :=
  {| GameID := gameID; PeakMultiplier := peak v; Rugged := rugged v;
     Candles := groups v; Timestamp := finished |}.

End Loop.
End CrashUnified.

(** ** A scripted standard library

    An instance of [Std] for running the program on chosen draws: the "hash"
    of a byte string is the string itself, cut or zero-padded to 32 bytes,
    and the generator seeded with [z] replays the list [book z], then
    returns 0 for ever; every formatted number reads "#". *)

Module Scripted.

Definition pad32 (data : list byte) : list byte :=
  take 32 (data ++ replicate 32 x00).

Lemma pad32_length data : length (pad32 data) = 32%nat.
Proof.
  unfold pad32. rewrite length_take, length_app, length_replicate. lia.
Qed.

Definition next (r : list float) : float * list float :=
  match r with
  | [] => (0%float, [])
  | x :: r' => (x, r')
  end.

Definition lib (book : Z → list float) : Std :=
  {| Sum256 := pad32; Sum256_length := pad32_length;
     rand_state := list float; rand_NewSource := book;
     rand_Float64 := next; FormatFloat := λ _ _, "#"%string |}.

(** The seed [NewSeededRNG] derives from a string under [pad32]. *)
Definition seed_of (s : string) : Z :=
  Prng.int64 (Prng.BigEndianUint64 (pad32 (list_byte_of_string s))).

(** A book with one script per named string. *)
Fixpoint book_of (scripts : list (string * list float)) (z : Z)
    : list float :=
  match scripts with
  | [] => []
  | (s, l) :: rest => if z =? seed_of s then l else book_of rest z
  end.

End Scripted.

(** ** Scripted games used as concrete inputs *)

Module Examples.

(** Twenty-one ticks that each take the big-move branch upwards by the
    minimum 8% (no god candle, big move, magnitude draw 0, direction draw
    0); the draw after them is 0. *)
Definition rising : list float :=
  concat (replicate 21 [0.5; 0; 0; 0]%float).

(** The main stream of the game ("s", "g") rises; its peak sub-seed
    stream starts with 0. *)
Definition rising_lib : Std :=
  Scripted.lib (Scripted.book_of [("s-g"%string, rising);
                                  ("s-g-peak"%string, [0%float])]).

End Examples.

(** ** Mirror images of candleflip games *)

Module Mirror.
Import Candleflip.

(** The draw on the other side of the 0.5 threshold. *)
Definition other_side (d : float) : float :=
  if F64.lt d 0.5 then (d + 0.5)%float else (d - 0.5)%float.

(** The script of draws with every direction draw moved to the other side
    of the threshold: a big-move tick reads [chance; d], a small-move tick
    reads [chance; m; d]. *)
Fixpoint mirror (script : list float) : list float :=
  match script with
  | chance :: rest =>
      if F64.lt chance CandleflipBigMoveChance then
        match rest with
        | d :: rest' => chance :: other_side d :: mirror rest'
        | [] => script
        end
      else
        match rest with
        | m :: d :: rest' => chance :: m :: other_side d :: mirror rest'
        | _ => script
        end
  | [] => []
  end.

Definition opposite (w : winner) : winner :=
  match w with GREEN => RED | RED => GREEN end.

(** Forty small moves of 3%, alternately down and up. *)
Definition balanced : list float :=
  concat (replicate 20 [0.5; 0.5; 0.25; 0.5; 0.5; 0.75]%float).

(** The winner of the game played on a script of draws. *)
Definition winner_on (script : list float) : winner :=
  winner_of (@final_price (Scripted.lib (λ _, [])) script).

Section Mirrored.
Context `{Std}.

Definition opposite_sides (d d' : float) : Prop :=
  F64.lt d 0.5 = negb (F64.lt d' 0.5).

(** Two generators whose next tick reads the same chance and magnitude
    draws and direction draws on opposite sides of the threshold. *)
Definition mirrored_tick (r r' : rand_state) : Prop :=
  let '(chance, r1) := rand_Float64 r in
  let '(chance', r1') := rand_Float64 r' in
  chance = chance' ∧
  if F64.lt chance CandleflipBigMoveChance then
    opposite_sides (fst (rand_Float64 r1)) (fst (rand_Float64 r1'))
  else
    let '(m, r2) := rand_Float64 r1 in
    let '(m', r2') := rand_Float64 r1' in
    m = m' ∧
    opposite_sides (fst (rand_Float64 r2)) (fst (rand_Float64 r2')).
End Mirrored.
End Mirror.

(** ** Two total orders on float64

    [math.Max] picks the larger argument in the order
    -Inf < negatives < -0 < +0 < positives < NaN < +Inf, and [math.Min] the
    smaller one in the order
    -Inf < NaN < negatives < -0 < +0 < positives < +Inf.  The keys below
    realise the two orders as lexicographic orders on integer triples. *)

Module F64Order.

Definition lex3 (a b : Z * Z * Z) : comparison :=
  let '(a1, a2, a3) := a in
  let '(b1, b2, b3) := b in
  match a1 ?= b1 with
  | Eq => match a2 ?= b2 with Eq => a3 ?= b3 | c => c end
  | c => c
  end.

Definition lt3 (a b : Z * Z * Z) : Prop :=
  let '(a1, a2, a3) := a in
  let '(b1, b2, b3) := b in
  a1 < b1 ∨ (a1 = b1 ∧ (a2 < b2 ∨ (a2 = b2 ∧ a3 < b3))).

Definition keyMax (a : spec_float) : Z * Z * Z :=
  match a with
  | S754_infinity true => (0, 0, 0)
  | S754_finite true m e => (1, - e, - Zpos m)
  | S754_zero true => (2, 0, 0)
  | S754_zero false => (3, 0, 0)
  | S754_finite false m e => (4, e, Zpos m)
  | S754_nan => (5, 0, 0)
  | S754_infinity false => (6, 0, 0)
  end.

Definition keyMin (a : spec_float) : Z * Z * Z :=
  match a with
  | S754_infinity true => (-1, 0, 0)
  | S754_nan => (0, 0, 0)
  | S754_finite true m e => (1, - e, - Zpos m)
  | S754_zero true => (2, 0, 0)
  | S754_zero false => (3, 0, 0)
  | S754_finite false m e => (4, e, Zpos m)
  | S754_infinity false => (6, 0, 0)
  end.

(** The larger and the smaller of two values under a key. *)
Definition upper {A} (key : A → Z * Z * Z) (a b : A) : A :=
  match lex3 (key a) (key b) with Gt => a | _ => b end.

Definition lower {A} (key : A → Z * Z * Z) (a b : A) : A :=
  match lex3 (key a) (key b) with Lt => a | _ => b end.

End F64Order.

(** ** A crash game whose first candle closes above its maximum *)

Module Rollover.

(** Eleven ticks that pass the rug check and take the big-move branch
    upwards by 8%; the draw after them is 0, which rugs the game. *)
Definition script : list float :=
  concat (replicate 11 [0.5; 0.5; 0; 0; 0.75]%float).

Definition lib : Std :=
  Scripted.lib (Scripted.book_of [("r-g"%string, script)]).

(** Ticks 500 ms apart: the iteration with counter [tick] reads the clock
    at [500 * (tick + 1)]. *)
Definition clock (tick : Z) : Z := 500 * (tick + 1).

(** The game ("r", "g") started at time 0. *)
Definition game : option CrashUnified.vars :=
  @CrashUnified.run_game lib clock "r" "g" 0.

(** The first candle of the finished game, with its close read through
    its pointer. *)
Definition first_candle : option (Candle.CandleGroup * float) :=
  match game with
  | Some v =>
      match CrashUnified.groups v with
      | g :: _ =>
          match CrashUnified.deref v (Candle.Close g) with
          | Some c => Some (g, c)
          | None => None
          end
      | [] => None
      end
  | None => None
  end.

End Rollover.

(** ** ws/unified.go: the unified event hub *)

Module Unified.

(** The values [json.Unmarshal] puts in a [map[string]interface{}]. *)
Inductive json : Type :=
  | JNull
  | JBool (b : bool)
  | JNum (f : float)
  | JStr (s : string)
  | JArr (l : list json)
  | JObj (fields : list (string * json)).

(** ws/crash_unified.go *)
Record ActiveBettor := {
  Address : string;
  BetAmount : float;
  EntryMultiplier : float;
  BetTime : Z;
}.

Record CrashGameState := {
  GameID : string;
  ServerSeed : string;
  ServerSeedHash : string;
  Status : string;
  ContractGameID : Z;
}.

(** The messages the program builds as [map[string]interface{}], by their
    ["type"]; [event] stands for those whose fields no statement below
    looks at, with whether [json.Marshal] accepts them. *)
Inductive message : Type :=
  | chat_message (playerAddress text timestamp : string)
  | crash_history (history : list CrashUnified.CrashGameHistory)
  | active_bettors (bettors : list ActiveBettor) (count : Z)
  | crash_cashout_result (success : bool)
      (cashoutMultiplier entryMultiplier betAmount payoutAmount
         profit : float) (text : string)
  | event (type : string) (encodable : bool).

(** [json.Marshal] refuses NaN and the infinities. *)
Definition finite (f : float) : bool := PrimFloat.is_finite f.

Definition marshalable (m : message) : bool :=
  match m with
  | chat_message _ _ _ => true
  | crash_history history =>
      forallb (λ g, finite (CrashUnified.PeakMultiplier g)) history
  | active_bettors bettors _ =>
      forallb (λ b, finite (BetAmount b) && finite (EntryMultiplier b))
              bettors
  | crash_cashout_result _ cm em ba pa pr _ =>
      finite cm && finite em && finite ba && finite pa && finite pr
  | event _ encodable => encodable
  end.

(** What travels in a [Send] channel: the encoding of a message, or the
    nil slice left by a failed [json.Marshal] whose error was dropped. *)
Inductive payload : Type :=
  | Encoded (m : message)
  | NilData.

Definition Marshal (m : message) : option payload :=
  if marshalable m then Some (Encoded m) else None.

(** How a payload reached the socket: through [writePump], or written
    directly with [writeJSON]. *)
Inductive via : Type := Pumped | Direct.

(** Where the [readPump] of a connection is: between two inbound
    messages, inside a "subscribe" call (after the subscription is set,
    or sending the chat history), or gone. *)
Inductive call : Type :=
  | Idle
  | Subscribed (channel : string)
  | SendingHistory (rest : list message)
  | Exited.

(** A [ClientConnection]; [registered] is its entry in the [clients]
    registry, [Send] the content of its channel (oldest first), [written]
    what has been written to its socket, in order. *)
Record ClientConnection := {
  ID : string;
  Subscriptions : gmap string bool;
  Send : list payload;
  registered : bool;
  written : list (via * payload);
  reading : call;
}.

(** The goroutines started with [go func]: the contract's [PayPlayer]
    (its wei amount is [payoutAmount] times 10^18, truncated), the database
    update of a cashed-out bet followed by [AddWalletPnL] of the payout,
    and the storing of a chat message. *)
Inductive task : Type :=
  | PayPlayer (playerAddress : string) (payoutAmount : float)
  | RecordCashout (gameId playerAddress : string)
      (cashoutMultiplier payoutAmount : float) (payoutTxHash : string)
  | StoreChatMessage (playerAddress text timestamp : string).

(** The package-level variables, the connections by address, and the
    tasks started so far. *)
Record state := {
  conns : gmap nat ClientConnection;
  crashBroadcast : list message;
  chatBroadcastCh : list message;
  roomsBroadcast : list message;
  chatHistory : list message;
  crashGameHistory : list CrashUnified.CrashGameHistory;
  currentCrashGame : option CrashGameState;
  activeBettors : gmap string ActiveBettor;
  contractClient : bool;
  tasks : list task;
}.

Definition maxChatHistory : Z := 100.
Definition SendCapacity : Z := 256.
Definition ChannelCapacity : Z := 100.

Definition set_conn (p : nat) (c : ClientConnection) (s : state) : state :=
  {| conns := <[p := c]> (conns s);
     crashBroadcast := crashBroadcast s;
     chatBroadcastCh := chatBroadcastCh s;
     roomsBroadcast := roomsBroadcast s;
     chatHistory := chatHistory s;
     crashGameHistory := crashGameHistory s;
     currentCrashGame := currentCrashGame s;
     activeBettors := activeBettors s;
     contractClient := contractClient s;
     tasks := tasks s |}.

Definition set_conns (cs : gmap nat ClientConnection) (s : state) : state :=
  {| conns := cs;
     crashBroadcast := crashBroadcast s;
     chatBroadcastCh := chatBroadcastCh s;
     roomsBroadcast := roomsBroadcast s;
     chatHistory := chatHistory s;
     crashGameHistory := crashGameHistory s;
     currentCrashGame := currentCrashGame s;
     activeBettors := activeBettors s;
     contractClient := contractClient s;
     tasks := tasks s |}.

Definition set_channels (crash chat rooms : list message) (s : state)
    : state :=
  {| conns := conns s;
     crashBroadcast := crash;
     chatBroadcastCh := chat;
     roomsBroadcast := rooms;
     chatHistory := chatHistory s;
     crashGameHistory := crashGameHistory s;
     currentCrashGame := currentCrashGame s;
     activeBettors := activeBettors s;
     contractClient := contractClient s;
     tasks := tasks s |}.

Definition set_chatHistory (h : list message) (s : state) : state :=
  {| conns := conns s;
     crashBroadcast := crashBroadcast s;
     chatBroadcastCh := chatBroadcastCh s;
     roomsBroadcast := roomsBroadcast s;
     chatHistory := h;
     crashGameHistory := crashGameHistory s;
     currentCrashGame := currentCrashGame s;
     activeBettors := activeBettors s;
     contractClient := contractClient s;
     tasks := tasks s |}.

Definition set_activeBettors (b : gmap string ActiveBettor) (s : state)
    : state :=
  {| conns := conns s;
     crashBroadcast := crashBroadcast s;
     chatBroadcastCh := chatBroadcastCh s;
     roomsBroadcast := roomsBroadcast s;
     chatHistory := chatHistory s;
     crashGameHistory := crashGameHistory s;
     currentCrashGame := currentCrashGame s;
     activeBettors := b;
     contractClient := contractClient s;
     tasks := tasks s |}.

Definition spawn (t : task) (s : state) : state :=
  {| conns := conns s;
     crashBroadcast := crashBroadcast s;
     chatBroadcastCh := chatBroadcastCh s;
     roomsBroadcast := roomsBroadcast s;
     chatHistory := chatHistory s;
     crashGameHistory := crashGameHistory s;
     currentCrashGame := currentCrashGame s;
     activeBettors := activeBettors s;
     contractClient := contractClient s;
     tasks := tasks s ++ [t] |}.


(** Updates of one connection. *)
Definition enqueue (d : payload) (c : ClientConnection) : ClientConnection :=
  {| ID := ID c; Subscriptions := Subscriptions c; Send := Send c ++ [d];
     registered := registered c; written := written c;
     reading := reading c |}.

Definition set_reading (k : call) (c : ClientConnection) : ClientConnection :=
  {| ID := ID c; Subscriptions := Subscriptions c; Send := Send c;
     registered := registered c; written := written c; reading := k |}.

Definition set_subscriptions (m : gmap string bool) (c : ClientConnection)
    : ClientConnection :=
  {| ID := ID c; Subscriptions := m; Send := Send c;
     registered := registered c; written := written c;
     reading := reading c |}.

Definition set_registered (b : bool) (c : ClientConnection)
    : ClientConnection :=
  {| ID := ID c; Subscriptions := Subscriptions c; Send := Send c;
     registered := b; written := written c; reading := reading c |}.

Definition write (v : via) (d : payload) (c : ClientConnection)
    : ClientConnection :=
  {| ID := ID c; Subscriptions := Subscriptions c; Send := Send c;
     registered := registered c; written := written c ++ [(v, d)];
     reading := reading c |}.

Definition dequeue (c : ClientConnection) : ClientConnection :=
  {| ID := ID c; Subscriptions := Subscriptions c; Send := tail (Send c);
     registered := registered c; written := written c;
     reading := reading c |}.

(** [client.Subscriptions[channel]], false for a missing key. *)
Definition subscribed (c : ClientConnection) (channel : string) : bool :=
  default false (Subscriptions c !! channel).

(** The [select] with [default] of [broadcastToSubscribers], for one
    connection: enqueue when subscribed and the channel has room. *)
Definition deliver (channel : string) (data : payload)
    (c : ClientConnection) : ClientConnection :=
  if registered c && subscribed c channel then
    if Z.of_nat (length (Send c)) <? SendCapacity then enqueue data c
    else c
  else c.

Definition broadcastToSubscribers (channel : string) (m : message)
    (s : state) : state :=
  match Marshal m with
  | Some data => set_conns (deliver channel data <$> conns s) s
  | None => s
  end.

(** The chat case of [runEventHub] for the message [m] taken from
    [chatBroadcastCh]. *)
Definition hub_chat (m : message) (s : state) : state :=
  let h := chatHistory s ++ [m] in
  let h := if maxChatHistory <? Z.of_nat (length h) then drop 1 h else h in
  broadcastToSubscribers "chat" m (set_chatHistory h s).

(** The connection [sendPrivateMessage] sends to: a registered one whose
    [ID] is [userId].  [generateClientID] numbers the connections, so the
    loop over [clients] meets at most one. *)
Definition find_user (userId : string) (s : state) : option nat :=
  fst <$> List.find (λ pc, registered (snd pc) && String.eqb (ID (snd pc)) userId)
                    (map_to_list (conns s)).

Definition sendPrivateMessage (client : nat) (userId : string)
    (m : message) (s : state) : state :=
  match find_user userId s with
  | Some p =>
      match Marshal m, conns s !! p with
      | Some data, Some c => set_conn p (enqueue data c) s
      | _, _ => s
      end
  | None => s
  end.

Definition broadcastActiveBettors (s : state) : state :=
  let list := snd <$> map_to_list (activeBettors s) in
  set_channels
    (crashBroadcast s ++ [active_bettors list (Z.of_nat (length list))])
    (chatBroadcastCh s) (roomsBroadcast s) s.

Definition RemoveActiveBettor (address : string) (s : state) : state :=
  match activeBettors s !! address with
  | Some _ =>
      broadcastActiveBettors
        (set_activeBettors (delete address (activeBettors s)) s)
  | None => s
  end.

(** The type assertions [data[k].(string)] and [data[k].(float64)];
    [None] is the panic of a failed assertion. *)
Definition as_string (data : gmap string json) (k : string) : option string :=
  match data !! k with
  | Some (JStr x) => Some x
  | _ => None
  end.

Definition as_float64 (data : gmap string json) (k : string) : option float :=
  match data !! k with
  | Some (JNum x) => Some x
  | _ => None
  end.

Section Handlers.
Context `{Std}.

(** [fmt.Sprintf("Cashed out at %.2fx! Profit: %.4f MNT", ...)] *)
Definition cashout_text (cashoutMultiplier profit : float) : string :=
  ("Cashed out at " ++ FormatFloat 2 cashoutMultiplier ++ "x! Profit: "
     ++ FormatFloat 4 profit ++ " MNT")%string.

(** [handleCrashCashout]; [None] is a panic: a failed type assertion, or
    [big.NewFloat] of a NaN.  Its two channel sends block while the
    channel is full; the state returned is the one reached once they have
    gone through. *)
Definition handleCrashCashout (client : nat) (data : gmap string json)
    (s : state) : option state :=
  playerAddress ← as_string data "playerAddress";
  userId ← as_string data "userId";
  gameId ← as_string data "gameId";
  cashoutMultiplier ← as_float64 data "cashoutMultiplier";
  betAmount ← as_float64 data "betAmount";
  entryMultiplier ← as_float64 data "entryMultiplier";
  let profit := (betAmount * (cashoutMultiplier - 1))%float in
  let payoutAmount := (betAmount + profit)%float in
  s1 ← (if contractClient s then
          if F64.IsNaN payoutAmount then None
          else Some (spawn (PayPlayer playerAddress payoutAmount) s)
        else Some s);
  let s2 :=
    spawn (RecordCashout gameId playerAddress cashoutMultiplier
             payoutAmount "") s1 in
  let s3 := RemoveActiveBettor playerAddress s2 in
  Some (sendPrivateMessage client userId
          (crash_cashout_result true cashoutMultiplier entryMultiplier
             betAmount payoutAmount profit
             (cashout_text cashoutMultiplier profit)) s3).

(** [handleChatMessage]; [now] is the formatted [time.Now()]. *)
Definition handleChatMessage (client : nat) (data : gmap string json)
    (now : string) (s : state) : option state :=
  text ← as_string data "message";
  c ← conns s !! client;
  let playerAddress :=
    match as_string data "playerAddress" with
    | Some addr => if String.eqb addr "" then ID c else addr
    | None => ID c
    end in
  let chatMsg := chat_message playerAddress text now in
  let s1 := spawn (StoreChatMessage playerAddress text now) s in
  Some (set_channels (crashBroadcast s1) (chatBroadcastCh s1 ++ [chatMsg])
                     (roomsBroadcast s1) s1).

(** The payload [sendInitialData] sends for a history entry: the
    encoding, or nil data when [json.Marshal] fails (its error is
    dropped). *)
Definition history_payload (m : message) : payload :=
  default NilData (Marshal m).

(** A direct [writeJSON]: the payload reaches the socket unless the
    message cannot be encoded. *)
Definition writeJSON (m : message) (c : ClientConnection)
    : ClientConnection :=
  match Marshal m with
  | Some d => write Direct d c
  | None => c
  end.

(** The actions of the hub's goroutines.  A connection's [readPump]
    handles one inbound message at a time: its actions need
    [reading = Idle], except the three that continue a "subscribe".
    [Connect] is [HandleUnifiedWS] creating the client and [Register] the
    hub entering it in [clients], which the client's [readPump] need not
    wait for; [Unregister] is the end of a [readPump] together with the
    hub's handling of it; [Produce] is any producer putting a message on
    the crash or rooms channel, [DirectWrite] any [writeJSON] reply.  A
    [writePump] whose socket fails simply takes no more steps. *)
Inductive action : Type :=
  | Connect (p : nat) (id : string)
  | Register (p : nat)
  | Unregister (p : nat)
  | Produce (channel : string) (m : message)
  | DirectWrite (p : nat) (m : message)
  | LoadChatHistory (messages : list (string * string * string))
  | HubCrash
  | HubChat
  | HubRooms
  | Subscribe (p : nat) (channel : string)
  | InitialData (p : nat)
  | SendHistoryMessage (p : nat)
  | Return (p : nat)
  | Unsubscribe (p : nat) (channel : string)
  | JoinCandleflipRoom (p : nat) (roomID : string)
  | ChatMessage (p : nat) (data : gmap string json) (now : string)
  | CrashCashout (p : nat) (data : gmap string json)
  | WritePump (p : nat).

Definition has_room (c : ClientConnection) : bool :=
  Z.of_nat (length (Send c)) <? SendCapacity.

Definition channel_has_room (q : list message) : bool :=
  Z.of_nat (length q) <? ChannelCapacity.

(** Whether a cashout would block: on [crashBroadcast] when there is a
    bettor to remove, or on the [Send] channel of the connection the
    private message goes to. *)
Definition cashout_blocks (data : gmap string json) (s : state) : bool :=
  match as_string data "playerAddress", as_string data "userId" with
  | Some playerAddress, Some userId =>
      (bool_decide (is_Some (activeBettors s !! playerAddress))
       && negb (channel_has_room (crashBroadcast s)))
      || match find_user userId s with
         | Some q =>
             match conns s !! q with
             | Some c => negb (has_room c)
             | None => false
             end
         | None => false
         end
  | _, _ => false
  end.

(** An idle connection at [p]. *)
Definition idle (p : nat) (s : state) : option ClientConnection :=
  c ← conns s !! p;
  match reading c with Idle => Some c | _ => None end.

(** One action; [None] when the action cannot be taken in [s] (its
    goroutine is elsewhere, or it blocks on a full channel, or it would
    panic). *)
Definition perform (a : action) (s : state) : option state :=
  match a with
  | Connect p id =>
      match conns s !! p with
      | None =>
          Some (set_conn p {| ID := id; Subscriptions := ∅; Send := [];
                              registered := false; written := [];
                              reading := Idle |} s)
      | Some _ => None
      end
  | Register p =>
      c ← conns s !! p;
      match reading c with
      | Exited => None
      | _ => Some (set_conn p (set_registered true c) s)
      end
  | Unregister p =>
      c ← idle p s;
      Some (set_conn p (set_reading Exited (set_registered false c)) s)
  | Produce channel m =>
      if String.eqb channel "crash" then
        if channel_has_room (crashBroadcast s) then
          Some (set_channels (crashBroadcast s ++ [m]) (chatBroadcastCh s)
                             (roomsBroadcast s) s)
        else None
      else if String.eqb channel "rooms" then
        if channel_has_room (roomsBroadcast s) then
          Some (set_channels (crashBroadcast s) (chatBroadcastCh s)
                             (roomsBroadcast s ++ [m]) s)
        else None
      else None
  | DirectWrite p m =>
      c ← conns s !! p;
      Some (set_conn p (writeJSON m c) s)
  | LoadChatHistory messages =>
      Some (set_chatHistory
              (chatHistory s
                 ++ ((λ x, chat_message x.1.1 x.1.2 x.2) <$> messages)) s)
  | HubCrash =>
      match crashBroadcast s with
      | m :: rest =>
          Some (broadcastToSubscribers "crash" m
                  (set_channels rest (chatBroadcastCh s)
                                (roomsBroadcast s) s))
      | [] => None
      end
  | HubChat =>
      match chatBroadcastCh s with
      | m :: rest =>
          Some (hub_chat m (set_channels (crashBroadcast s) rest
                                         (roomsBroadcast s) s))
      | [] => None
      end
  | HubRooms =>
      match roomsBroadcast s with
      | m :: rest =>
          Some (broadcastToSubscribers "rooms" m
                  (set_channels (crashBroadcast s) (chatBroadcastCh s)
                                rest s))
      | [] => None
      end
  | Subscribe p channel =>
      c ← idle p s;
      Some (set_conn p
              (set_reading (Subscribed channel)
                 (set_subscriptions (<[channel := true]> (Subscriptions c))
                                    c)) s)
  | InitialData p =>
      c ← conns s !! p;
      match reading c with
      | Subscribed channel =>
          if String.eqb channel "chat" then
            Some (set_conn p (set_reading (SendingHistory (chatHistory s)) c)
                           s)
          else if String.eqb channel "crash" then
            let bettors := snd <$> map_to_list (activeBettors s) in
            Some (set_conn p
                    (set_reading Idle
                       (writeJSON
                          (active_bettors bettors
                             (Z.of_nat (length bettors)))
                          (writeJSON (crash_history (crashGameHistory s))
                                     c))) s)
          else Some (set_conn p (set_reading Idle c) s)
      | _ => None
      end
  | SendHistoryMessage p =>
      c ← conns s !! p;
      match reading c with
      | SendingHistory (m :: rest) =>
          if has_room c then
            Some (set_conn p
                    (set_reading (SendingHistory rest)
                       (enqueue (history_payload m) c)) s)
          else None
      | _ => None
      end
  | Return p =>
      c ← conns s !! p;
      match reading c with
      | SendingHistory [] => Some (set_conn p (set_reading Idle c) s)
      | _ => None
      end
  | Unsubscribe p channel =>
      c ← idle p s;
      Some (set_conn p
              (set_subscriptions (delete channel (Subscriptions c)) c) s)
  | JoinCandleflipRoom p roomID =>
      c ← idle p s;
      Some (set_conn p
              (set_subscriptions
                 (<[("candleflip:" ++ roomID)%string := true]>
                    (Subscriptions c)) c) s)
  | ChatMessage p data now =>
      _ ← idle p s;
      if channel_has_room (chatBroadcastCh s)
      then handleChatMessage p data now s
      else None
  | CrashCashout p data =>
      _ ← idle p s;
      if cashout_blocks data s then None
      else handleCrashCashout p data s
  | WritePump p =>
      c ← conns s !! p;
      match Send c with
      | d :: _ => Some (set_conn p (write Pumped d (dequeue c)) s)
      | [] => None
      end
  end.

(** A sequence of actions, interleaved in any way. *)
Fixpoint run (tr : list action) (s : state) : option state :=
  match tr with
  | [] => Some s
  | a :: tr' => s' ← perform a s; run tr' s'
  end.

(** What the connection's [Send] channel has carried and carries: the
    payloads [writePump] has written, then those still queued. *)
Definition pumped (c : ClientConnection) : list payload :=
  snd <$> List.filter
            (λ x, match fst x with Pumped => true | Direct => false end)
            (written c).

Definition stream (c : ClientConnection) : list payload :=
  pumped c ++ Send c.

Definition stream_at (p : nat) (s : state) : list payload :=
  match conns s !! p with
  | Some c => stream c
  | None => []
  end.

End Handlers.
End Unified.

(** ** A cashout whose sender is not the addressee *)

Module CashoutExample.
Import Unified.

(** One registered connection, at address 0, with the ID the server gave
    it; nothing else. *)
Definition requester : ClientConnection :=
  {| ID := "1700000000-1"; Subscriptions := {["crash"%string := true]};
     Send := []; registered := true; written := []; reading := Idle |}.

Definition hub : state :=
  {| conns := {[0%nat := requester]};
     crashBroadcast := []; chatBroadcastCh := []; roomsBroadcast := [];
     chatHistory := []; crashGameHistory := [];
     currentCrashGame := None; activeBettors := ∅;
     contractClient := false; tasks := [] |}.

(** The cashout that connection sends: 0.2 staked, cashed out at 1.7x,
    with the player's own user id. *)
Definition data : gmap string json :=
  {[ "playerAddress"%string := JStr "0xA";
     "userId"%string := JStr "alice";
     "gameId"%string := JStr "1700000000";
     "cashoutMultiplier"%string := JNum 1.7;
     "betAmount"%string := JNum 0.2;
     "entryMultiplier"%string := JNum 1.0 ]}.


Definition lib : Std := Scripted.lib (λ _, []).

End CashoutExample.

(** ** Reading the hub's runs *)

Module HubRuns.
Import Unified.

(** The connection whose [readPump] takes the action, if it is one. *)
Definition actor (a : action) : option nat :=
  match a with
  | Unregister p | Subscribe p _ | InitialData p | SendHistoryMessage p
  | Return p | Unsubscribe p _ | JoinCandleflipRoom p _
  | ChatMessage p _ _ | CrashCashout p _ => Some p
  | _ => None
  end.

(** Where the connection at [p] is in its handler. *)
Definition reading_at (p : nat) (s : state) : option call :=
  reading <$> conns s !! p.


End HubRuns.

(** ** A chat subscription with three stored messages *)

Module ChatExample.
Import Unified.

Definition m1 : message := chat_message "0xA" "gm" "2025-01-01T00:00:00Z".
Definition m2 : message := chat_message "0xB" "gl" "2025-01-01T00:00:01Z".
Definition m3 : message := chat_message "0xA" "hf" "2025-01-01T00:00:02Z".

Definition fresh (id : string) : ClientConnection :=
  {| ID := id; Subscriptions := ∅; Send := []; registered := true;
     written := []; reading := Idle |}.

(** Two registered connections and three stored chat messages. *)
Definition hub : state :=
  {| conns := {[0%nat := fresh "1700000000-1"; 1%nat := fresh "1700000000-2"]};
     crashBroadcast := []; chatBroadcastCh := []; roomsBroadcast := [];
     chatHistory := [m1; m2; m3]; crashGameHistory := [];
     currentCrashGame := None; activeBettors := ∅;
     contractClient := false; tasks := [] |}.

Definition lib : Std := Scripted.lib (λ _, []).

Definition said : gmap string json := {["message"%string := JStr "wagmi"]}.



(** The state after the actions [tr] from [hub]. *)
Definition after (tr : list action) : state :=
  default hub (@run lib tr hub).

End ChatExample.

(** ** Small inputs for the candle merge and the history *)

Module SmallInputs.

Definition candle (o c h l : float) (n : nat) : Candle.CandleGroup :=
  {| Candle.Open := o; Candle.Close := Some (Candle.Cell n);
     Candle.Max := h; Candle.Min := l; Candle.ValueList := [];
     Candle.StartTime := 5000 * Z.of_nat n; Candle.DurationMs := 5000;
     Candle.IsComplete := true |}.

(** Three completed candles. *)
Definition three : list Candle.CandleGroup :=
  [candle 1.0 1.2 1.3 0.9 0; candle 1.2 1.1 1.5 1.0 1;
   candle 1.1 1.4 1.4 1.1 2].

Definition finished (n : nat) : CrashUnified.CrashGameHistory :=
  {| CrashUnified.GameID := "game";
     CrashUnified.PeakMultiplier := 1.5; CrashUnified.Rugged := true;
     CrashUnified.Candles := []; CrashUnified.Timestamp := Z.of_nat n |}.

(** Twelve finished games, numbered by their time stamps. *)
Definition twelve : list CrashUnified.CrashGameHistory :=
  finished <$> seq 0 12.

End SmallInputs.

(** ** Predicates used in the statements *)

Section Statements.
Context `{Std}.

(** Two generator states that give the same draws, however many are
    taken. *)
Definition same_draws (r r' : rand_state) : Prop :=
  ∀ n, draws n r = draws n r'.

(** A computation whose result depends on the generator through its draws
    only, and which leaves generators with the same draws in such states
    again. *)
Definition respects {A} (m : M A) : Prop :=
  ∀ r r', same_draws r r' →
    fst (m r) = fst (m r') ∧ same_draws (snd (m r)) (snd (m r')).


(** The same for the engine with the peak sub-seed. *)
Definition fired_peak (v : EnginePeak.vars) (r : rand_state) : Prop :=
  20 < EnginePeak.tick v ∧
  F64.lt (fst (rand_Float64 r))
         (if EnginePeak.reachedPredeterminedPeak v
          then EnginePeak.RugProbAfterPeak
          else EnginePeak.RugProbBeforePeak) = true.

(** The price is within the cap: it has not moved from the starting price
    yet, or it does not exceed the target peak. *)
Definition capped (targetPeak : float) (v : EngineTarget.vars) : Prop :=
  0 <= EngineTarget.tick v ∧
  ((EngineTarget.tick v = 0 ∧
    EngineTarget.price v = EngineTarget.StartingPrice) ∨
   (0 < EngineTarget.tick v ∧
    F64.gt (EngineTarget.price v) targetPeak = false)).

(** The merged pairs alone, without the odd last candle. *)
Fixpoint pairs_only (groups : list Candle.CandleGroup)
    : list Candle.CandleGroup :=
  match groups with
  | g1 :: g2 :: rest => Server.merged g1 g2 :: pairs_only rest
  | _ => []
  end.

Definition foldMax (acc : float) (l : list Candle.CandleGroup) : float :=
  fold_left (λ acc c, F64.Max acc (Candle.Max c)) l acc.

Definition foldMin (acc : float) (l : list Candle.CandleGroup) : float :=
  fold_left (λ acc c, F64.Min acc (Candle.Min c)) l acc.

(** The last [k] elements of a list. *)
Definition lastn {A} (k : nat) (l : list A) : list A :=
  drop (length l - k) l.


End Statements.

(** * More of the program *)

(** ** game/candleflip.go: the simulation with its price history, and the
       payout *)

Module CandleflipSim.
Import Candleflip.

Section CandleflipSim.
Context `{Std}.

(** The loop [for i := 0; i < CandleflipTotalTicks; i++] of
    [SimulateCandleflipGame] with [n] iterations left: the update, the
    clamp at 0 and the write [priceHistory[i+1] = currentPrice]. *)
Fixpoint simulate_from (n i : nat) (currentPrice : float)
    (priceHistory : list float) : M (float * list float) :=
  match n with
  | O => ret (currentPrice, priceHistory)
  | S n' =>
      p <- GenerateCandleflipPrice currentPrice ;;
      let currentPrice := if F64.lt p 0 then 0%float else p in
      simulate_from n' (S i) currentPrice
                    (<[S i := currentPrice]> priceHistory)
  end.

Definition SimulateCandleflipGame (serverSeed : string)
    : list float * string :=
  let combined := (serverSeed ++ "-candleflip")%string in
  let rng := Prng.NewSeededRNG combined in
  let priceHistory :=
    <[0%nat := CandleflipStartingPrice]>
      (replicate (CandleflipTotalTicks + 1) 0%float) in
  let '(currentPrice, priceHistory) :=
    eval (simulate_from CandleflipTotalTicks 0 CandleflipStartingPrice
                        priceHistory) rng in
  let winner := if F64.lt currentPrice 1.0 then "RED"%string
                else "GREEN"%string in
  (priceHistory, winner).

End CandleflipSim.

Definition CalculateCandleflipPayout (betAmount : float)
    (trend winner : string) : float :=
  let won :=
    (String.eqb trend "bullish" && String.eqb winner "GREEN")
    || (String.eqb trend "bearish" && String.eqb winner "RED") in
  if won then (betAmount * 2.0)%float else 0%float.

End CandleflipSim.

(** ** The order of float64 comparisons

    The comparisons [<], [<=], [>], [>=] order the values other than NaN,
    the two zeros being equal.  The key below realises that order as a
    lexicographic order on integer triples. *)

Module F64Compare.

Definition key (a : spec_float) : Z * Z * Z :=
  match a with
  | S754_infinity true => (0, 0, 0)
  | S754_finite true m e => (1, - e, - Zpos m)
  | S754_zero _ => (2, 0, 0)
  | S754_finite false m e => (3, e, Zpos m)
  | S754_infinity false => (4, 0, 0)
  | S754_nan => (5, 0, 0)
  end.

(** Whether a value is a number, and its key. *)
Definition num (x : float) : Prop := Prim2SF x ≠ S754_nan.
Definition kf (x : float) : Z * Z * Z := key (Prim2SF x).

End F64Compare.

(** ** ws/crash_unified.go: the active bettors; ws/unified.go: placing a
       bet *)

Module Bettors.
Import Unified.

(** [AddActiveBettor]; [now] is [time.Now()].  The send on
    [crashBroadcast] blocks while the channel is full; the state is the
    one reached once it has gone through. *)
Definition AddActiveBettor (address : string) (amount multiplier : float)
    (now : Z) (s : state) : state :=
  broadcastActiveBettors
    (set_activeBettors
       (<[address := {| Address := address; BetAmount := amount;
                        EntryMultiplier := multiplier; BetTime := now |}]>
          (activeBettors s)) s).

Definition ClearActiveBettors (s : state) : state :=
  let count := Z.of_nat (size (activeBettors s)) in
  let s1 := set_activeBettors ∅ s in
  if 0 <? count then broadcastActiveBettors s1 else s1.

Definition GetActiveBettors (s : state) : list ActiveBettor :=
  snd <$> map_to_list (activeBettors s).

(** db/postgres.go: the record [handleCrashBetPlaced] hands to the
    database goroutine, which stores it and subtracts the bet from the
    wallet's PnL. *)
Record CrashBetRecord := {
  GameID : string;
  PlayerAddress : string;
  UserID : string;
  BetAmount : float;
  EntryMultiplier : float;
  TransactionHash : string;
  Status : string;
  CreatedAt : Z;
}.

(** [handleCrashBetPlaced]: the record given to the database goroutine
    and the state after [AddActiveBettor]; [created] and [now] are the two
    readings of [time.Now()]; [None] is the panic of a failed type
    assertion. *)
Definition handleCrashBetPlaced (client : nat) (data : gmap string json)
    (created now : Z) (s : state) : option (CrashBetRecord * state) :=
  playerAddress ← as_string data "playerAddress";
  userId ← as_string data "userId";
  gameId ← as_string data "gameId";
  betAmount ← as_float64 data "betAmount";
  entryMultiplier ← as_float64 data "entryMultiplier";
  transactionHash ← as_string data "transactionHash";
  Some ({| GameID := gameId; PlayerAddress := playerAddress;
           UserID := userId; BetAmount := betAmount;
           EntryMultiplier := entryMultiplier;
           TransactionHash := transactionHash; Status := "active";
           CreatedAt := created |},
        AddActiveBettor playerAddress betAmount entryMultiplier now s).

(** The calls that change the registry of active bettors, and a sequence
    of them. *)
Inductive operation : Type :=
  | Add (address : string) (amount multiplier : float) (now : Z)
  | Remove (address : string)
  | Clear.

Definition apply (o : operation) (s : state) : state :=
  match o with
  | Add address amount multiplier now =>
      AddActiveBettor address amount multiplier now s
  | Remove address => RemoveActiveBettor address s
  | Clear => ClearActiveBettors s
  end.

Definition apply_all (ops : list operation) (s : state) : state :=
  foldl (λ s o, apply o s) s ops.

(** The registry as the program starts with it:
    [activeBettors = make(map[string]*ActiveBettor)]. *)
Definition no_bettors (s : state) : state := set_activeBettors ∅ s.

End Bettors.

(** ** ws/candleflip.go: the game of a room, and the tracker of a
       contract game's rooms *)

Module CandleflipRoom.
Import Candleflip.

(** The broadcasts of the simulation, by their ["type"]. *)
Inductive message : Type :=
  | price_update (roomId : string) (tick : Z) (price : float)
  | game_end (roomId gameId serverSeed : string) (finalPrice : float)
      (winner : string) (priceHistory : list float).

Record outcome := {
  currentPrice : float;
  priceHistory : list float;
  winner : string;
  playerWon : bool;
  broadcast : list message;
}.

Section Room.
Context `{Std}.

(** [game.RoundToDecimal], which uses [math.Pow] and [math.Round]. *)
Variable RoundToDecimal : float → Z → float.

(** The loop [for tick := 0; tick < game.CandleflipTotalTicks; tick++]
    with [n] iterations left. *)
Fixpoint simulate (n : nat) (roomId : string) (tick : Z)
    (currentPrice : float) (priceHistory : list float)
    (sent : list message) : M (float * list float * list message) :=
  match n with
  | O => ret (currentPrice, priceHistory, sent)
  | S n' =>
      p <- GenerateCandleflipPrice currentPrice ;;
      let currentPrice := if F64.lt p 0 then 0%float else p in
      let priceHistory := priceHistory ++ [currentPrice] in
      simulate n' roomId (tick + 1) currentPrice priceHistory
        (sent ++ [price_update roomId (tick + 1)
                    (RoundToDecimal currentPrice 3)])
  end.

(** [runCandleflipRoom] from the simulation to the "game_end"
    broadcast; [playerTrend] is the trend of the room in
    [globalRooms]. *)
Definition runCandleflipRoom (roomId gameId serverSeed
    playerTrend : string) : outcome :=
  let combined := (serverSeed ++ "-candleflip")%string in
  let rng := Prng.NewSeededRNG combined in
  let '(currentPrice, priceHistory, sent) :=
    eval (simulate CandleflipTotalTicks roomId 0
            CandleflipStartingPrice [CandleflipStartingPrice] []) rng in
  let winner := if F64.lt currentPrice 1.0 then "RED"%string
                else "GREEN"%string in
  let playerWon :=
    (String.eqb playerTrend "bullish" && String.eqb winner "GREEN")
    || (String.eqb playerTrend "bearish" && String.eqb winner "RED") in
  {| currentPrice := currentPrice; priceHistory := priceHistory;
     winner := winner; playerWon := playerWon;
     broadcast :=
       sent ++ [game_end roomId gameId serverSeed
                  (RoundToDecimal currentPrice 3) winner
                  priceHistory] |}.

End Room.

(** The tracker of the rooms of one contract game. *)
Record ContractGameTracker := {
  GameID : string;
  TotalRooms : Z;
  FinishedRooms : Z;
  RoomsWon : Z;
  resolveStarted : bool;
}.

(** What [runCandleflipRoom] does with [contractGameResults] when its
    game has finished, under [contractGameMutex]: the map afterwards, and
    [Some finalRoomsWon] when this room is the one that starts the call of
    [ResolveCandleFlip]. *)
Definition track (contractGameIDStr : string) (roomsCount : Z)
    (playerWon : bool) (results : gmap string ContractGameTracker)
    : gmap string ContractGameTracker * option Z :=
  if negb (String.eqb contractGameIDStr "") && (0 <? roomsCount) then
    let tracker :=
      match results !! contractGameIDStr with
      | Some tracker => tracker
      | None => {| GameID := contractGameIDStr; TotalRooms := roomsCount;
                   FinishedRooms := 0; RoomsWon := 0;
                   resolveStarted := false |}
      end in
    let finished := Int64.wrap (FinishedRooms tracker + 1) in
    let won := if playerWon then Int64.wrap (RoomsWon tracker + 1)
               else RoomsWon tracker in
    let isLastRoom := finished =? TotalRooms tracker in
    let shouldResolve := isLastRoom && negb (resolveStarted tracker) in
    (<[contractGameIDStr :=
         {| GameID := GameID tracker; TotalRooms := TotalRooms tracker;
            FinishedRooms := finished; RoomsWon := won;
            resolveStarted := if shouldResolve then true
                              else resolveStarted tracker |}]> results,
     if shouldResolve then Some won else None)
  else (results, None).

(** The last step of the goroutine that calls [ResolveCandleFlip]: it
    deletes the game's tracker.  (The goroutine ends before that step
    when it gets no contract client or cannot parse the game id.) *)
Definition cleanup (contractGameIDStr : string)
    (results : gmap string ContractGameTracker)
    : gmap string ContractGameTracker :=
  delete contractGameIDStr results.

(** What happens to the tracker of one contract game: one of its rooms
    finishes, or a resolving goroutine reaches its last step. *)
Inductive event : Type :=
  | Finish (playerWon : bool)
  | Cleanup.

(** The events of one contract game in order, [resolving] being the
    number of resolving goroutines that have not reached their last step:
    the map afterwards and the answers of [track], in order.  [None]: a
    [Cleanup] with no resolving goroutine it could belong to. *)
Fixpoint track_all (contractGameIDStr : string) (roomsCount : Z)
    (events : list event) (resolving : nat)
    (results : gmap string ContractGameTracker)
    : option (gmap string ContractGameTracker * list (option Z)) :=
  match events with
  | [] => Some (results, [])
  | Finish playerWon :: events' =>
      let '(results1, a) :=
        track contractGameIDStr roomsCount playerWon results in
      let resolving1 :=
        match a with Some _ => S resolving | None => resolving end in
      match track_all contractGameIDStr roomsCount events' resolving1
                      results1 with
      | Some (results2, answers) => Some (results2, a :: answers)
      | None => None
      end
  | Cleanup :: events' =>
      match resolving with
      | O => None
      | S resolving' =>
          track_all contractGameIDStr roomsCount events' resolving'
                    (cleanup contractGameIDStr results)
      end
  end.

End CandleflipRoom.

(** ** ws/global_rooms.go: the rooms every client sees; ws/unified.go:
       creating one *)

Module GlobalRooms.
Import Unified.

Record RoomInfo := {
  RoomID : string;
  GameType : string;
  BetAmount : float;
  Trend : string;
  Status : string;
  CreatedAt : Z;
  Players : Z;
  CreatorId : string;
  BotName : string;
  BearSide : string;
  BullSide : string;
  MaxPlayers : Z;
  ContractGameID : string;
  RoomsCount : Z;
}.

(** [globalRooms] maps a room id to a [*RoomInfo], here the index of the
    room among those allocated so far; a "rooms_update" message holds the
    pointers of the rooms listed, which [json.Marshal] follows when the
    hub encodes the message. *)
Record state := {
  heap : list RoomInfo;
  globalRooms : gmap string nat;
  roomsBroadcast : list (list nat);
}.

Definition set_heap (h : list RoomInfo) (st : state) : state :=
  {| heap := h; globalRooms := globalRooms st;
     roomsBroadcast := roomsBroadcast st |}.

Definition set_globalRooms (m : gmap string nat) (st : state) : state :=
  {| heap := heap st; globalRooms := m;
     roomsBroadcast := roomsBroadcast st |}.

(** The rooms a message shows when it is encoded in the state [st]. *)
Definition encode (st : state) (rooms : list nat) : list RoomInfo :=
  omap (λ p, heap st !! p) rooms.

(** The send on [roomsBroadcast] blocks while the channel is full; the
    state is the one reached once it has gone through. *)
Definition BroadcastRoomUpdate (st : state) : state :=
  let rooms := snd <$> map_to_list (globalRooms st) in
  {| heap := heap st; globalRooms := globalRooms st;
     roomsBroadcast := roomsBroadcast st ++ [rooms] |}.

(** The case of one tick of [runPeriodicRoomBroadcaster]: a send that
    does not wait. *)
Definition periodic (st : state) : state :=
  let rooms := snd <$> map_to_list (globalRooms st) in
  if (0 <? Z.of_nat (length rooms))
     && (Z.of_nat (length (roomsBroadcast st)) <? ChannelCapacity)
  then {| heap := heap st; globalRooms := globalRooms st;
          roomsBroadcast := roomsBroadcast st ++ [rooms] |}
  else st.

Definition GetBotName (seed : string) : string := "AI".

(** [now] is [time.Now()]; the result is the new room's pointer. *)
Definition CreateRoom (roomID gameType : string) (betAmount : float)
    (trend : string) (now : Z) (st : state) : nat * state :=
  let maxPlayers := if String.eqb gameType "candleflip" then 1 else 0 in
  let room :=
    {| RoomID := roomID; GameType := gameType; BetAmount := betAmount;
       Trend := trend; Status := "active"; CreatedAt := now; Players := 0;
       CreatorId := ""; BotName := ""; BearSide := ""; BullSide := "";
       MaxPlayers := maxPlayers; ContractGameID := ""; RoomsCount := 0 |} in
  let p := length (heap st) in
  (p, BroadcastRoomUpdate
        (set_globalRooms (<[roomID := p]> (globalRooms st))
           (set_heap (heap st ++ [room]) st))).

(** An assignment through the pointer stored for [roomID], when there is
    one. *)
Definition update (roomID : string) (f : RoomInfo → RoomInfo)
    (st : state) : state :=
  match globalRooms st !! roomID with
  | Some p =>
      match heap st !! p with
      | Some room => set_heap (<[p := f room]> (heap st)) st
      | None => st
      end
  | None => st
  end.

Definition set_Status (status : string) (r : RoomInfo) : RoomInfo :=
  {| RoomID := RoomID r; GameType := GameType r; BetAmount := BetAmount r;
     Trend := Trend r; Status := status; CreatedAt := CreatedAt r;
     Players := Players r; CreatorId := CreatorId r; BotName := BotName r;
     BearSide := BearSide r; BullSide := BullSide r;
     MaxPlayers := MaxPlayers r; ContractGameID := ContractGameID r;
     RoomsCount := RoomsCount r |}.

Definition set_Players (players : Z) (r : RoomInfo) : RoomInfo :=
  {| RoomID := RoomID r; GameType := GameType r; BetAmount := BetAmount r;
     Trend := Trend r; Status := Status r; CreatedAt := CreatedAt r;
     Players := players; CreatorId := CreatorId r; BotName := BotName r;
     BearSide := BearSide r; BullSide := BullSide r;
     MaxPlayers := MaxPlayers r; ContractGameID := ContractGameID r;
     RoomsCount := RoomsCount r |}.

Definition UpdateRoomStatus (roomID status : string) (st : state) : state :=
  BroadcastRoomUpdate (update roomID (set_Status status) st).

Definition UpdateRoomPlayers (roomID : string) (players : Z) (st : state)
    : state :=
  BroadcastRoomUpdate (update roomID (set_Players players) st).

Definition RemoveRoom (roomID : string) (st : state) : state :=
  BroadcastRoomUpdate
    (set_globalRooms (delete roomID (globalRooms st)) st).

(** [data[k].(string)] in its two-valued form, with the default the
    handler starts from. *)
Definition string_or (data : gmap string json) (k : string)
    (default : string) : string :=
  match as_string data k with
  | Some x => x
  | None => default
  end.

Section CreateRoom.

(** The conversion [int(count)] of a float64. *)
Variable int : float → Z.

(** The assignments [handleCreateRoom] makes to a candleflip room. *)
Definition assign (creatorId contractGameId botNameSeed trend : string)
    (roomsCount : Z) (r : RoomInfo) : RoomInfo :=
  let bull :=
    if String.eqb trend "bullish" then "player"%string
    else if String.eqb trend "bearish" then "bot"%string
    else BullSide r in
  let bear :=
    if String.eqb trend "bullish" then "bot"%string
    else if String.eqb trend "bearish" then "player"%string
    else BearSide r in
  {| RoomID := RoomID r; GameType := GameType r;
     BetAmount := BetAmount r; Trend := Trend r; Status := "active";
     CreatedAt := CreatedAt r; Players := 1; CreatorId := creatorId;
     BotName := GetBotName botNameSeed; BearSide := bear;
     BullSide := bull; MaxPlayers := MaxPlayers r;
     ContractGameID := contractGameId; RoomsCount := roomsCount |}.

(** [handleCreateRoom]; [None] is the panic of a failed type
    assertion. *)
Definition handleCreateRoom (data : gmap string json) (now : Z)
    (st : state) : option state :=
  roomID ← as_string data "roomId";
  gameType ← as_string data "gameType";
  betAmount ← as_float64 data "betAmount";
  let creatorId := string_or data "creatorId" "" in
  let trend := string_or data "trend" "" in
  let botNameSeed := string_or data "botNameSeed" "" in
  let contractGameId := string_or data "contractGameId" "" in
  let roomsCount :=
    match as_float64 data "roomsCount" with
    | Some count => int count
    | None => 0
    end in
  let st1 := snd (CreateRoom roomID gameType betAmount trend now st) in
  if String.eqb gameType "candleflip" && negb (String.eqb creatorId "")
  then
    Some (BroadcastRoomUpdate
            (update roomID
               (assign creatorId contractGameId botNameSeed trend
                  roomsCount) st1))
  else Some st1.

End CreateRoom.

(** The calls that change the rooms, and a sequence of them. *)
Inductive operation : Type :=
  | Create (roomID gameType : string) (betAmount : float) (trend : string)
      (now : Z)
  | HandleCreate (data : gmap string json) (now : Z)
  | SetStatus (roomID status : string)
  | SetPlayers (roomID : string) (players : Z)
  | Remove (roomID : string)
  | Periodic.

(** One call; a [handleCreateRoom] that panics ends the program, which is
    left as it is here. *)
Definition apply (int : float → Z) (o : operation) (st : state) : state :=
  match o with
  | Create roomID gameType betAmount trend now =>
      snd (CreateRoom roomID gameType betAmount trend now st)
  | HandleCreate data now =>
      match handleCreateRoom int data now st with
      | Some st' => st'
      | None => st
      end
  | SetStatus roomID status => UpdateRoomStatus roomID status st
  | SetPlayers roomID players => UpdateRoomPlayers roomID players st
  | Remove roomID => RemoveRoom roomID st
  | Periodic => periodic st
  end.

Definition apply_all (int : float → Z) (ops : list operation)
    (st : state) : state :=
  foldl (λ st o, apply int o st) st ops.

(** The program's start: no room. *)
Definition start : state :=
  {| heap := []; globalRooms := ∅; roomsBroadcast := [] |}.

(** Every room listed by a message is allocated, and no room id is
    listed twice. *)
Definition listed_once (st : state) (rooms : list nat) : Prop :=
  Forall (λ p, is_Some (heap st !! p)) rooms ∧
  NoDup (RoomID <$> encode st rooms).

(** Every room is stored under its own id. *)
Definition keyed (st : state) : Prop :=
  ∀ roomID p, globalRooms st !! roomID = Some p →
              ∃ room, heap st !! p = Some room ∧ RoomID room = roomID.

Definition inv (st : state) : Prop :=
  keyed st ∧ Forall (listed_once st) (roomsBroadcast st).

(** A step that keeps every allocated room in place, with its id. *)
Definition keeps (st st' : state) : Prop :=
  ∀ p r, heap st !! p = Some r →
         ∃ r', heap st' !! p = Some r' ∧ RoomID r' = RoomID r.

End GlobalRooms.

(** ** The channels the hub publishes on *)

Module HubChannels.
Import Unified.

(** The channel names [runEventHub] passes to
    [broadcastToSubscribers]. *)
Definition hub_channel (channel : string) : bool :=
  String.eqb channel "crash" || String.eqb channel "chat"
  || String.eqb channel "rooms".

(** A connection, and a state, without the subscriptions to other
    channels. *)
Definition norm (c : ClientConnection) : ClientConnection :=
  set_subscriptions
    (filter (λ kv : string * bool, hub_channel kv.1 = true)
            (Subscriptions c)) c.

Definition norm_state (s : state) : state :=
  set_conns (norm <$> conns s) s.

End HubChannels.

(** ** Concrete hub states *)

Module HubExample.
Import Unified.

Definition tick1 : message := event "price_update" true.
Definition tick2 : message := event "game_end" true.

(** A connection subscribed to "crash" whose [Send] channel has one free
    slot, and two messages queued on the crash channel. *)
Definition slow : ClientConnection :=
  {| ID := "1700000000-1"; Subscriptions := {["crash"%string := true]};
     Send := replicate 255 (Encoded tick1); registered := true;
     written := []; reading := Idle |}.

Definition hub : state :=
  {| conns := {[0%nat := slow]};
     crashBroadcast := [tick1; tick2]; chatBroadcastCh := [];
     roomsBroadcast := [];
     chatHistory := []; crashGameHistory := [];
     currentCrashGame := None; activeBettors := ∅;
     contractClient := false; tasks := [] |}.

(** Connection 0 subscribes to the chat and gets the stored messages;
    after it has gone, connection 1 says something and the hub publishes
    it. *)
Definition joined : list action :=
  [Subscribe 0 "chat"; InitialData 0; SendHistoryMessage 0;
   SendHistoryMessage 0; SendHistoryMessage 0; Return 0].

Definition afterwards : list action :=
  [ChatMessage 1 ChatExample.said "2025-01-01T00:00:03Z"; HubChat].


(** A bet of 0.2 placed by "0xA", which [CashoutExample.data] cashes
    out. *)
Definition bet : gmap string json :=
  <["transactionHash"%string := JStr "0xabc"]> CashoutExample.data.

(** A "create_room" message for a bullish candleflip room of "alice". *)
Definition create : gmap string json :=
  {[ "roomId"%string := JStr "room-1";
     "gameType"%string := JStr "candleflip";
     "betAmount"%string := JNum 0.5;
     "creatorId"%string := JStr "alice";
     "trend"%string := JStr "bullish" ]}.

End HubExample.

(** ** What the crash loop keeps true of its candles *)

Module CrashInvariant.
Import Candle CrashUnified.

(** The shape every candle keeps: the current group duration, an open
    between its extremes, an open and a maximum that are not negative, a
    maximum that is not above the game's peak. *)
Definition shaped (d : Z) (pk : float) (g : CandleGroup) : Prop :=
  DurationMs g = d ∧
  F64.gt (Open g) (Max g) = false ∧ F64.gt (Min g) (Open g) = false ∧
  F64.lt (Open g) 0 = false ∧ F64.lt (Max g) 0 = false ∧
  F64.gt (Max g) pk = false.

(** A completed candle of [groups]: its close is a cell of its own among
    the [ncells] allocated. *)
Definition frozen_ok (ncells : nat) (d : Z) (pk : float)
    (g : CandleGroup) : Prop :=
  IsComplete g = true ∧ ValueList g = [] ∧
  (∃ n, Close g = Some (Cell n) ∧ (n < ncells)%nat) ∧
  shaped d pk g.

(** The candle being built: its close is the loop's [price]. *)
Definition live_ok (d : Z) (pk : float) (cg : CandleGroup) : Prop :=
  IsComplete cg = false ∧ Close cg = Some PriceVar ∧ shaped d pk cg.

(** The candle has taken the price [p] in. *)
Definition holds_price (p : float) (cg : CandleGroup) : Prop :=
  last (ValueList cg) = Some p ∧
  F64.gt p (Max cg) = false ∧ F64.gt (Min cg) p = false.

(** The close of a candle, read through its pointer, lies between its
    extremes. *)
Definition close_within (v : vars) (g : CandleGroup) : Prop :=
  ∃ c, deref v (Close g) = Some c ∧
       F64.gt c (Max g) = false ∧ F64.gt (Min g) c = false.

Definition base (v : vars) : Prop :=
  0 <= tick v ∧ (length (groups v) < 30)%nat ∧
  Forall (frozen_ok (length (cells v)) (groupDuration v) (peak v))
         (groups v) ∧
  F64.gt (price v) (peak v) = false ∧ F64.lt (price v) 0 = false ∧
  F64.IsNaN (peak v) = false.

(** The state between two ticks. *)
Definition inv (v : vars) : Prop :=
  base v ∧
  match currentGroup v with
  | Some cg =>
      live_ok (groupDuration v) (peak v) cg ∧ holds_price (price v) cg
  | None => groups v = []
  end.

(** The state of a finished game. *)
Definition finished (v : vars) : Prop :=
  (length (groups v) <= 30)%nat ∧
  Forall (frozen_ok (length (cells v)) (groupDuration v) (peak v))
         (groups v) ∧
  (∀ g, last (groups v) = Some g → close_within v g).

End CrashInvariant.

(** * Properties *)

(** ** Facts about float64 comparisons *)

Section F64Facts.

Lemma SFcompare_antisym x y :
  SFcompare y x = option_map CompOpp (SFcompare x y).
Proof.
  destruct x as [sx|sx| |sx mx ex], y as [sy|sy| |sy my ey]; simpl;
    try reflexivity;
    try (destruct sx; reflexivity); try (destruct sy; reflexivity);
    try (destruct sx, sy; reflexivity).
  destruct sx, sy; simpl; try reflexivity;
    rewrite (Z.compare_antisym ex ey); destruct (ex ?= ey); simpl;
    try reflexivity;
    rewrite (Pos.compare_cont_antisym _ _ Eq); simpl; try reflexivity.
  rewrite CompOpp_involutive. reflexivity.
Qed.

Lemma SFcompare_refl x : x ≠ S754_nan → SFcompare x x = Some Eq.
Proof.
  destruct x as [s|s| |s m e]; simpl; try congruence; intros _.
  - destruct s; reflexivity.
  - destruct s; rewrite Z.compare_refl, Pos.compare_cont_refl; reflexivity.
Qed.

Lemma SFcompare_none x y :
  SFcompare x y = None ↔ x = S754_nan ∨ y = S754_nan.
Proof.
  destruct x as [sx|sx| |sx mx ex], y as [sy|sy| |sy my ey]; simpl;
    split; intros Hc; try tauto; try discriminate;
    try (destruct Hc; discriminate).
Qed.

Lemma ltb_irrefl x : PrimFloat.ltb x x = false.
Proof.
  rewrite ltb_spec. unfold SFltb.
  destruct (Prim2SF x) eqn:E; try reflexivity.
  all: rewrite SFcompare_refl; congruence.
Qed.

Lemma ltb_leb x y : PrimFloat.ltb x y = true → PrimFloat.leb x y = true.
Proof.
  rewrite ltb_spec, leb_spec. unfold SFltb, SFleb.
  destruct (SFcompare _ _) as [[]|]; congruence.
Qed.

Lemma IsNaN_spec x : F64.IsNaN x = false ↔ Prim2SF x ≠ S754_nan.
Proof.
  unfold F64.IsNaN. rewrite FloatAxioms.eqb_spec, negb_false_iff. unfold SFeqb. split.
  - intros Hn E. rewrite E in Hn. discriminate.
  - intros Hn. rewrite SFcompare_refl by assumption. reflexivity.
Qed.

(** On numbers, "not greater" is "less or equal". *)
Lemma not_gt_le x y :
  F64.IsNaN x = false → F64.IsNaN y = false →
  F64.gt x y = false → F64.le x y = true.
Proof.
  rewrite !IsNaN_spec. unfold F64.gt, F64.le.
  rewrite ltb_spec, leb_spec. unfold SFltb, SFleb. intros Hx Hy.
  rewrite (SFcompare_antisym (Prim2SF x) (Prim2SF y)).
  destruct (SFcompare (Prim2SF x) (Prim2SF y)) as [[]|] eqn:E; simpl;
    try congruence.
  apply SFcompare_none in E. tauto.
Qed.

Lemma gt_irrefl x : F64.gt x x = false.
Proof. apply ltb_irrefl. Qed.

Lemma not_ge_not_gt x y : F64.ge x y = false → F64.gt x y = false.
Proof.
  unfold F64.ge, F64.gt. intros Hge.
  destruct (PrimFloat.ltb y x) eqn:E; [|reflexivity].
  apply ltb_leb in E. congruence.
Qed.

End F64Facts.

(** ** Rules for loops *)

Section LoopRules.
Context `{Std} {S : Type}.
Variable cond : S → bool.
Variable body : S → M (flow S).

(** An invariant carried round the loop, and what holds for each way of
    leaving it. *)
Lemma for_loop_rule (Inv : S → Prop) (Q : stop → S → Prop) :
  (∀ s, Inv s → cond s = false → Q CondFalse s) →
  (∀ s, Inv s → cond s = true → Q NoFuel s) →
  (∀ s r, Inv s → cond s = true →
     match fst (body s r) with
     | Again s' => Inv s'
     | Break s' => Q Broke s'
     | Panic => Q Panicked s
     end) →
  ∀ n s r, Inv s →
    Q (fst (fst (for_loop cond body n s r)))
      (snd (fst (for_loop cond body n s r))).
Proof.
  intros Hfalse Hfuel Hbody n.
  induction n as [|n IH]; intros s r Hinv; simpl.
  - destruct (cond s) eqn:Hc; simpl; auto.
  - destruct (cond s) eqn:Hc; simpl; auto.
    unfold bind. specialize (Hbody s r Hinv Hc).
    destruct (body s r) as [f r']. simpl in Hbody.
    destruct f as [s'|s'|]; simpl; auto.
Qed.

(** A loop with a measure that is positive while the condition holds and
    that every round lowers does not run out of fuel when it is given at
    least the measure. *)
Lemma for_loop_fuel (mu : S → nat) :
  (∀ s, cond s = true → (0 < mu s)%nat) →
  (∀ s r s', cond s = true → fst (body s r) = Again s' →
     (mu s' < mu s)%nat) →
  ∀ n s r, (mu s <= n)%nat →
    fst (fst (for_loop cond body n s r)) ≠ NoFuel.
Proof.
  intros Hpos Hmu n.
  induction n as [|n IH]; intros s r Hn; simpl.
  - destruct (cond s) eqn:Hc; simpl; [|discriminate].
    specialize (Hpos s Hc). lia.
  - destruct (cond s) eqn:Hc; simpl; [|discriminate].
    unfold bind. specialize (Hmu s r).
    destruct (body s r) as [f r']. simpl in Hmu.
    destruct f as [s'|s'|]; simpl; try discriminate.
    apply IH. specialize (Hmu s' Hc eq_refl). lia.
Qed.
End LoopRules.

(** Unfolds the monad and splits on every draw and every test in the goal. *)
Ltac run_m :=
  repeat (unfold bind, ret, Float64 in *; simpl in *;
          match goal with
          | |- context [rand_Float64 ?r] =>
              let x := fresh "x" in let r' := fresh "r" in
              destruct (rand_Float64 r) as [x r']
          | |- context [if ?b then _ else _] => destruct b eqn:?
          end).

(** ** game/engine.go *)

Section EngineFacts.
Context `{Std}.
Import Engine.



End EngineFacts.

Section EngineRun.
Context `{Std}.
Import Engine.



End EngineRun.

(** ** The engine with its own peak sub-seed: how its loop ends *)

Section EnginePeakFacts.
Context `{Std}.
Import EnginePeak.

Lemma rug_check_fired_peak v r :
  fst (rug_check v r) = true ↔ fired_peak v r.
Proof.
  unfold rug_check, fired_peak, bind, ret, Float64.
  destruct (20 <? tick v) eqn:Ht; simpl.
  - destruct (rand_Float64 r) as [x r']; simpl. split; [|tauto].
    intros Hx; split; [lia|assumption].
  - split; [discriminate|lia].
Qed.

Lemma body_cases_peak pm v r :
  match fst (body pm v r) with
  | Break v' => fired_peak v r ∧ v' = v
  | Again v' => ¬ fired_peak v r ∧ tick v' = tick v + 1
  | Panic => False
  end.
Proof.
  pose proof (rug_check_fired_peak v r) as Hf.
  unfold body, bind in *.
  destruct (rug_check v r) as [rug r1]; simpl in Hf.
  destruct rug.
  - simpl. tauto.
  - assert (¬ fired_peak v r)
      by (intros Hx; apply Hf in Hx; discriminate).
    unfold draw_change. run_m; simpl; auto.
Qed.

Lemma run_peak_no_fuel_left serverSeed gameID :
  fst (run serverSeed gameID) ≠ NoFuel.
Proof.
  unfold run, run_upto, eval.
  apply (for_loop_fuel cond _ (λ v, Z.to_nat (TickLimit - tick v))).
  - intros v Hc. unfold cond in Hc. apply Z.ltb_lt in Hc. lia.
  - intros v r v' Hc Hb. pose proof (body_cases_peak
      (GeneratePeakMultiplier serverSeed gameID) v r) as Hcases.
    rewrite Hb in Hcases. unfold cond in Hc. apply Z.ltb_lt in Hc. lia.
  - simpl. lia.
Qed.

Lemma run_peak_exit serverSeed gameID :
  match fst (run serverSeed gameID) with
  | CondFalse => tick (snd (run serverSeed gameID)) = TickLimit
  | Broke => 20 < tick (snd (run serverSeed gameID)) < TickLimit
  | Panicked => False
  | NoFuel => True
  end.
Proof.
  unfold run, run_upto, eval.
  apply (for_loop_rule cond _
           (λ v, 0 <= tick v <= TickLimit)
           (λ st v, match st with
                    | CondFalse => tick v = TickLimit
                    | Broke => 20 < tick v < TickLimit
                    | Panicked => False
                    | NoFuel => True
                    end)).
  - intros v Ht Hc. unfold cond in Hc. apply Z.ltb_ge in Hc. lia.
  - trivial.
  - intros v r Ht Hc. unfold cond in Hc. apply Z.ltb_lt in Hc.
    pose proof (body_cases_peak
      (GeneratePeakMultiplier serverSeed gameID) v r) as Hcases.
    destruct (fst (body _ v r)) as [v'|v'|].
    + lia.
    + destruct Hcases as ((Hw & _) & ->). lia.
    + assumption.
  - simpl. unfold TickLimit. lia.
Qed.

End EnginePeakFacts.

(** ** The engine with a target peak: the cap *)

Section EngineTargetFacts.
Context `{Std}.
Import EngineTarget.

Lemma growth_body_capped tp v r :
  0 <= tick v →
  match fst (growth_body tp v r) with
  | Again v' => capped tp v'
  | _ => False
  end.
Proof.
  intros Ht. unfold growth_body, bind.
  destruct (growth_change (price v) r) as [change r1]. simpl.
  destruct (F64.ge _ tp) eqn:Hge; simpl.
  - split; simpl; [lia|]. right. split; [lia|]. apply gt_irrefl.
  - split; simpl; [lia|]. right. split; [lia|].
    apply not_ge_not_gt. assumption.
Qed.

Lemma decline_body_capped tp v r :
  capped tp v →
  match fst (decline_body tp v r) with
  | Again v' => capped tp v'
  | Break v' => capped tp v'
  | Panic => False
  end.
Proof.
  intros [Ht Hv]. unfold decline_body, bind, ret, Float64.
  destruct (rand_Float64 r) as [x r1].
  destruct (F64.lt x RugProb); simpl.
  - split; assumption.
  - destruct (decline_change (price v) r1) as [change r2]. simpl.
    split; simpl; [lia|]. right. split; [lia|].
    match goal with
    | |- F64.gt (if F64.gt ?p tp then _ else _) tp = false =>
        destruct (F64.gt p tp) eqn:Hgt; [apply gt_irrefl|exact Hgt]
    end.
Qed.

Lemma simulate_capped n1 n2 r :
  capped (fst (fst (eval (simulate_upto n1 n2) r)))
         (snd (eval (simulate_upto n1 n2) r)).
Proof.
  unfold eval, simulate_upto, bind.
  destruct (determineTargetPeak r) as [tp r0].
  assert (Hinit : capped tp (init tp)).
  { split; simpl; [lia|]. left. split; reflexivity. }
  set (p1 := (if negb (peakReached (init tp))
              then for_loop growth_cond (growth_body tp) n1 (init tp)
              else ret (CondFalse, init tp)) r0).
  assert (Hp1 : capped tp (snd (fst p1))).
  { subst p1. destruct (negb (peakReached (init tp))); [|exact Hinit].
    apply (for_loop_rule growth_cond (growth_body tp) (capped tp)
             (λ _ v, capped tp v)); auto.
    intros v r' Hv _. pose proof (growth_body_capped tp v r' (proj1 Hv)).
    destruct (fst (growth_body tp v r')); tauto. }
  destruct p1 as [[st1 v1] r1]. simpl in Hp1.
  pose proof (for_loop_rule decline_cond (decline_body tp) (capped tp)
                (λ _ v, capped tp v)) as Hrule.
  specialize (Hrule (λ _ H _, H) (λ _ H _, H)).
  assert (Hstep : ∀ s r', capped tp s → decline_cond s = true →
            match fst (decline_body tp s r') with
            | Again s' => capped tp s'
            | Break s' => capped tp s'
            | Panic => capped tp s
            end).
  { intros s r' Hs _. pose proof (decline_body_capped tp s r' Hs).
    destruct (fst (decline_body tp s r')); tauto. }
  specialize (Hrule Hstep n2 v1 r1 Hp1). simpl.
  destruct (for_loop decline_cond (decline_body tp) n2 v1 r1)
    as [[st2 v2] r2]. simpl in *. exact Hrule.
Qed.

End EngineTargetFacts.

(** ** Determinism *)

Section Determinism.
Context `{Std}.

Lemma same_draws_step r r' :
  same_draws r r' →
  fst (rand_Float64 r) = fst (rand_Float64 r') ∧
  same_draws (snd (rand_Float64 r)) (snd (rand_Float64 r')).
Proof.
  intros Hd. split.
  - specialize (Hd 1%nat). simpl in Hd.
    destruct (rand_Float64 r), (rand_Float64 r'). simpl. congruence.
  - intros n. specialize (Hd (S n)). simpl in Hd.
    destruct (rand_Float64 r), (rand_Float64 r'). simpl. congruence.
Qed.

Lemma respects_ret {A} (a : A) : respects (ret a).
Proof. intros r r' Hd. split; [reflexivity|exact Hd]. Qed.

Lemma respects_Float64 : respects Float64.
Proof. intros r r' Hd. apply same_draws_step. exact Hd. Qed.

Lemma respects_bind {A B} (m : M A) (k : A → M B) :
  respects m → (∀ a, respects (k a)) → respects (bind m k).
Proof.
  intros Hm Hk r r' Hd. unfold bind.
  destruct (Hm r r' Hd) as [Ha Hr].
  destruct (m r) as [a r1], (m r') as [a' r1']. simpl in Ha, Hr.
  subst a'. apply Hk. exact Hr.
Qed.

Lemma respects_for_loop {S} (cond : S → bool) (body : S → M (flow S)) :
  (∀ s, respects (body s)) → ∀ n s, respects (for_loop cond body n s).
Proof.
  intros Hbody n. induction n as [|n IH]; intros s; simpl;
    destruct (cond s); try apply respects_ret.
  apply respects_bind; [apply Hbody|].
  intros [s'|s'|]; [apply IH|apply respects_ret|apply respects_ret].
Qed.

Ltac respect :=
  cbv zeta;
  repeat first
    [ apply respects_ret
    | apply respects_Float64
    | apply respects_for_loop; intros ?
    | apply respects_bind; [|intros ?]
    | match goal with
      | |- respects (if ?b then _ else _) => destruct b
      end ].

Lemma respects_engine (v : Engine.vars) : respects (Engine.body v).
Proof.
  unfold Engine.body, Engine.rug_check, Engine.draw_change. respect.
Qed.

Lemma respects_engine_peak pm (v : EnginePeak.vars) :
  respects (EnginePeak.body pm v).
Proof.
  unfold EnginePeak.body, EnginePeak.rug_check, EnginePeak.draw_change.
  respect.
Qed.

Lemma respects_engine_target n1 n2 :
  respects (EngineTarget.simulate_upto n1 n2).
Proof.
  unfold EngineTarget.simulate_upto, EngineTarget.determineTargetPeak,
    EngineTarget.growth_body, EngineTarget.growth_change,
    EngineTarget.decline_body, EngineTarget.decline_change.
  respect.
Qed.

Lemma append_assoc (a b c : string) :
  (a ++ (b ++ c))%string = ((a ++ b) ++ c)%string.
Proof.
  induction a as [|x a IH]; [reflexivity|].
  change (String x (a ++ (b ++ c)) = String x ((a ++ b) ++ c))%string.
  rewrite IH. reflexivity.
Qed.

Lemma peak_material (S G S' G' : string) :
  (S ++ "-" ++ G)%string = (S' ++ "-" ++ G')%string →
  (S ++ "-" ++ G ++ "-peak")%string = (S' ++ "-" ++ G' ++ "-peak")%string.
Proof.
  intros Heq.
  rewrite (append_assoc "-" G), (append_assoc S), Heq.
  rewrite <- (append_assoc S'), <- (append_assoc "-" G'). reflexivity.
Qed.

End Determinism.

(** C1. Two runs of the crash simulation on the same server seed and game
    id give the same peak, final price, tick count and rugged flag, in each
    version of the engine; more generally the outputs depend on the pair
    only through the seed material [serverSeed + "-" + gameID], two
    generators seeded from the same string give the same draws, however many
    are taken, and each simulation depends on its generator through the
    draws alone: there is no other state. *)
Theorem calculate_game_deterministic `{Std} (S G S' G' : string) :
  (S ++ "-" ++ G)%string = (S' ++ "-" ++ G')%string →
  (∀ n, draws n (Prng.NewSeededRNG (S ++ "-" ++ G))
        = draws n (Prng.NewSeededRNG (S' ++ "-" ++ G'))) ∧
  (EnginePeak.PeakMultiplier (EnginePeak.CalculateGame S G)
     = EnginePeak.PeakMultiplier (EnginePeak.CalculateGame S' G') ∧
   EnginePeak.FinalPrice (EnginePeak.CalculateGame S G)
     = EnginePeak.FinalPrice (EnginePeak.CalculateGame S' G') ∧
   EnginePeak.TotalTicks (EnginePeak.CalculateGame S G)
     = EnginePeak.TotalTicks (EnginePeak.CalculateGame S' G') ∧
   fst (EnginePeak.run S G) = fst (EnginePeak.run S' G')) ∧
  Engine.CalculateGame S G = Engine.CalculateGame S' G' ∧
  EngineTarget.CalculateGame S G = EngineTarget.CalculateGame S' G' ∧
  (∀ pm n, respects (for_loop EnginePeak.cond (EnginePeak.body pm) n
                              EnginePeak.init)) ∧
  (∀ n, respects (for_loop Engine.cond Engine.body n Engine.init)) ∧
  (∀ n1 n2, respects (EngineTarget.simulate_upto n1 n2)).
Proof.
  intros Heq. pose proof (peak_material S G S' G' Heq) as Hpeak.
  split; [|split; [|split; [|split; [|split; [|split]]]]];
    [| | | |intros pm n; apply respects_for_loop, respects_engine_peak
     |intros n; apply respects_for_loop, respects_engine
     |apply respects_engine_target].
  - intros n. rewrite Heq. reflexivity.
  - unfold EnginePeak.CalculateGame, EnginePeak.run, EnginePeak.run_upto,
      EnginePeak.GeneratePeakMultiplier.
    cbn [EnginePeak.PeakMultiplier EnginePeak.FinalPrice
         EnginePeak.TotalTicks].
    rewrite Heq, Hpeak. repeat split; reflexivity.
  - unfold Engine.CalculateGame, Engine.run. rewrite Heq. reflexivity.
  - unfold EngineTarget.CalculateGame, EngineTarget.run,
      EngineTarget.run_upto. rewrite Heq. reflexivity.
Qed.

Lemma calculate_game_deterministic_witness :
  @Engine.CalculateGame Examples.rising_lib "a-b" "c"
  = @Engine.CalculateGame Examples.rising_lib "a" "b-c".
Proof.
  apply (@calculate_game_deterministic Examples.rising_lib "a-b" "c" "a" "b-c").
  reflexivity.
Defined.

(** C2, as the code has it. In the engine that draws a target peak up
    front, after any number of iterations of the growth loop and of the
    decline loop the price does not exceed the target peak once a tick has
    been played (and from the start, when the starting price does not exceed
    the peak); whenever price and peak are numbers this is
    [price <= targetPeak]. *)
Theorem target_peak_caps_price `{Std} (S G : string) (n1 n2 : nat) :
  let '(targetPeak, _, v) := EngineTarget.run_upto n1 n2 S G in
  (0 < EngineTarget.tick v →
     F64.gt (EngineTarget.price v) targetPeak = false) ∧
  (F64.gt EngineTarget.StartingPrice targetPeak = false →
     F64.gt (EngineTarget.price v) targetPeak = false) ∧
  (F64.gt (EngineTarget.price v) targetPeak = false →
   F64.IsNaN (EngineTarget.price v) = false →
   F64.IsNaN targetPeak = false →
     F64.le (EngineTarget.price v) targetPeak = true).
Proof.
  unfold EngineTarget.run_upto.
  pose proof (simulate_capped n1 n2
                (Prng.NewSeededRNG (S ++ "-" ++ G))) as Hc.
  destruct (eval (EngineTarget.simulate_upto n1 n2) _) as [[tp st] v].
  simpl in Hc. destruct Hc as [Ht Hv]. split; [|split].
  - intros Hpos. destruct Hv as [[H0 _]|[_ Hgt]]; [lia|assumption].
  - intros Hstart. destruct Hv as [[_ Hp]|[_ Hgt]]; [|assumption].
    rewrite Hp. assumption.
  - intros Hgt Hn1 Hn2. apply not_gt_le; assumption.
Qed.

Lemma target_peak_caps_price_witness :
  F64.le (EngineTarget.FinalPrice
            (@EngineTarget.CalculateGame Examples.rising_lib "s" "g"))
         (EngineTarget.PeakMultiplier
            (@EngineTarget.CalculateGame Examples.rising_lib "s" "g")) = true.
Proof.
  pose proof (@target_peak_caps_price Examples.rising_lib "s" "g"
                (Z.to_nat EngineTarget.MaxTicks)
                (Z.to_nat EngineTarget.MaxTicks)) as Hcap.
  unfold EngineTarget.CalculateGame, EngineTarget.run.
  destruct (EngineTarget.run_upto _ _ "s" "g") as [[tp st] v] eqn:Hrun.
  simpl. destruct Hcap as (Hpos & _ & Hle).
  assert (Htick : EngineTarget.tick v = 1).
  { vm_compute in Hrun. injection Hrun as _ _ <-. reflexivity. }
  apply Hle.
  - apply Hpos. lia.
  - vm_compute in Hrun. injection Hrun as _ _ <-. reflexivity.
  - vm_compute in Hrun. injection Hrun as <- _ _. reflexivity.
Defined.

(** C2, as stated, fails in the engine with the peak sub-seed: there the
    game ("s", "g") played on the rising script ends at 5.03 after 21 ticks
    while its predetermined peak is 1. *)
Lemma peak_is_not_a_cap :
  let res := @EnginePeak.CalculateGame Examples.rising_lib "s" "g" in
  EnginePeak.TotalTicks res = 21 ∧
  EnginePeak.PeakMultiplier res = 1%float ∧
  F64.gt (EnginePeak.FinalPrice res) (EnginePeak.PeakMultiplier res) = true.
Proof. vm_compute. repeat split; reflexivity. Qed.


(** ** The peak and its verifier *)

Section PeakFacts.
Context `{Std}.
Import EnginePeak.

(** The peak the simulation reports is [GeneratePeakMultiplier]'s, which
    reads one draw of the generator seeded with the "-peak" material; the
    loop's generator, seeded with the plain material, plays no part,
    however many iterations [n] the loop makes. *)
Lemma peak_from_sub_seed_only (S G : string) (n : nat) :
  PeakMultiplier (CalculateGame S G) = GeneratePeakMultiplier S G ∧
  GeneratePeakMultiplier S G
  = peak_of (fst (rand_Float64
                    (Prng.NewSeededRNG (S ++ "-" ++ G ++ "-peak")))) ∧
  fst (run_upto n S G)
  = fst (eval (for_loop cond (body (GeneratePeakMultiplier S G)) n init)
              (Prng.NewSeededRNG (S ++ "-" ++ G))).
Proof.
  split; [reflexivity|]. split; [|reflexivity].
  unfold GeneratePeakMultiplier, eval, bind, ret, Float64.
  destruct (rand_Float64 _) as [x r]. reflexivity.
Qed.

(** In the engine that draws its target peak from the main stream, the
    verifier of game/verify.go does give the simulation's peak. *)
Lemma target_verifier_agrees (S G : string) :
  EngineTarget.VerifyGamePeak S G
  = EngineTarget.PeakMultiplier (EngineTarget.CalculateGame S G).
Proof.
  unfold EngineTarget.CalculateGame, EngineTarget.run,
    EngineTarget.run_upto, EngineTarget.VerifyGamePeak, eval,
    EngineTarget.simulate_upto, bind.
  generalize (Prng.NewSeededRNG (S ++ "-" ++ G)). intros r.
  destruct (EngineTarget.determineTargetPeak r) as [tp r0].
  match goal with |- context [?m r0] =>
    match m with (if _ then _ else _) => destruct (m r0) as [p1 r1] end
  end.
  match goal with |- context [for_loop ?c ?b ?n ?v r1] =>
    destruct (for_loop c b n v r1) as [[st v2] r2]
  end.
  reflexivity.
Qed.

End PeakFacts.

(** C3 at a failing input. For the game ("s", "g") under a generator whose
    "-peak" stream starts with 0 and whose main stream starts with 0.5, 0,
    the simulation's predetermined peak is 1.0 while game/verify.go's
    [VerifyGamePeak] answers 1.5: the verifier draws from the main stream
    through [determineTargetPeak], not from the sub-seed. *)
Theorem verifier_peak_differs :
  EnginePeak.PeakMultiplier
    (@EnginePeak.CalculateGame Examples.rising_lib "s" "g") = 1.0%float ∧
  @EnginePeak.GeneratePeakMultiplier Examples.rising_lib "s" "g" = 1.0%float ∧
  @EnginePeak.VerifyGamePeak Examples.rising_lib "s" "g" = 1.5%float ∧
  PrimFloat.eqb
    (@EnginePeak.VerifyGamePeak Examples.rising_lib "s" "g")
    (EnginePeak.PeakMultiplier
       (@EnginePeak.CalculateGame Examples.rising_lib "s" "g")) = false.
Proof. vm_compute. repeat split; reflexivity. Qed.

(** ** Candleflip *)

Section CandleflipFacts.
Context `{Std}.
Import Candleflip Mirror.

Lemma opp_involutive x : (- - x)%float = x.
Proof.
  apply Prim2SF_inj. rewrite !opp_spec.
  destruct (Prim2SF x) as [s|s| |s m e]; simpl; try reflexivity;
    rewrite negb_involutive; reflexivity.
Qed.

(** Mirrored ticks move by opposite percentages. *)
Lemma percentChange_mirrored r r' :
  mirrored_tick r r' →
  fst (percentChange r') = (- fst (percentChange r))%float.
Proof.
  unfold mirrored_tick, percentChange, opposite_sides, bind, ret, Float64.
  destruct (rand_Float64 r) as [chance r1].
  destruct (rand_Float64 r') as [chance' r1'].
  intros [<- Hrest].
  destruct (F64.lt chance CandleflipBigMoveChance).
  - destruct (rand_Float64 r1) as [d r2].
    destruct (rand_Float64 r1') as [d' r2']. simpl in *.
    rewrite Hrest. destruct (F64.lt d' 0.5); reflexivity.
  - destruct (rand_Float64 r1) as [m r2].
    destruct (rand_Float64 r1') as [m' r2'].
    destruct Hrest as [<- Hd].
    destruct (rand_Float64 r2) as [d r3].
    destruct (rand_Float64 r2') as [d' r3']. simpl in *.
    rewrite Hd. destruct (F64.lt d' 0.5); simpl;
      [reflexivity|symmetry; apply opp_involutive].
Qed.

Lemma winner_name_inj w w' : winner_name w = winner_name w' → w = w'.
Proof. destruct w, w'; simpl; congruence. Qed.

End CandleflipFacts.

(** C4, as the code has it. In both the big-move and the small-move case a
    tick goes down exactly when its direction draw is below 0.5, so two
    ticks that differ only in the side of that draw move the price by
    opposite percentages; and the winner is RED exactly when the price after
    the 40 ticks is below 1.0, GREEN otherwise, which for a price that is a
    number means [finalPrice >= 1.0]. *)
Theorem candleflip_tick_symmetry_and_winner `{Std} (S : string) :
  let final :=
    Candleflip.final_price (Prng.NewSeededRNG (S ++ "-candleflip")) in
  (∀ r r', Mirror.mirrored_tick r r' →
     fst (Candleflip.percentChange r')
     = (- fst (Candleflip.percentChange r))%float) ∧
  (∀ p r, fst (Candleflip.GenerateCandleflipPrice p r)
          = let q := (p * (1 + fst (Candleflip.percentChange r)))%float in
            if F64.lt q 0 then 0%float else q) ∧
  (Candleflip.VerifyCandleflip S = "RED"%string
     ↔ F64.lt final 1.0 = true) ∧
  (Candleflip.VerifyCandleflip S = "GREEN"%string
     ↔ F64.lt final 1.0 = false) ∧
  (F64.IsNaN final = false →
     (Candleflip.VerifyCandleflip S = "GREEN"%string
        ↔ F64.ge final 1.0 = true)).
Proof.
  intros final. unfold Candleflip.VerifyCandleflip. fold final.
  unfold Candleflip.winner_of. split; [|split]; [| |split; [|split]].
  - apply percentChange_mirrored.
  - intros p r. unfold Candleflip.GenerateCandleflipPrice, bind, ret.
    destruct (Candleflip.percentChange r) as [pc r1]. reflexivity.
  - destruct (F64.lt final 1.0); simpl; split; congruence.
  - destruct (F64.lt final 1.0); simpl; split; congruence.
  - intros Hnan. destruct (F64.lt final 1.0) eqn:Hlt; simpl.
    + split; [discriminate|]. intros Hge.
      unfold F64.lt, F64.ge in *.
      rewrite ltb_spec in Hlt. rewrite leb_spec in Hge.
      unfold SFltb, SFleb in *.
      rewrite (SFcompare_antisym (Prim2SF final) (Prim2SF 1.0)) in Hge.
      destruct (SFcompare (Prim2SF final) (Prim2SF 1.0)) as [[]|];
        simpl in *; congruence.
    + split; [|reflexivity]. intros _.
      apply (not_gt_le 1.0 final); [reflexivity|assumption|exact Hlt].
Qed.

Lemma candleflip_tick_symmetry_and_winner_witness :
  @Candleflip.VerifyCandleflip Examples.rising_lib "s" = "RED"%string.
Proof.
  apply (@candleflip_tick_symmetry_and_winner Examples.rising_lib "s").
  vm_compute. reflexivity.
Defined.

(** C4, as stated, fails: the game is not symmetric under exchanging up and
    down.  The script of forty 3% moves, alternately down and up, and its
    mirror image, alternately up and down, both end near 0.982, so RED wins
    both. *)
Lemma candleflip_mirror_not_opposite :
  Mirror.winner_on Mirror.balanced = Candleflip.RED ∧
  Mirror.winner_on (Mirror.mirror Mirror.balanced) = Candleflip.RED ∧
  Mirror.winner_on (Mirror.mirror Mirror.balanced)
  ≠ Mirror.opposite (Mirror.winner_on Mirror.balanced).
Proof. vm_compute. repeat split; congruence. Qed.

(** ** [math.Max] and [math.Min] are associative *)

Section Chain.
Import F64Order.

Lemma lex3_spec a b : CompareSpec (a = b) (lt3 a b) (lt3 b a) (lex3 a b).
Proof.
  destruct a as [[a1 a2] a3], b as [[b1 b2] b3]. unfold lex3, lt3.
  destruct (Z.compare_spec a1 b1); [|constructor; lia|constructor; lia].
  destruct (Z.compare_spec a2 b2); [|constructor; lia|constructor; lia].
  destruct (Z.compare_spec a3 b3); constructor; try lia. congruence.
Qed.

Context {A : Type} (key : A → Z * Z * Z).
Hypothesis key_inj : ∀ a b, key a = key b → a = b.

Ltac chain :=
  repeat (cbv beta iota;
          match goal with
          | |- context [lex3 (key ?a) (key ?b)] =>
              is_var a; is_var b; destruct (lex3_spec (key a) (key b))
          end);
  cbv beta iota;
  repeat match goal with
         | H : key _ = key _ |- _ => apply key_inj in H; subst
         end;
  try reflexivity;
  exfalso;
  repeat match goal with
         | H : context [key ?a] |- _ =>
             let k1 := fresh "k" in let k2 := fresh "k" in
             let k3 := fresh "k" in
             destruct (key a) as [[k1 k2] k3]
         end;
  cbv beta iota zeta delta [lt3] in *; lia.

Lemma upper_assoc a b c :
  upper key (upper key a b) c = upper key a (upper key b c).
Proof using key_inj. unfold upper. chain. Qed.

Lemma lower_assoc a b c :
  lower key (lower key a b) c = lower key a (lower key b c).
Proof using key_inj. unfold lower. chain. Qed.
End Chain.

Section MaxMin.
Import F64Order.

Lemma keyMax_inj x y : keyMax (Prim2SF x) = keyMax (Prim2SF y) → x = y.
Proof.
  intros Hk. apply Prim2SF_inj.
  destruct (Prim2SF x) as [[]|[]| |[] m e],
           (Prim2SF y) as [[]|[]| |[] m' e'];
    simpl in Hk; try discriminate; try reflexivity;
    injection Hk as He Hm; f_equal; lia.
Qed.

Lemma keyMin_inj x y : keyMin (Prim2SF x) = keyMin (Prim2SF y) → x = y.
Proof.
  intros Hk. apply Prim2SF_inj.
  destruct (Prim2SF x) as [[]|[]| |[] m e],
           (Prim2SF y) as [[]|[]| |[] m' e'];
    simpl in Hk; try discriminate; try reflexivity;
    injection Hk as He Hm; f_equal; lia.
Qed.

Lemma Prim2SF_infinity : Prim2SF infinity = S754_infinity false.
Proof. reflexivity. Qed.

Lemma Prim2SF_neg_infinity : Prim2SF neg_infinity = S754_infinity true.
Proof. reflexivity. Qed.

Lemma Prim2SF_nan : Prim2SF nan = S754_nan.
Proof. reflexivity. Qed.

Lemma Prim2SF_zero : Prim2SF 0%float = S754_zero false.
Proof. reflexivity. Qed.

Lemma SFeqb_refl a :
  SFeqb a a = match a with S754_nan => false | _ => true end.
Proof.
  unfold SFeqb. destruct a as [s|[]| |s m e]; try reflexivity.
  rewrite SFcompare_refl by discriminate. reflexivity.
Qed.

Ltac float_cases x y :=
  let sx := fresh "sx" in let mx := fresh "mx" in let ex := fresh "ex" in
  let sy := fresh "sy" in let my := fresh "my" in let ey := fresh "ey" in
  let Ex := fresh "Ex" in let Ey := fresh "Ey" in
  destruct (Prim2SF x) as [sx|sx| |sx mx ex] eqn:Ex,
           (Prim2SF y) as [sy|sy| |sy my ey] eqn:Ey;
  try destruct sx; try destruct sy; cbn;
  try reflexivity;
  try (apply Prim2SF_inj;
       rewrite ?Prim2SF_infinity, ?Prim2SF_neg_infinity, ?Prim2SF_nan;
       congruence);
  unfold SFltb, SFeqb; cbn;
  change (PosDef.Pos.compare_cont Eq) with Pos.compare;
  repeat match goal with
         | |- context [(?a ?= ?b)%Z] => destruct (Z.compare_spec a b)
         | |- context [(?a ?= ?b)%positive] =>
             destruct (Pos.compare_spec a b)
         end;
  cbn; try reflexivity; try (exfalso; lia);
  try (subst; apply Prim2SF_inj; congruence).

Lemma Max_upper x y : F64.Max x y = upper (λ z, keyMax (Prim2SF z)) x y.
Proof.
  unfold F64.Max, upper, F64.IsPosInf, F64.IsNaN, F64.gt, F64.Signbit.
  rewrite !FloatAxioms.eqb_spec, ltb_spec, !SFeqb_refl.
  rewrite Prim2SF_infinity, Prim2SF_zero.
  float_cases x y.
Qed.

Lemma Min_lower x y : F64.Min x y = lower (λ z, keyMin (Prim2SF z)) x y.
Proof.
  unfold F64.Min, lower, F64.IsNegInf, F64.IsNaN, F64.lt, F64.Signbit.
  rewrite !FloatAxioms.eqb_spec, ltb_spec, !SFeqb_refl.
  rewrite Prim2SF_neg_infinity, Prim2SF_zero.
  float_cases x y.
Qed.

Lemma Max_assoc x y z :
  F64.Max (F64.Max x y) z = F64.Max x (F64.Max y z).
Proof. rewrite !Max_upper. apply upper_assoc. apply keyMax_inj. Qed.

Lemma Min_assoc x y z :
  F64.Min (F64.Min x y) z = F64.Min x (F64.Min y z).
Proof. rewrite !Min_lower. apply lower_assoc. apply keyMin_inj. Qed.

End MaxMin.

(** ** ws/server.go: merging *)

Section MergeFacts.
Import Candle Server.

Lemma pair_ind (P : list CandleGroup → Prop) :
  P [] → (∀ g, P [g]) →
  (∀ g1 g2 rest, P rest → P (g1 :: g2 :: rest)) →
  ∀ l, P l.
Proof.
  intros H0 H1 H2 l.
  assert (Hboth : P l ∧ ∀ g, P (g :: l)).
  { induction l as [|g l [IH1 IH2]]; split; auto. }
  apply Hboth.
Qed.

Lemma lastGroupCopy_id g : lastGroupCopy g = g.
Proof. destruct g. reflexivity. Qed.

Lemma merge_from_pairs groups fuel i newGroups :
  (length (drop i groups) <= 2 * fuel)%nat →
  merge_from fuel groups i newGroups
  = newGroups ++ pairs_only (drop i groups).
Proof.
  revert i newGroups.
  induction fuel as [|fuel IH]; intros i newGroups Hfuel.
  - destruct (drop i groups); [|simpl in Hfuel; lia].
    simpl. rewrite app_nil_r. reflexivity.
  - simpl.
    destruct (drop i groups) as [|g1 [|g2 rest]] eqn:Hdrop.
    + assert (length groups <= i)%nat.
      { apply (f_equal length) in Hdrop. rewrite length_drop in Hdrop.
        simpl in Hdrop. lia. }
      destruct (Z.ltb_spec (Z.of_nat i) (Z.of_nat (length groups) - 1));
        [lia|]. simpl. rewrite app_nil_r. reflexivity.
    + assert (length groups = S i).
      { apply (f_equal length) in Hdrop. rewrite length_drop in Hdrop.
        simpl in Hdrop. lia. }
      destruct (Z.ltb_spec (Z.of_nat i) (Z.of_nat (length groups) - 1));
        [lia|]. simpl. rewrite app_nil_r. reflexivity.
    + assert (Hlen : (i + 2 <= length groups)%nat).
      { apply (f_equal length) in Hdrop. rewrite length_drop in Hdrop.
        simpl in Hdrop. lia. }
      destruct (Z.ltb_spec (Z.of_nat i) (Z.of_nat (length groups) - 1));
        [|lia].
      assert (H1 : groups !! i = Some g1).
      { rewrite <- (Nat.add_0_r i), <- lookup_drop, Hdrop. reflexivity. }
      assert (H2 : groups !! (i + 1)%nat = Some g2).
      { rewrite <- lookup_drop, Hdrop. reflexivity. }
      assert (Hrest : drop (i + 2) groups = rest).
      { rewrite <- drop_drop, Hdrop. reflexivity. }
      rewrite H1, H2, IH.
      * rewrite Hrest, <- app_assoc. reflexivity.
      * rewrite Hrest. simpl in Hfuel. lia.
Qed.

Lemma merge_pairs_split groups :
  merge_pairs groups
  = pairs_only groups
    ++ (if Z.of_nat (length groups) mod 2 =? 1 then
          match last groups with
          | Some g => [lastGroupCopy g]
          | None => []
          end
        else []).
Proof.
  induction groups as [| g | g1 g2 rest IH] using pair_ind.
  - reflexivity.
  - reflexivity.
  - simpl merge_pairs. simpl pairs_only. rewrite IH.
    replace (Z.of_nat (length (g1 :: g2 :: rest)) mod 2)
      with (Z.of_nat (length rest) mod 2).
    + destruct rest as [|g3 rest']; [reflexivity|].
      rewrite !last_cons. destruct (last rest'); reflexivity.
    + simpl length. rewrite !Nat2Z.inj_succ.
      replace (Z.succ (Z.succ (Z.of_nat (length rest))))
        with (Z.of_nat (length rest) + 1 * 2) by lia.
      rewrite Z.mod_add by lia. reflexivity.
Qed.

Lemma mergeGroups_pairs groups currentDuration :
  mergeGroups groups currentDuration
  = (merge_pairs groups, Int64.mul currentDuration 2).
Proof.
  unfold mergeGroups. rewrite merge_from_pairs by (rewrite drop_0; lia).
  rewrite drop_0, merge_pairs_split. simpl.
  destruct (Z.of_nat (length groups) mod 2 =? 1).
  - destruct (last groups); [reflexivity|]. rewrite app_nil_r. reflexivity.
  - rewrite app_nil_r. reflexivity.
Qed.

Lemma foldMax_merge_pairs groups acc :
  foldMax acc (merge_pairs groups) = foldMax acc groups.
Proof.
  revert acc.
  induction groups as [| g | g1 g2 rest IH] using pair_ind; intros acc.
  - reflexivity.
  - reflexivity.
  - simpl. fold (foldMax (F64.Max acc (F64.Max (Max g1) (Max g2)))
                   (merge_pairs rest)).
    rewrite IH, Max_assoc. reflexivity.
Qed.

Lemma foldMin_merge_pairs groups acc :
  foldMin acc (merge_pairs groups) = foldMin acc groups.
Proof.
  revert acc.
  induction groups as [| g | g1 g2 rest IH] using pair_ind; intros acc.
  - reflexivity.
  - reflexivity.
  - simpl. fold (foldMin (F64.Min acc (F64.Min (Min g1) (Min g2)))
                   (merge_pairs rest)).
    rewrite IH, Min_assoc. reflexivity.
Qed.

Lemma globalMax_merge_pairs groups :
  globalMax (merge_pairs groups) = globalMax groups.
Proof.
  destruct groups as [|g1 [|g2 rest]]; try reflexivity.
  simpl. f_equal. apply (foldMax_merge_pairs rest).
Qed.

Lemma globalMin_merge_pairs groups :
  globalMin (merge_pairs groups) = globalMin groups.
Proof.
  destruct groups as [|g1 [|g2 rest]]; try reflexivity.
  simpl. f_equal. apply (foldMin_merge_pairs rest).
Qed.

Lemma merge_pairs_lookup groups i g1 g2 :
  groups !! (2 * i)%nat = Some g1 →
  groups !! (2 * i + 1)%nat = Some g2 →
  merge_pairs groups !! i = Some (merged g1 g2).
Proof.
  revert i.
  induction groups as [| g | a b rest IH] using pair_ind; intros i H1 H2.
  - discriminate.
  - destruct i; simpl in *; discriminate.
  - destruct i as [|i].
    + simpl in *. congruence.
    + replace (2 * S i)%nat with (S (S (2 * i))) in H1 by lia.
      replace (2 * S i + 1)%nat with (S (S (2 * i + 1))) in H2 by lia.
      simpl in *. apply IH; assumption.
Qed.

Lemma merge_pairs_last_odd groups g :
  Z.of_nat (length groups) mod 2 = 1 →
  last groups = Some g →
  last (merge_pairs groups) = Some g.
Proof.
  induction groups as [| g0 | a b rest IH] using pair_ind; intros Hodd Hl.
  - discriminate.
  - simpl in *. rewrite lastGroupCopy_id. assumption.
  - assert (Hrest : Z.of_nat (length rest) mod 2 = 1).
    { simpl length in Hodd. rewrite !Nat2Z.inj_succ in Hodd.
      replace (Z.succ (Z.succ (Z.of_nat (length rest))))
        with (Z.of_nat (length rest) + 1 * 2) in Hodd by lia.
      rewrite Z.mod_add in Hodd by lia. assumption. }
    destruct rest as [|c rest']; [discriminate|].
    rewrite !last_cons in Hl.
    assert (Hl' : last (c :: rest') = Some g).
    { rewrite last_cons. destruct (last rest'); assumption. }
    specialize (IH Hrest Hl'). simpl merge_pairs.
    rewrite last_cons. simpl merge_pairs in IH. rewrite IH. reflexivity.
Qed.

Lemma merge_pairs_length groups :
  Z.of_nat (length (merge_pairs groups))
  = (Z.of_nat (length groups) + 1) / 2.
Proof.
  induction groups as [| g | a b rest IH] using pair_ind.
  - reflexivity.
  - reflexivity.
  - simpl length. rewrite !Nat2Z.inj_succ, IH.
    replace (Z.succ (Z.succ (Z.of_nat (length rest))) + 1)
      with (Z.of_nat (length rest) + 1 + 1 * 2) by lia.
    rewrite Z.div_add by lia. lia.
Qed.

End MergeFacts.

(** C7. [mergeGroups] merges the candles two by two: the candle at index
    [i] of the result is built from those at [2i] and [2i+1], with the first
    one's open and start time, the last one's close, [math.Max] of the two
    maxima, [math.Min] of the two minima and twice the first one's duration
    (in int64 arithmetic, so exactly twice when that fits); an odd last
    candle is carried over unchanged; the group duration handed back is
    doubled; and the maximum and the minimum over all candles are the same
    before and after. *)
Theorem mergeGroups_pairs_and_extremes
    (groups : list Candle.CandleGroup) (currentDuration : Z) :
  let newGroups := fst (Server.mergeGroups groups currentDuration) in
  let newDuration := snd (Server.mergeGroups groups currentDuration) in
  (∀ i g1 g2,
     groups !! (2 * i)%nat = Some g1 →
     groups !! (2 * i + 1)%nat = Some g2 →
     ∃ m, newGroups !! i = Some m ∧
          Candle.Open m = Candle.Open g1 ∧
          Candle.Close m = Candle.Close g2 ∧
          Candle.Max m = F64.Max (Candle.Max g1) (Candle.Max g2) ∧
          Candle.Min m = F64.Min (Candle.Min g1) (Candle.Min g2) ∧
          Candle.StartTime m = Candle.StartTime g1 ∧
          Candle.DurationMs m = Int64.mul (Candle.DurationMs g1) 2 ∧
          (Int64.in_range (Candle.DurationMs g1 * 2) →
             Candle.DurationMs m = Candle.DurationMs g1 * 2)) ∧
  (∀ g, Z.of_nat (length groups) mod 2 = 1 → last groups = Some g →
        last newGroups = Some g) ∧
  Z.of_nat (length newGroups) = (Z.of_nat (length groups) + 1) / 2 ∧
  newDuration = Int64.mul currentDuration 2 ∧
  (Int64.in_range (currentDuration * 2) →
     newDuration = currentDuration * 2) ∧
  Server.globalMax newGroups = Server.globalMax groups ∧
  Server.globalMin newGroups = Server.globalMin groups.
Proof.
  assert (Hwrap : ∀ z, Int64.in_range z → Int64.wrap z = z).
  { intros z Hz. unfold Int64.in_range in Hz. unfold Int64.wrap.
    rewrite Z.mod_small by lia. lia. }
  rewrite mergeGroups_pairs. simpl.
  repeat match goal with |- _ ∧ _ => split end.
  - intros i g1 g2 H1 H2. exists (Server.merged g1 g2).
    split; [apply merge_pairs_lookup; assumption|].
    simpl. repeat split. intros Hr. apply Hwrap. assumption.
  - intros g Hodd Hl. apply merge_pairs_last_odd; assumption.
  - apply merge_pairs_length.
  - reflexivity.
  - intros Hr. apply Hwrap. assumption.
  - apply globalMax_merge_pairs.
  - apply globalMin_merge_pairs.
Qed.

(** C6 at a failing input. In the crash game ("r", "g") with ticks 500 ms
    apart and a price that rises 8% every tick, the candle completed when
    the first five-second window elapses has open and minimum 1.08 and
    maximum 1.08^10, but its close is 1.08^11: the close is read through the
    pointer to the loop's [price] variable after the tick that ends the
    window has already moved the price, and that price was never folded
    into the candle's maximum. *)
Theorem rollover_close_above_max :
  ∃ g c,
    Rollover.first_candle = Some (g, c) ∧
    Candle.IsComplete g = true ∧
    Candle.Open g = 1.0800000000000001%float ∧
    Candle.Min g = 1.0800000000000001%float ∧
    Candle.Max g = 2.1589249972727882%float ∧
    c = 2.3316389970546112%float ∧
    F64.le c (Candle.Max g) = false ∧
    F64.gt c (Candle.Max g) = true.
Proof.
  eexists _, _. split; [vm_compute; reflexivity|].
  vm_compute. repeat split; reflexivity.
Qed.

(** ** The history ring buffer *)

Section HistoryFacts.
Import CrashUnified.

Lemma add_to_history_lastn h g :
  add_to_history h g = lastn 10 (h ++ [g]).
Proof.
  unfold add_to_history, lastn, MaxGameHistory.
  destruct (Z.ltb_spec 10 (Z.of_nat (length (h ++ [g])))) as [Hlt|Hge].
  - f_equal. lia.
  - replace (length (h ++ [g]) - 10)%nat with 0%nat by lia. reflexivity.
Qed.

Lemma lastn_snoc {A} (l : list A) (g : A) :
  lastn 10 (lastn 10 l ++ [g]) = lastn 10 (l ++ [g]).
Proof.
  unfold lastn. rewrite !length_app, length_drop. simpl.
  destruct (Nat.le_gt_cases (length l) 10) as [Hle|Hgt].
  - replace (length l - 10)%nat with 0%nat by lia.
    rewrite drop_0. f_equal. lia.
  - replace (length l - (length l - 10) + 1 - 10)%nat with 1%nat by lia.
    rewrite !drop_app_le by (rewrite ?length_drop; lia).
    rewrite drop_drop. f_equal. f_equal. lia.
Qed.

Lemma history_fold (h0 gs : list CrashGameHistory) :
  (length h0 <= 10)%nat →
  fold_left add_to_history gs h0 = lastn 10 (h0 ++ gs).
Proof.
  intros Hlen. induction gs as [|g gs IH] using rev_ind.
  - simpl. rewrite app_nil_r. unfold lastn.
    replace (length h0 - 10)%nat with 0%nat by lia. reflexivity.
  - rewrite fold_left_app. simpl. rewrite IH, add_to_history_lastn.
    rewrite lastn_snoc, app_assoc. reflexivity.
Qed.

End HistoryFacts.

(** C9. Starting from a history of at most [MaxGameHistory] = 10 games (the
    program starts from the empty one), after the games [gs] have been
    appended one by one at their ends the history has at most 10 entries and
    is exactly the last 10 of everything appended, in insertion order: what
    was evicted is the oldest part. *)
Theorem history_keeps_last_ten
    (h0 gs : list CrashUnified.CrashGameHistory) :
  (length h0 <= 10)%nat →
  let h := fold_left CrashUnified.add_to_history gs h0 in
  Z.of_nat (length h) <= CrashUnified.MaxGameHistory ∧
  length h = Nat.min 10 (length (h0 ++ gs)) ∧
  h = lastn 10 (h0 ++ gs) ∧
  (∃ evicted, h0 ++ gs = evicted ++ h).
Proof.
  intros Hlen h. subst h. rewrite history_fold by assumption.
  unfold lastn, CrashUnified.MaxGameHistory.
  rewrite length_drop. repeat split; try lia.
  exists (take (length (h0 ++ gs) - 10) (h0 ++ gs)).
  rewrite take_drop. reflexivity.
Qed.

(** ** ws/unified.go: the cashout handler *)

Section CashoutFacts.
Context `{Std}.
Import Unified.

Lemma find_user_spec userId s q :
  find_user userId s = Some q →
  ∃ c, conns s !! q = Some c ∧ registered c = true ∧ ID c = userId.
Proof.
  unfold find_user. intros Hf.
  destruct (List.find _ (map_to_list (conns s))) as [[q' c]|] eqn:Hfind;
    [|discriminate].
  simpl in Hf. injection Hf as ->.
  apply find_some in Hfind. destruct Hfind as [Hin Hok]. simpl in Hok.
  apply andb_prop in Hok. destruct Hok as [Hreg Hid].
  exists c. repeat split.
  - apply elem_of_map_to_list. apply list_elem_of_In. exact Hin.
  - exact Hreg.
  - apply String.eqb_eq. exact Hid.
Qed.


Lemma conns_RemoveActiveBettor a s : conns (RemoveActiveBettor a s) = conns s.
Proof.
  unfold RemoveActiveBettor. destruct (activeBettors s !! a); reflexivity.
Qed.





End CashoutFacts.




(** ** ws/unified.go: what reaches a connection's [Send] channel *)

Section HubFacts.
Context `{Std}.
Import Unified HubRuns.

Lemma pumped_write_direct d c : pumped (write Direct d c) = pumped c.
Proof.
  unfold pumped, write. simpl. rewrite List.filter_app. simpl.
  rewrite app_nil_r. reflexivity.
Qed.

Lemma stream_writeJSON m c : stream (writeJSON m c) = stream c.
Proof.
  unfold writeJSON. destruct (Marshal m); [|reflexivity].
  unfold stream. rewrite pumped_write_direct. reflexivity.
Qed.

Lemma reading_writeJSON m c : reading (writeJSON m c) = reading c.
Proof. unfold writeJSON. destruct (Marshal m); reflexivity. Qed.

Lemma stream_enqueue d c : stream (enqueue d c) = stream c ++ [d].
Proof. unfold stream, pumped. simpl. rewrite app_assoc. reflexivity. Qed.

Lemma stream_pump d c :
  Send c = d :: tail (Send c) →
  stream (write Pumped d (dequeue c)) = stream c.
Proof.
  intros Hs. unfold stream, pumped, write, dequeue. simpl.
  rewrite List.filter_app, fmap_app. simpl. rewrite <- app_assoc. simpl.
  rewrite <- Hs. reflexivity.
Qed.






End HubFacts.

Section HubSteps.
Context `{Std}.
Import Unified HubRuns.





End HubSteps.

Section HubRunsFacts.
Context `{Std}.
Import Unified HubRuns.






(** The history sends go through, and the call returns, when the [Send]
    channel has room for the snapshot: nothing else needs to run. *)
Lemma history_send_completes hist : ∀ s p c,
  conns s !! p = Some c → reading c = SendingHistory hist →
  Z.of_nat (length (Send c)) + Z.of_nat (length hist) <= SendCapacity →
  ∃ s',
    run (replicate (length hist) (SendHistoryMessage p) ++ [Return p]) s
    = Some s' ∧
    reading_at p s' = Some Idle ∧
    stream_at p s' = stream c ++ (history_payload <$> hist).
Proof.
  induction hist as [|m rest IH]; intros s p c Hc Hr Hroom.
  - exists (set_conn p (set_reading Idle c) s).
    unfold reading_at, stream_at. simpl. rewrite Hc. simpl. rewrite Hr.
    simpl. rewrite lookup_insert_eq, app_nil_r. repeat split.
  - set (c1 := set_reading (SendingHistory rest)
                 (enqueue (history_payload m) c)).
    assert (Hperf : perform (SendHistoryMessage p) s
                    = Some (set_conn p c1 s)).
    { simpl. rewrite Hc. simpl. rewrite Hr. unfold has_room.
      destruct (Z.ltb_spec (Z.of_nat (length (Send c))) SendCapacity)
        as [_|Hfull]; [reflexivity|].
      simpl length in Hroom. lia. }
    destruct (IH (set_conn p c1 s) p c1) as (s' & Hrun & Hidle & Hst).
    + simpl. apply lookup_insert_eq.
    + reflexivity.
    + subst c1. simpl. rewrite length_app. simpl length in *. lia.
    + exists s'. split; [|split; [exact Hidle|]].
      * change (replicate (length (m :: rest)) (SendHistoryMessage p)
                  ++ [Return p])
          with (SendHistoryMessage p
                  :: (replicate (length rest) (SendHistoryMessage p)
                        ++ [Return p])).
        cbn [run]. rewrite Hperf. exact Hrun.
      * rewrite Hst. subst c1.
        change (stream (set_reading (SendingHistory rest) ?c0))
          with (stream c0).
        rewrite stream_enqueue, <- app_assoc. reflexivity.
Qed.

End HubRunsFacts.




(** ** Concrete instances *)


Lemma mergeGroups_pairs_and_extremes_witness :
  Server.globalMax (fst (Server.mergeGroups SmallInputs.three 5000))
  = Some 1.5%float ∧
  Server.globalMin (fst (Server.mergeGroups SmallInputs.three 5000))
  = Some 0.9%float ∧
  snd (Server.mergeGroups SmallInputs.three 5000) = 10000.
Proof.
  destruct (mergeGroups_pairs_and_extremes SmallInputs.three 5000)
    as (_ & _ & _ & _ & Hd & Hmax & Hmin).
  rewrite Hmax, Hmin. split; [reflexivity|]. split; [reflexivity|].
  apply Hd. unfold Int64.in_range. lia.
Defined.

Lemma history_keeps_last_ten_witness :
  fold_left CrashUnified.add_to_history SmallInputs.twelve []
  = SmallInputs.finished <$> seq 2 10.
Proof.
  destruct (history_keeps_last_ten [] SmallInputs.twelve) as (_ & _ & Hh & _).
  - simpl. lia.
  - rewrite Hh. reflexivity.
Defined.

(** * Further properties *)

(** ** game/candleflip.go: the simulation and the verifier *)

Section CandleflipSimFacts.
Context `{Std}.
Import Candleflip CandleflipSim.

Lemma GenerateCandleflipPrice_not_negative p r :
  F64.lt (fst (GenerateCandleflipPrice p r)) 0 = false.
Proof.
  unfold GenerateCandleflipPrice, bind, ret.
  destruct (percentChange r) as [pc r1]. simpl.
  destruct (F64.lt (p * (1 + pc)) 0) eqn:E; [reflexivity|exact E].
Qed.

Lemma ticks_not_negative n : ∀ p r,
  F64.lt p 0 = false → F64.lt (fst (ticks n p r)) 0 = false.
Proof.
  induction n as [|n IH]; intros p r Hp; simpl; [exact Hp|].
  unfold bind.
  pose proof (GenerateCandleflipPrice_not_negative p r) as Hg.
  destruct (GenerateCandleflipPrice p r) as [p1 r1]. apply IH. exact Hg.
Qed.

Lemma ticks_S n p r :
  fst (ticks (S n) p r)
  = fst (ticks n (fst (GenerateCandleflipPrice p r))
               (snd (GenerateCandleflipPrice p r))).
Proof.
  simpl. unfold bind. destruct (GenerateCandleflipPrice p r). reflexivity.
Qed.

(** The loop with the price history: the clamp changes nothing, the
    entries up to [i] are kept and entry [i + k] is the price after [k]
    more ticks. *)
Lemma simulate_from_spec n : ∀ i cur hist r,
  (i + n < length hist)%nat →
  fst (fst (simulate_from n i cur hist r)) = fst (ticks n cur r) ∧
  length (snd (fst (simulate_from n i cur hist r))) = length hist ∧
  (∀ j, (j <= i)%nat →
     snd (fst (simulate_from n i cur hist r)) !! j = hist !! j) ∧
  (∀ k, (1 <= k <= n)%nat →
     snd (fst (simulate_from n i cur hist r)) !! (i + k)%nat
     = Some (fst (ticks k cur r))).
Proof.
  induction n as [|n IH]; intros i cur hist r Hlen; simpl.
  - repeat split; try reflexivity. intros k Hk. lia.
  - unfold bind.
    pose proof (GenerateCandleflipPrice_not_negative cur r) as Hg.
    pose proof (λ k, ticks_S k cur r) as HS.
    destruct (GenerateCandleflipPrice cur r) as [p r1].
    cbn [fst snd] in Hg, HS. rewrite Hg.
    destruct (IH (S i) p (<[S i := p]> hist) r1) as (Hc & Hl & Hlow & Hup).
    { rewrite length_insert. lia. }
    rewrite length_insert in Hl.
    split; [exact Hc|]. split; [exact Hl|]. split.
    + intros j Hj. rewrite Hlow by lia.
      apply list_lookup_insert_ne. lia.
    + intros k Hk. destruct k as [|k]; [lia|]. rewrite HS.
      destruct k as [|k].
      * replace (i + 1)%nat with (S i) by lia. rewrite Hlow by lia.
        rewrite list_lookup_insert_eq by lia. reflexivity.
      * replace (i + S (S k))%nat with (S i + S k)%nat by lia.
        rewrite Hup by lia. reflexivity.
Qed.

End CandleflipSimFacts.

(** X1. [SimulateCandleflipGame] returns a history of 41 prices whose entry
    [k] is the price after [k] ticks of the loop [VerifyCandleflip] runs on
    the same seed, starting with 1.0; no entry is negative, so its clamp at
    0 never changes a price; and the winner it names is the verifier's. *)
Theorem simulation_agrees_with_verifier `{Std} (serverSeed : string) :
  let rng := Prng.NewSeededRNG (serverSeed ++ "-candleflip") in
  let priceHistory :=
    fst (CandleflipSim.SimulateCandleflipGame serverSeed) in
  let winner := snd (CandleflipSim.SimulateCandleflipGame serverSeed) in
  length priceHistory = 41%nat ∧
  priceHistory !! 0%nat = Some 1.0%float ∧
  (∀ k, (k <= 40)%nat →
     priceHistory !! k
     = Some (eval (Candleflip.ticks k Candleflip.CandleflipStartingPrice)
                  rng)) ∧
  last priceHistory = Some (Candleflip.final_price rng) ∧
  Forall (λ p, F64.lt p 0 = false) priceHistory ∧
  winner = Candleflip.VerifyCandleflip serverSeed.
Proof.
  intros rng. unfold CandleflipSim.SimulateCandleflipGame. fold rng.
  unfold eval.
  pose proof (simulate_from_spec Candleflip.CandleflipTotalTicks 0
                Candleflip.CandleflipStartingPrice
                (<[0%nat := Candleflip.CandleflipStartingPrice]>
                   (replicate (Candleflip.CandleflipTotalTicks + 1) 0%float))
                rng) as Hspec.
  destruct (CandleflipSim.simulate_from _ _ _ _ rng) as [[cur hist] r1].
  cbn [fst snd] in *.
  destruct Hspec as (Hcur & Hlen & Hlow & Hup).
  { rewrite length_insert, length_replicate.
    unfold Candleflip.CandleflipTotalTicks. lia. }
  rewrite length_insert, length_replicate in Hlen.
  assert (Hall : ∀ k, (k <= 40)%nat →
            hist !! k
            = Some (fst (Candleflip.ticks k
                           Candleflip.CandleflipStartingPrice rng))).
  { intros k Hk. destruct k as [|k].
    - rewrite Hlow by lia. reflexivity.
    - rewrite <- (Hup (S k)); [reflexivity|].
      unfold Candleflip.CandleflipTotalTicks. lia. }
  split; [exact Hlen|]. split; [apply (Hall 0%nat); lia|].
  split; [exact Hall|]. split; [|split].
  - rewrite last_lookup, Hlen. simpl. rewrite (Hall 40%nat) by lia.
    reflexivity.
  - apply Forall_lookup. intros k p Hk.
    assert (k < 41)%nat as Hlt.
    { apply lookup_lt_Some in Hk. rewrite Hlen in Hk. exact Hk. }
    rewrite Hall in Hk by lia. injection Hk as <-.
    apply ticks_not_negative. reflexivity.
  - unfold Candleflip.VerifyCandleflip, Candleflip.winner_of,
      Candleflip.final_price, eval. fold rng. rewrite Hcur.
    destruct (F64.lt _ 1.0); reflexivity.
Qed.

(** X2. Whatever the seed, exactly one of the two sides of a candleflip is
    paid: with the verifier's winner, a bet on "bullish" is paid twice the
    stake and one on "bearish" nothing when GREEN wins, and the other way
    round when RED wins; any other trend, and any other winner string, is
    paid nothing. *)
Theorem candleflip_pays_one_side `{Std} (serverSeed : string)
    (betAmount : float) :
  let winner := Candleflip.VerifyCandleflip serverSeed in
  let payout := CandleflipSim.CalculateCandleflipPayout betAmount in
  ((winner = "GREEN"%string ∧
    payout "bullish"%string winner = (betAmount * 2.0)%float ∧
    payout "bearish"%string winner = 0%float) ∨
   (winner = "RED"%string ∧
    payout "bullish"%string winner = 0%float ∧
    payout "bearish"%string winner = (betAmount * 2.0)%float)) ∧
  (∀ trend w, trend ≠ "bullish"%string → trend ≠ "bearish"%string →
     payout trend w = 0%float) ∧
  (∀ trend w, w ≠ "GREEN"%string → w ≠ "RED"%string →
     payout trend w = 0%float).
Proof.
  intros winner payout. subst winner payout.
  unfold Candleflip.VerifyCandleflip, CandleflipSim.CalculateCandleflipPayout.
  split; [|split].
  - destruct (Candleflip.winner_of _); [left|right];
      repeat split; reflexivity.
  - intros trend w Hb Hr.
    apply String.eqb_neq in Hb. apply String.eqb_neq in Hr.
    rewrite Hb, Hr. reflexivity.
  - intros trend w Hg Hr.
    apply String.eqb_neq in Hg. apply String.eqb_neq in Hr.
    rewrite Hg, Hr, !andb_false_r. reflexivity.
Qed.

(** ** The order of float64 comparisons *)

Section F64CompareFacts.
Import F64Order F64Compare.

Lemma compare_key x y :
  x ≠ S754_nan → y ≠ S754_nan →
  SFcompare x y = Some (lex3 (key x) (key y)).
Proof.
  intros Hx Hy.
  destruct x as [[]|[]| |[] m e], y as [[]|[]| |[] m' e'];
    try congruence; try reflexivity; cbn;
    change (PosDef.Pos.compare_cont Eq) with Pos.compare;
    rewrite ?Z.compare_opp;
    repeat match goal with
           | |- context [(?a ?= ?b)%Z] => destruct (Z.compare_spec a b)
           | |- context [(?a ?= ?b)%positive] =>
               destruct (Pos.compare_spec a b)
           end; cbn; try reflexivity; exfalso; lia.
Qed.

Lemma ltb_true x y :
  PrimFloat.ltb x y = true → num x ∧ num y ∧ lt3 (kf x) (kf y).
Proof.
  rewrite ltb_spec. unfold SFltb, num, kf. intros Hlt.
  destruct (SFcompare _ _) as [[]|] eqn:E; try discriminate.
  assert (Hn : Prim2SF x ≠ S754_nan ∧ Prim2SF y ≠ S754_nan).
  { split; intros Hnan; rewrite Hnan in E;
      [|destruct (Prim2SF x)]; discriminate. }
  destruct Hn as [Hx Hy]. rewrite compare_key in E by assumption.
  injection E as E. split; [assumption|]. split; [assumption|].
  destruct (lex3_spec (key (Prim2SF x)) (key (Prim2SF y)));
    [discriminate|assumption|discriminate].
Qed.

Lemma ltb_false x y :
  PrimFloat.ltb x y = false → num x → num y → ¬ lt3 (kf x) (kf y).
Proof.
  rewrite ltb_spec. unfold SFltb, num, kf. intros Hlt Hx Hy.
  rewrite compare_key in Hlt by assumption.
  destruct (lex3_spec (key (Prim2SF x)) (key (Prim2SF y))) as [E|L|L];
    try discriminate.
  - rewrite E. generalize (key (Prim2SF y)). intros [[a b] c].
    unfold lt3. lia.
  - revert L. generalize (key (Prim2SF x)), (key (Prim2SF y)).
    intros [[a b] c] [[a' b'] c']. unfold lt3. lia.
Qed.

Lemma ltb_intro x y :
  num x → num y → lt3 (kf x) (kf y) → PrimFloat.ltb x y = true.
Proof.
  rewrite ltb_spec. unfold SFltb, num, kf. intros Hx Hy L.
  rewrite compare_key by assumption. revert L.
  destruct (lex3_spec (key (Prim2SF x)) (key (Prim2SF y))) as [E|L'|L'].
  - rewrite E. generalize (key (Prim2SF y)). intros [[a b] c].
    unfold lt3. lia.
  - reflexivity.
  - revert L'. generalize (key (Prim2SF x)), (key (Prim2SF y)).
    intros [[a b] c] [[a' b'] c']. unfold lt3. lia.
Qed.

Lemma ltb_false_intro x y :
  (num x → num y → ¬ lt3 (kf x) (kf y)) → PrimFloat.ltb x y = false.
Proof.
  intros Hn. destruct (PrimFloat.ltb x y) eqn:E; [|reflexivity].
  apply ltb_true in E. tauto.
Qed.

Lemma num_dec x : num x ∨ ¬ num x.
Proof. unfold num. destruct (Prim2SF x); auto; left; discriminate. Qed.

Lemma IsNaN_false x : F64.IsNaN x = false → num x.
Proof. apply IsNaN_spec. Qed.

Lemma IsNaN_true x : F64.IsNaN x = true → ¬ num x.
Proof.
  intros Hn Hx. apply IsNaN_spec in Hx. congruence.
Qed.

Lemma eqb_true x y :
  PrimFloat.eqb x y = true → num x ∧ num y ∧ kf x = kf y.
Proof.
  rewrite FloatAxioms.eqb_spec. unfold SFeqb, num, kf. intros Heq.
  destruct (SFcompare _ _) as [[]|] eqn:E; try discriminate.
  assert (Hn : Prim2SF x ≠ S754_nan ∧ Prim2SF y ≠ S754_nan).
  { split; intros Hnan; rewrite Hnan in E;
      [|destruct (Prim2SF x)]; discriminate. }
  destruct Hn as [Hx Hy]. rewrite compare_key in E by assumption.
  injection E as E. split; [assumption|]. split; [assumption|].
  destruct (lex3_spec (key (Prim2SF x)) (key (Prim2SF y)));
    [assumption|discriminate|discriminate].
Qed.

Lemma not_num_nan : ¬ num nan.
Proof. unfold num. intros Hn. apply Hn. reflexivity. Qed.

(** Nothing is above +Inf and nothing below -Inf. *)
Lemma key_range x :
  num x → ¬ lt3 (kf infinity) (kf x) ∧ ¬ lt3 (kf x) (kf neg_infinity).
Proof.
  unfold num, kf. change (Prim2SF infinity) with (S754_infinity false).
  change (Prim2SF neg_infinity) with (S754_infinity true).
  destruct (Prim2SF x) as [[]|[]| |[] m e]; intros Hn; try congruence;
    cbn; lia.
Qed.

End F64CompareFacts.

(** Comparisons turned into statements about keys, and those into linear
    arithmetic.  The key of a constant is computed; [num] of a constant is
    checked by computation. *)
Ltac closed_term x :=
  tryif (match x with context [?y] => is_var y end) then fail else idtac.

Ltac num_const x :=
  closed_term x;
  lazymatch goal with
  | _ : F64Compare.num x |- _ => idtac
  | _ =>
      assert (F64Compare.num x)
        by (unfold F64Compare.num; vm_compute; discriminate)
  end.

Ltac key_const x :=
  closed_term x;
  let k := eval vm_compute in (F64Compare.kf x) in
  change (F64Compare.kf x) with k in *.

Ltac by_keys :=
  unfold F64.gt, F64.lt, F64.ge, F64.le in *;
  repeat match goal with
         | H : PrimFloat.ltb _ _ = true |- _ =>
             apply ltb_true in H; destruct H as (? & ? & H)
         | H : PrimFloat.eqb _ _ = true |- _ =>
             apply eqb_true in H; destruct H as (? & ? & H)
         | H : F64.IsNaN _ = false |- _ => apply IsNaN_false in H
         | H : F64Compare.num nan |- _ => destruct (not_num_nan H)
         end;
  try (apply ltb_false_intro; intros ? ?);
  repeat match goal with
         | H : F64Compare.num nan |- _ => destruct (not_num_nan H)
         | _ : PrimFloat.ltb ?x _ = false |- _ => progress (num_const x)
         | _ : PrimFloat.ltb _ ?y = false |- _ => progress (num_const y)
         | H : PrimFloat.ltb ?x ?y = false,
           Hx : F64Compare.num ?x, Hy : F64Compare.num ?y |- _ =>
             apply (λ H, ltb_false x y H Hx Hy) in H
         end;
  try (match goal with
       | |- context [F64Compare.kf infinity] => idtac
       | |- context [F64Compare.kf neg_infinity] => idtac
       | _ : context [F64Compare.kf infinity] |- _ => idtac
       | _ : context [F64Compare.kf neg_infinity] |- _ => idtac
       end;
       repeat match goal with
              | Hx : F64Compare.num ?x |- _ =>
                  lazymatch goal with
                  | _ : ¬ F64Order.lt3 (F64Compare.kf infinity)
                                       (F64Compare.kf x) |- _ => fail
                  | _ => destruct (key_range x Hx)
                  end
              end);
  repeat match goal with
         | H : ?T |- _ =>
             lazymatch T with
             | context [F64Compare.kf] => fail
             | _ => clear H
             end
         end;
  repeat match goal with
         | |- context [F64Compare.kf ?x] => progress (key_const x)
         | _ : context [F64Compare.kf ?x] |- _ => progress (key_const x)
         end;
  repeat match goal with
         | |- context [F64Compare.kf ?x] =>
             let k := fresh "k" in let E := fresh in
             remember (F64Compare.kf x) as k eqn:E; clear E;
             destruct k as [[? ?] ?]
         | _ : context [F64Compare.kf ?x] |- _ =>
             let k := fresh "k" in let E := fresh in
             remember (F64Compare.kf x) as k eqn:E; clear E;
             destruct k as [[? ?] ?]
         end;
  unfold F64Order.lt3 in *; simplify_eq; timeout 60 lia.

Section F64MaxMinFacts.
Import F64Order F64Compare.

(** "Not greater" is transitive through a number. *)
Lemma not_gt_trans a b c :
  F64.gt a b = false → F64.gt b c = false → num b → F64.gt a c = false.
Proof. intros Hab Hbc Hb. by_keys. Qed.

Lemma lt_trans a b c :
  F64.lt a b = true → F64.lt b c = true → F64.lt a c = true.
Proof.
  unfold F64.lt. intros Hab Hbc.
  apply ltb_true in Hab. destruct Hab as (Ha & Hb & Hab).
  apply ltb_true in Hbc. destruct Hbc as (_ & Hc & Hbc).
  apply ltb_intro; try assumption. by_keys.
Qed.

Ltac max_cases x y :=
  unfold F64.Max, F64.Min, F64.IsPosInf, F64.IsNegInf;
  let Hi := fresh "Hi" in let Hn := fresh "Hn" in
  let Hz := fresh "Hz" in let Hg := fresh "Hg" in
  match goal with
  | |- context [if ?b then _ else _] => destruct b eqn:Hi
  end;
  [ apply orb_true_iff in Hi
  | apply orb_false_iff in Hi;
    destruct (F64.IsNaN x || F64.IsNaN y) eqn:Hn;
    [ | apply orb_false_iff in Hn; destruct Hn as [? ?];
        destruct (PrimFloat.eqb x 0 && PrimFloat.eqb x y) eqn:Hz;
        [ apply andb_true_iff in Hz; destruct Hz as [_ Hz];
          destruct (F64.Signbit x)
        | match goal with
          | |- context [if ?b then _ else _] => destruct b eqn:Hg
          end ] ] ].

(** [math.Max] is an upper bound of both arguments, the least one on
    numbers; [math.Min] a lower bound. *)
Lemma not_gt_Max_l a x y :
  F64.gt a x = false → F64.gt a (F64.Max x y) = false.
Proof. intros H. max_cases x y; try assumption; by_keys. Qed.

Lemma not_gt_Max_r a x y :
  F64.gt a y = false → F64.gt a (F64.Max x y) = false.
Proof. intros H. max_cases x y; try assumption; by_keys. Qed.

Lemma Max_not_gt x y c :
  F64.gt x c = false → F64.gt y c = false →
  F64.gt (F64.Max x y) c = false.
Proof.
  intros Hx Hy. max_cases x y; try assumption; [|by_keys].
  destruct Hi as [Hi|Hi]; by_keys.
Qed.

Lemma Min_not_gt_l a x y :
  F64.gt x a = false → F64.gt (F64.Min x y) a = false.
Proof. intros H. max_cases x y; try assumption; by_keys. Qed.

Lemma Min_not_gt_r a x y :
  F64.gt y a = false → F64.gt (F64.Min x y) a = false.
Proof. intros H. max_cases x y; try assumption; by_keys. Qed.

End F64MaxMinFacts.

(** ** The sign of a product *)

Section F64SignFacts.

Lemma binary_round_aux_sign prec emax sx mx ex lx :
  match binary_round_aux prec emax sx mx ex lx with
  | S754_zero s | S754_infinity s | S754_finite s _ _ => s = sx
  | S754_nan => True
  end.
Proof.
  unfold binary_round_aux.
  destruct (shr_fexp prec emax mx ex lx) as [mrs e].
  destruct (shr_fexp prec emax _ e loc_Exact) as [mrs' e'].
  destruct (shr_m mrs'); [reflexivity| |trivial].
  destruct (_ <=? _); reflexivity.
Qed.

Lemma lt_zero_false x :
  F64.lt x 0 = false ↔
  match Prim2SF x with
  | S754_zero _ | S754_nan => True
  | S754_infinity s | S754_finite s _ _ => s = false
  end.
Proof.
  unfold F64.lt. rewrite ltb_spec. change (Prim2SF 0) with (S754_zero false).
  unfold SFltb. destruct (Prim2SF x) as [s|[]| |[] m e]; simpl; split;
    try tauto; try discriminate; try reflexivity.
Qed.

Lemma mul_not_negative x y :
  F64.lt x 0 = false → F64.lt y 0 = false → F64.lt (x * y) 0 = false.
Proof.
  rewrite !lt_zero_false, mul_spec. unfold SF64mul, SFmul.
  destruct (Prim2SF x) as [sx|sx| |sx mx ex],
           (Prim2SF y) as [sy|sy| |sy my ey]; intros Hx Hy;
    try exact I; subst; try reflexivity.
  pose proof (binary_round_aux_sign prec emax (xorb false false)
                (Z.pos (mx * my)) (ex + ey) loc_Exact) as Hs.
  destruct (binary_round_aux _ _ _ _ _ _); auto.
Qed.

Lemma Max_not_lt c x y :
  F64.lt x c = false → F64.lt y c = false →
  F64.lt (F64.Max x y) c = false.
Proof.
  intros Hx Hy. unfold F64.Max.
  destruct (_ || _); [by_keys|]. destruct (_ || _); [by_keys|].
  destruct (_ && _); [destruct (F64.Signbit x); assumption|].
  destruct (F64.gt x y); assumption.
Qed.

End F64SignFacts.

(** ** game/engine.go: the tracked peak *)

Section EngineTracking.
Context `{Std}.
Import Engine.

Lemma body_tracks_peak v r :
  F64.gt (price v) (peak v) = false →
  F64.lt (peak v) StartingPrice = false →
  F64.lt (price v) 0 = false →
  match fst (body v r) with
  | Again v' | Break v' =>
      F64.gt (price v') (peak v') = false ∧
      F64.lt (peak v') StartingPrice = false ∧
      F64.lt (price v') 0 = false
  | Panic => True
  end.
Proof.
  intros Hp Hs H0. unfold body, rug_check, draw_change.
  run_m; simpl; (split; [|split]);
    first [ assumption | apply gt_irrefl | reflexivity
          | apply mul_not_negative; [assumption|reflexivity]
          | repeat match goal with
                   | E : F64.lt ?x _ = _ |- _ => is_var x; clear E
                   | E : F64.gt ?x _ = _ |- _ => is_var x; clear E
                   end;
            by_keys ].
Qed.

Lemma loop_tracks_peak n r :
  let v := snd (fst (for_loop cond body n init r)) in
  F64.gt (price v) (peak v) = false ∧
  F64.lt (peak v) StartingPrice = false ∧
  F64.lt (price v) 0 = false.
Proof.
  apply (for_loop_rule cond body
           (λ v, F64.gt (price v) (peak v) = false ∧
                 F64.lt (peak v) StartingPrice = false ∧
                 F64.lt (price v) 0 = false)
           (λ _ v, F64.gt (price v) (peak v) = false ∧
                   F64.lt (peak v) StartingPrice = false ∧
                   F64.lt (price v) 0 = false)).
  - intros s Hs _. exact Hs.
  - intros s Hs _. exact Hs.
  - intros s r0 (Hp & Hs & H0) _.
    pose proof (body_tracks_peak s r0 Hp Hs H0) as Hb.
    destruct (fst (body s r0)); [exact Hb|exact Hb|repeat split; assumption].
  - repeat split; reflexivity.
Qed.

End EngineTracking.

(** X3. In game/engine.go the price is never negative, and the tracked
    peak is an upper bound of the price after any number of ticks and never
    falls below the starting price 1.0: the result's final price is not
    negative and does not exceed its peak multiplier, and the peak
    multiplier is not below 1.0 ([<=] and [>=] when they are numbers). *)
Theorem engine_peak_bounds_price `{Std} (serverSeed gameID : string)
    (n : nat) :
  let rng := Prng.NewSeededRNG (serverSeed ++ "-" ++ gameID) in
  let v := snd (eval (for_loop Engine.cond Engine.body n Engine.init) rng) in
  let res := Engine.CalculateGame serverSeed gameID in
  F64.gt (Engine.price v) (Engine.peak v) = false ∧
  F64.lt (Engine.peak v) 1.0 = false ∧
  F64.lt (Engine.price v) 0 = false ∧
  F64.gt (Engine.FinalPrice res) (Engine.PeakMultiplier res) = false ∧
  F64.lt (Engine.PeakMultiplier res) 1.0 = false ∧
  F64.lt (Engine.FinalPrice res) 0 = false ∧
  (F64.IsNaN (Engine.FinalPrice res) = false →
   F64.IsNaN (Engine.PeakMultiplier res) = false →
   F64.le 0 (Engine.FinalPrice res) = true ∧
   F64.le (Engine.FinalPrice res) (Engine.PeakMultiplier res) = true ∧
   F64.ge (Engine.PeakMultiplier res) 1.0 = true).
Proof.
  intros rng v res.
  destruct (loop_tracks_peak n rng) as (Hp & Hs & H0).
  destruct (loop_tracks_peak (Z.to_nat Engine.MaxTicks) rng)
    as (Hp' & Hs' & H0').
  change (F64.gt (Engine.FinalPrice res) (Engine.PeakMultiplier res) = false)
    in Hp'.
  change (F64.lt (Engine.PeakMultiplier res) 1.0 = false) in Hs'.
  change (F64.lt (Engine.FinalPrice res) 0 = false) in H0'.
  repeat match goal with |- _ ∧ _ => split end; try assumption.
  intros Hn1 Hn2. split; [|split].
  - apply (not_gt_le 0 (Engine.FinalPrice res));
      [reflexivity|assumption|exact H0'].
  - apply not_gt_le; assumption.
  - apply (not_gt_le 1.0 (Engine.PeakMultiplier res));
      [reflexivity|assumption|exact Hs'].
Qed.

(** ** The engine with a target peak: how its two loops end *)

Section EngineTargetRun.
Context `{Std}.
Import EngineTarget.

Lemma growth_body_step tp v r :
  ∃ v', fst (growth_body tp v r) = Again v' ∧
        tick v' = tick v + 1 ∧ rugged v' = rugged v.
Proof.
  unfold growth_body, bind.
  destruct (growth_change (price v) r) as [change r1]. simpl.
  destruct (F64.ge _ tp); simpl; eexists; repeat split.
Qed.

Lemma decline_body_step tp v r :
  match fst (decline_body tp v r) with
  | Again v' => tick v' = tick v + 1 ∧ rugged v' = rugged v
  | Break v' => tick v' = tick v ∧ rugged v' = true
  | Panic => False
  end.
Proof.
  unfold decline_body, bind, ret, Float64.
  destruct (rand_Float64 r) as [x r1].
  destruct (F64.lt x RugProb); simpl; [split; reflexivity|].
  destruct (decline_change (price v) r1) as [change r2]. simpl.
  split; reflexivity.
Qed.

(** The growth loop keeps the tick count within bounds and does not set
    [rugged]. *)
Lemma growth_loop_bounds tp n v r :
  0 <= tick v <= MaxTicks → rugged v = false →
  let v' := snd (fst (for_loop growth_cond (growth_body tp) n v r)) in
  0 <= tick v' <= MaxTicks ∧ rugged v' = false.
Proof.
  intros Ht Hr.
  apply (for_loop_rule growth_cond (growth_body tp)
           (λ v, 0 <= tick v <= MaxTicks ∧ rugged v = false)
           (λ _ v, 0 <= tick v <= MaxTicks ∧ rugged v = false));
    [tauto|tauto| |tauto].
  intros s r0 [Hs Hrs] Hc. unfold growth_cond in Hc.
  apply andb_true_iff in Hc. destruct Hc as [Hc _].
  apply Z.ltb_lt in Hc.
  destruct (growth_body_step tp s r0) as (v' & -> & Htick & Hrug).
  split; [lia|congruence].
Qed.

(** The decline loop, given enough iterations, ends by the rug or at the
    ceiling. *)
Lemma decline_loop_exit tp n v r :
  0 <= tick v <= MaxTicks → rugged v = false →
  (Z.to_nat (MaxTicks - tick v) <= n)%nat →
  let st := fst (fst (for_loop decline_cond (decline_body tp) n v r)) in
  let v' := snd (fst (for_loop decline_cond (decline_body tp) n v r)) in
  (st = Broke ∧ rugged v' = true ∧ 0 <= tick v' < MaxTicks) ∨
  (st = CondFalse ∧ rugged v' = false ∧ tick v' = MaxTicks).
Proof.
  intros Ht Hr Hn st v'.
  assert (Hfuel : st ≠ NoFuel).
  { subst st.
    apply (for_loop_fuel decline_cond (decline_body tp)
             (λ v, Z.to_nat (MaxTicks - tick v))); [| |exact Hn].
    - intros s Hc. unfold decline_cond in Hc. apply Z.ltb_lt in Hc. lia.
    - intros s r0 s' Hc Hb. pose proof (decline_body_step tp s r0) as Hs.
      rewrite Hb in Hs. unfold decline_cond in Hc.
      apply Z.ltb_lt in Hc. lia. }
  assert (Hexit : match st with
                  | CondFalse => rugged v' = false ∧ tick v' = MaxTicks
                  | Broke => rugged v' = true ∧ 0 <= tick v' < MaxTicks
                  | Panicked => False
                  | NoFuel => True
                  end).
  { subst st v'.
    apply (for_loop_rule decline_cond (decline_body tp)
             (λ v, 0 <= tick v <= MaxTicks ∧ rugged v = false)
             (λ st v, match st with
                      | CondFalse => rugged v = false ∧ tick v = MaxTicks
                      | Broke => rugged v = true ∧ 0 <= tick v < MaxTicks
                      | Panicked => False
                      | NoFuel => True
                      end)).
    - intros s [Hs Hrs] Hc. unfold decline_cond in Hc.
      apply Z.ltb_ge in Hc. split; [assumption|lia].
    - trivial.
    - intros s r0 [Hs Hrs] Hc. unfold decline_cond in Hc.
      apply Z.ltb_lt in Hc.
      pose proof (decline_body_step tp s r0) as Hstep.
      destruct (fst (decline_body tp s r0)) as [s'|s'|].
      + split; [lia|]. destruct Hstep as [_ ->]. exact Hrs.
      + destruct Hstep as [-> ->]. split; [reflexivity|lia].
      + exact Hstep.
    - split; assumption. }
  destruct st; try tauto; congruence.
Qed.

Lemma run_target_exit serverSeed gameID :
  let st := snd (fst (run serverSeed gameID)) in
  let v := snd (run serverSeed gameID) in
  (st = Broke ∧ rugged v = true ∧ 0 <= tick v < MaxTicks) ∨
  (st = CondFalse ∧ rugged v = false ∧ tick v = MaxTicks).
Proof.
  unfold run, run_upto, eval, simulate_upto, bind.
  generalize (Prng.NewSeededRNG (serverSeed ++ "-" ++ gameID)). intros r.
  destruct (determineTargetPeak r) as [tp r0].
  assert (Hinit : 0 <= tick (init tp) <= MaxTicks ∧
                  rugged (init tp) = false).
  { unfold MaxTicks. simpl. split; [lia|reflexivity]. }
  set (p1 := (if negb (peakReached (init tp))
              then for_loop growth_cond (growth_body tp)
                     (Z.to_nat MaxTicks) (init tp)
              else ret (CondFalse, init tp)) r0).
  assert (Hp1 : 0 <= tick (snd (fst p1)) <= MaxTicks ∧
                rugged (snd (fst p1)) = false).
  { subst p1. destruct (negb (peakReached (init tp))); [|exact Hinit].
    apply growth_loop_bounds; tauto. }
  destruct p1 as [[st1 v1] r1]. cbn [fst snd] in Hp1.
  destruct Hp1 as [Ht1 Hr1].
  pose proof (decline_loop_exit tp (Z.to_nat MaxTicks) v1 r1 Ht1 Hr1)
    as Hexit.
  cbn [fst snd].
  destruct (for_loop decline_cond (decline_body tp) (Z.to_nat MaxTicks)
              v1 r1) as [[st2 v2] r2].
  cbn [fst snd] in *. apply Hexit. lia.
Qed.

End EngineTargetRun.

(** X4. The crash simulation that draws its target peak up front always
    finishes within its 5000 iterations per loop, by the rug check of the
    decline phase or at the tick ceiling, and its result says which: Rugged
    is true exactly when fewer than MaxTicks ticks were played, false
    exactly when MaxTicks were. *)
Theorem target_game_rugged_or_full `{Std} (serverSeed gameID : string) :
  let st := snd (fst (EngineTarget.run serverSeed gameID)) in
  let res := EngineTarget.CalculateGame serverSeed gameID in
  (st = Broke ∨ st = CondFalse) ∧
  (EngineTarget.Rugged res = true ↔ st = Broke) ∧
  (EngineTarget.Rugged res = true
     ↔ EngineTarget.TotalTicks res < EngineTarget.MaxTicks) ∧
  (EngineTarget.Rugged res = false
     ↔ EngineTarget.TotalTicks res = EngineTarget.MaxTicks) ∧
  0 <= EngineTarget.TotalTicks res <= EngineTarget.MaxTicks.
Proof.
  intros st res. pose proof (run_target_exit serverSeed gameID) as Hexit.
  subst st res. unfold EngineTarget.CalculateGame.
  destruct (EngineTarget.run serverSeed gameID) as [[tp st] v].
  cbn [fst snd EngineTarget.Rugged EngineTarget.TotalTicks] in *.
  unfold EngineTarget.MaxTicks in *.
  destruct Hexit as [(-> & Hr & Ht)|(-> & Hr & Ht)]; rewrite Hr;
    repeat match goal with
           | |- _ ∧ _ => split
           | |- _ ↔ _ => split; intros ?
           end;
    first [ discriminate | reflexivity | lia | tauto ].
Qed.

(** X5. Every game of the engine with the peak sub-seed plays more than 20
    and at most 10000 ticks, the rug check being skipped up to tick 20, and
    the peak multiplier it reports is never below 1.0, whatever the draw of
    the sub-seed stream. *)
Theorem peak_game_length_and_floor `{Std} (serverSeed gameID : string) :
  let res := EnginePeak.CalculateGame serverSeed gameID in
  20 < EnginePeak.TotalTicks res <= EnginePeak.TickLimit ∧
  F64.lt (EnginePeak.PeakMultiplier res) EnginePeak.PeakMin = false ∧
  (F64.IsNaN (EnginePeak.PeakMultiplier res) = false →
     F64.ge (EnginePeak.PeakMultiplier res) 1.0 = true) ∧
  (∀ randValue, F64.lt (EnginePeak.peak_of randValue) 1.0 = false).
Proof.
  intros res.
  assert (Hfloor : ∀ x, F64.lt (EnginePeak.peak_of x) 1.0 = false).
  { intros x. unfold EnginePeak.peak_of.
    match goal with
    | |- F64.lt (if F64.lt ?p _ then _ else _) _ = false =>
        destruct (F64.lt p EnginePeak.PeakMin) eqn:E; [reflexivity|exact E]
    end. }
  assert (Hpeak : F64.lt (EnginePeak.PeakMultiplier res) 1.0 = false).
  { subst res. unfold EnginePeak.CalculateGame,
      EnginePeak.GeneratePeakMultiplier, eval, bind, ret, Float64.
    cbn [EnginePeak.PeakMultiplier].
    destruct (rand_Float64 _) as [x r]. apply Hfloor. }
  split; [|split; [exact Hpeak|split; [|exact Hfloor]]].
  - pose proof (run_peak_exit serverSeed gameID) as He.
    pose proof (run_peak_no_fuel_left serverSeed gameID) as Hf.
    subst res. unfold EnginePeak.CalculateGame.
    cbn [EnginePeak.TotalTicks]. unfold EnginePeak.TickLimit in *.
    destruct (fst (EnginePeak.run serverSeed gameID));
      cbv beta iota in He; try lia; tauto.
  - intros Hn. apply (not_gt_le 1.0 (EnginePeak.PeakMultiplier res));
      [reflexivity|assumption|exact Hpeak].
Qed.

(** ** game/prng.go: the seed *)

Section PrngFacts.
Import Prng.

Lemma digits_bound l acc :
  0 <= acc →
  fold_left (λ acc x, acc * 256 + Z.of_N (Byte.to_N x)) l acc
  = acc * 256 ^ Z.of_nat (length l)
    + fold_left (λ acc x, acc * 256 + Z.of_N (Byte.to_N x)) l 0 ∧
  0 <= fold_left (λ acc x, acc * 256 + Z.of_N (Byte.to_N x)) l 0
    < 256 ^ Z.of_nat (length l).
Proof.
  revert acc. induction l as [|x l IH]; intros acc Hacc.
  - simpl. lia.
  - pose proof (Byte.to_N_bounded x) as Hx.
    cbn [fold_left length].
    destruct (IH (acc * 256 + Z.of_N (Byte.to_N x))) as [E1 _]; [lia|].
    destruct (IH (0 * 256 + Z.of_N (Byte.to_N x))) as [E2 B]; [lia|].
    rewrite E1, E2. rewrite Nat2Z.inj_succ, Z.pow_succ_r by lia.
    split; [ring|]. nia.
Qed.

Lemma digits_inj l : ∀ l',
  length l = length l' →
  fold_left (λ acc x, acc * 256 + Z.of_N (Byte.to_N x)) l 0
  = fold_left (λ acc x, acc * 256 + Z.of_N (Byte.to_N x)) l' 0 →
  l = l'.
Proof.
  induction l as [|x l IH]; intros [|x' l'] Hlen Heq;
    try discriminate; [reflexivity|].
  injection Hlen as Hlen. cbn [fold_left] in Heq.
  pose proof (Byte.to_N_bounded x) as Hx.
  pose proof (Byte.to_N_bounded x') as Hx'.
  destruct (digits_bound l (0 * 256 + Z.of_N (Byte.to_N x))) as [E B];
    [lia|].
  destruct (digits_bound l' (0 * 256 + Z.of_N (Byte.to_N x')))
    as [E' B']; [lia|].
  rewrite E, E', <- Hlen in Heq. rewrite <- Hlen in B'.
  assert (Hd : Z.of_N (Byte.to_N x) = Z.of_N (Byte.to_N x')) by nia.
  assert (Hxx : x = x').
  { apply N2Z.inj in Hd.
    pose proof (Byte.of_to_N x) as H1. pose proof (Byte.of_to_N x') as H2.
    rewrite Hd in H1. congruence. }
  subst x'. f_equal. apply IH; [exact Hlen|]. lia.
Qed.

Lemma BigEndianUint64_range b : 0 <= BigEndianUint64 b < 2 ^ 64.
Proof.
  unfold BigEndianUint64.
  destruct (digits_bound (take 8 b) 0) as [_ B]; [lia|].
  assert (Z.of_nat (length (take 8 b)) <= 8)
    by (rewrite length_take; lia).
  assert (256 ^ Z.of_nat (length (take 8 b)) <= 256 ^ 8)
    by (apply Z.pow_le_mono_r; lia).
  change (2 ^ 64) with (256 ^ 8). lia.
Qed.

Lemma int64_inj u u' :
  0 <= u < 2 ^ 64 → 0 <= u' < 2 ^ 64 → int64 u = int64 u' → u = u'.
Proof.
  unfold int64. intros Hu Hu'. rewrite !Z.mod_small by assumption.
  destruct (u <? 2 ^ 63) eqn:E, (u' <? 2 ^ 63) eqn:E';
    try apply Z.ltb_lt in E; try apply Z.ltb_lt in E';
    try apply Z.ltb_ge in E; try apply Z.ltb_ge in E'; lia.
Qed.

End PrngFacts.

(** X6. The seed [NewSeededRNG] hands to [math/rand] is a signed 64-bit
    integer read from the first eight bytes of the digest and from nothing
    else: digests with the same first eight bytes give the same seed, and
    digests that differ there give different seeds. *)
Theorem seed_reads_first_eight_bytes (hash hash' : list byte) :
  (8 <= length hash)%nat → (8 <= length hash')%nat →
  Int64.in_range (Prng.int64 (Prng.BigEndianUint64 hash)) ∧
  Prng.int64 (Prng.BigEndianUint64 hash) mod 2 ^ 64
  = Prng.BigEndianUint64 hash ∧
  (Prng.int64 (Prng.BigEndianUint64 hash)
   = Prng.int64 (Prng.BigEndianUint64 hash')
   ↔ take 8 hash = take 8 hash').
Proof.
  intros Hl Hl'.
  pose proof (BigEndianUint64_range hash) as Hr.
  pose proof (BigEndianUint64_range hash') as Hr'.
  split; [|split].
  - unfold Int64.in_range, Prng.int64. rewrite Z.mod_small by assumption.
    destruct (_ <? 2 ^ 63) eqn:E;
      [apply Z.ltb_lt in E|apply Z.ltb_ge in E]; lia.
  - unfold Prng.int64. rewrite (Z.mod_small _ _ Hr).
    destruct (_ <? 2 ^ 63) eqn:E.
    + apply Z.mod_small. assumption.
    + replace (Prng.BigEndianUint64 hash - 2 ^ 64)
        with (Prng.BigEndianUint64 hash + (-1) * 2 ^ 64) by ring.
      rewrite Z.mod_add by lia. apply Z.mod_small. assumption.
  - split.
    + intros Heq. apply int64_inj in Heq; try assumption.
      unfold Prng.BigEndianUint64 in Heq. apply digits_inj; [|exact Heq].
      rewrite !length_take. lia.
    + intros Heq. unfold Prng.BigEndianUint64. rewrite Heq. reflexivity.
Qed.

Lemma seed_reads_first_eight_bytes_witness :
  Prng.int64 (Prng.BigEndianUint64
                (Scripted.pad32 (list_byte_of_string "seed-one-a")))
  = Prng.int64 (Prng.BigEndianUint64
                  (Scripted.pad32 (list_byte_of_string "seed-one-b"))).
Proof.
  apply (seed_reads_first_eight_bytes
           (Scripted.pad32 (list_byte_of_string "seed-one-a"))
           (Scripted.pad32 (list_byte_of_string "seed-one-b"))).
  - vm_compute. lia.
  - vm_compute. lia.
  - vm_compute. reflexivity.
Defined.

(** ** ws/server.go: what a merge keeps *)

Section MergeKeeps.
Import Candle Server.

Lemma merge_pairs_samples groups :
  concat (ValueList <$> merge_pairs groups) = concat (ValueList <$> groups).
Proof.
  induction groups as [| g | g1 g2 rest IH] using pair_ind.
  - reflexivity.
  - reflexivity.
  - cbn [merge_pairs fmap list_fmap concat merged ValueList].
    change (list_fmap _ _ ValueList ?l) with (ValueList <$> l).
    rewrite IH, app_assoc. reflexivity.
Qed.

Lemma merge_pairs_head groups :
  Open <$> head (merge_pairs groups) = Open <$> head groups ∧
  StartTime <$> head (merge_pairs groups) = StartTime <$> head groups.
Proof. destruct groups as [|g1 [|g2 rest]]; split; reflexivity. Qed.

Lemma merge_pairs_last_close groups :
  Close <$> last (merge_pairs groups) = Close <$> last groups.
Proof.
  induction groups as [| g | g1 g2 rest IH] using pair_ind.
  - reflexivity.
  - reflexivity.
  - destruct rest as [|g3 rest]; [reflexivity|].
    change (merge_pairs (g1 :: g2 :: g3 :: rest))
      with (merged g1 g2 :: merge_pairs (g3 :: rest)).
    rewrite (last_cons (merged g1 g2)), (last_cons g1), (last_cons g2).
    destruct (last (merge_pairs (g3 :: rest))) as [y|] eqn:E1.
    + destruct (last (g3 :: rest)) as [z|] eqn:E2; [exact IH|].
      apply last_None in E2. discriminate.
    + apply last_None in E1. destruct rest; discriminate.
Qed.

End MergeKeeps.

(** X7. [mergeGroups] loses no price sample and keeps the ends of the
    chart: the value lists of the result, concatenated, are those of the
    input, the first candle still has the first open and start time, and the
    last candle the last close; the empty list and a single candle come
    back unchanged. *)
Theorem mergeGroups_keeps_samples_and_ends
    (groups : list Candle.CandleGroup) (currentDuration : Z) :
  let newGroups := fst (Server.mergeGroups groups currentDuration) in
  concat (Candle.ValueList <$> newGroups)
  = concat (Candle.ValueList <$> groups) ∧
  Candle.Open <$> head newGroups = Candle.Open <$> head groups ∧
  Candle.StartTime <$> head newGroups = Candle.StartTime <$> head groups ∧
  Candle.Close <$> last newGroups = Candle.Close <$> last groups ∧
  (groups = [] → newGroups = []) ∧
  (∀ g, groups = [g] → newGroups = [g]).
Proof.
  rewrite mergeGroups_pairs. cbn [fst].
  split; [apply merge_pairs_samples|].
  split; [apply merge_pairs_head|]. split; [apply merge_pairs_head|].
  split; [apply merge_pairs_last_close|]. split.
  - intros ->. reflexivity.
  - intros g ->. simpl. rewrite lastGroupCopy_id. reflexivity.
Qed.

(** ** ws/crash_unified.go: what the crash loop keeps true *)

Section CrashLoopFacts.
Context `{Std}.
Import Candle Server CrashUnified CrashInvariant.

Lemma shaped_peak d pk pk' g :
  shaped d pk g → F64.gt pk pk' = false → F64.IsNaN pk = false →
  shaped d pk' g.
Proof.
  intros (Hd & Ho & Hm & H0 & HM & Hp) Hpk Hn.
  repeat split; try assumption.
  apply (not_gt_trans _ pk); [assumption|assumption|].
  apply IsNaN_false. assumption.
Qed.

Lemma frozen_ok_weaken n n' d pk pk' g :
  frozen_ok n d pk g → (n <= n')%nat →
  F64.gt pk pk' = false → F64.IsNaN pk = false →
  frozen_ok n' d pk' g.
Proof.
  intros (Hc & Hv & (k & Hk & Hlt) & Hs) Hn Hpk Hnan.
  split; [assumption|]. split; [assumption|]. split.
  - exists k. split; [assumption|lia].
  - apply (shaped_peak d pk); assumption.
Qed.

Lemma merged_frozen n d pk g1 g2 :
  frozen_ok n d pk g1 → frozen_ok n d pk g2 →
  frozen_ok n (Int64.mul d 2) pk (merged g1 g2).
Proof.
  intros (Hc1 & Hv1 & _ & Hd1 & Ho1 & Hm1 & H01 & HM1 & Hp1)
         (Hc2 & Hv2 & Hk2 & Hd2 & Ho2 & Hm2 & H02 & HM2 & Hp2).
  unfold frozen_ok, shaped, merged. cbn.
  rewrite Hv1, Hv2, Hd1. repeat split; try assumption.
  - apply not_gt_Max_l. assumption.
  - apply Min_not_gt_l. assumption.
  - apply Max_not_lt; assumption.
  - apply Max_not_gt; assumption.
Qed.

Lemma merge_pairs_frozen n d pk groups k :
  length groups = (2 * k)%nat →
  Forall (frozen_ok n d pk) groups →
  Forall (frozen_ok n (Int64.mul d 2) pk) (merge_pairs groups).
Proof.
  revert k.
  induction groups as [| g | g1 g2 rest IH] using pair_ind;
    intros k Hlen Hall.
  - constructor.
  - simpl in Hlen. lia.
  - apply Forall_cons in Hall. destruct Hall as [H1 Hall].
    apply Forall_cons in Hall. destruct Hall as [H2 Hall].
    cbn [merge_pairs]. constructor.
    + apply merged_frozen; assumption.
    + apply (IH (k - 1)%nat); [simpl in Hlen; lia|assumption].
Qed.

Lemma move_not_negative p r :
  F64.lt p 0 = false → F64.lt (fst (move p r)) 0 = false.
Proof.
  intros Hp. unfold move. run_m; simpl;
    first [ reflexivity | assumption
          | apply mul_not_negative; [assumption|reflexivity] ].
Qed.

Lemma new_group_ok v now :
  F64.gt (price v) (peak v) = false → F64.lt (price v) 0 = false →
  live_ok (groupDuration v) (peak v) (new_group v now) ∧
  holds_price (price v) (new_group v now).
Proof.
  intros Hp H0. unfold live_ok, holds_price, shaped, new_group.
  cbn [IsComplete Close DurationMs Open Max Min ValueList last].
  repeat split; first [assumption | apply gt_irrefl].
Qed.

(** Moving the price keeps the candles in shape: the peak only grows. *)
Lemma set_price_keeps p v :
  base v → F64.lt p 0 = false →
  match currentGroup v with
  | Some cg => live_ok (groupDuration v) (peak v) cg
  | None => groups v = []
  end →
  base (set_price p v) ∧
  match currentGroup v with
  | Some cg => live_ok (groupDuration v) (peak (set_price p v)) cg
  | None => groups v = []
  end.
Proof.
  intros (Ht & Hlen & Hall & Hp & H0 & Hn) Hp0 Hcur.
  assert (Hpk : F64.gt (peak v) (peak (set_price p v)) = false ∧
                F64.IsNaN (peak (set_price p v)) = false ∧
                F64.gt p (peak (set_price p v)) = false).
  { change (peak (set_price p v))
      with (if F64.gt p (peak v) then p else peak v).
    destruct (F64.gt p (peak v)) eqn:E.
    - split; [by_keys|]. split; [|apply gt_irrefl].
      apply IsNaN_spec. unfold F64.gt in E. apply ltb_true in E.
      destruct E as (_ & Hnp & _). exact Hnp.
    - split; [apply gt_irrefl|]. split; assumption. }
  destruct Hpk as (Hmono & Hn' & Hp').
  split.
  - unfold base. cbn [set_price tick groups cells groupDuration price].
    split; [assumption|]. split; [assumption|]. split; [|tauto].
    eapply Forall_impl; [exact Hall|]. intros g Hg.
    apply (frozen_ok_weaken (length (cells v)) _ _ (peak v)); try assumption. lia.
  - destruct (currentGroup v) as [cg|]; [|assumption].
    destruct Hcur as (Hc & Hcl & Hs). split; [assumption|].
    split; [assumption|]. apply (shaped_peak _ (peak v)); assumption.
Qed.

(** The candle grouping step never dereferences a nil pointer and leaves
    the candles in shape. *)
Lemma group_tick_inv now v :
  base v →
  match currentGroup v with
  | Some cg => live_ok (groupDuration v) (peak v) cg
  | None => groups v = []
  end →
  ∃ v', group_tick now v = Some v' ∧ inv v' ∧
        tick v' = tick v ∧ rugged v' = rugged v ∧
        price v' = price v ∧ peak v' = peak v.
Proof.
  intros Hbase Hcur. pose proof Hbase as (Ht & Hlen & Hall & Hp & H0 & Hn).
  unfold group_tick. destruct (currentGroup v) as [cg|] eqn:Ecg.
  - destruct Hcur as (Hc & Hcl & Hs).
    destruct (groupDuration v <=? Int64.sub now (groupStartTime v)).
    + rewrite Hcl. cbn [deref mbind option_bind alloc].
      set (va := {| price := price v; peak := peak v; tick := tick v;
                    rugged := rugged v; groups := groups v;
                    currentGroup := currentGroup v;
                    groupDuration := groupDuration v;
                    groupStartTime := groupStartTime v;
                    cells := cells v ++ [price v] |}).
      set (done := frozen cg (Cell (length (cells v)))).
      assert (Hdone : frozen_ok (length (cells va)) (groupDuration v)
                        (peak v) done).
      { subst done va. unfold frozen_ok, frozen. cbn.
        split; [reflexivity|]. split; [reflexivity|]. split.
        - eexists. split; [reflexivity|]. rewrite length_app. simpl. lia.
        - exact Hs. }
      assert (Hall1 : Forall (frozen_ok (length (cells va))
                                (groupDuration v) (peak v))
                        (groups v ++ [done])).
      { apply Forall_app. split; [|constructor; [exact Hdone|constructor]].
        eapply Forall_impl; [exact Hall|]. intros g Hg.
        apply (frozen_ok_weaken (length (cells v)) _ _ (peak v)); try assumption;
          [|apply gt_irrefl].
        subst va. cbn. rewrite length_app. lia. }
      change (groups va) with (groups v).
      change (groupDuration va) with (groupDuration v).
      destruct (MergeThreshold <=? Z.of_nat (length (groups v ++ [done])))
        eqn:Em.
      * apply Z.leb_le in Em. unfold MergeThreshold in Em.
        rewrite length_app in Em. simpl in Em.
        assert (Hlen1 : length (groups v ++ [done]) = (2 * 15)%nat).
        { rewrite length_app. simpl. lia. }
        rewrite mergeGroups_pairs.
        eexists. split; [reflexivity|]. cbn.
        pose proof (merge_pairs_length (groups v ++ [done])) as Hml.
        rewrite Hlen1 in Hml. change ((Z.of_nat (2 * 15) + 1) / 2) with 15
          in Hml.
        split; [|repeat split; reflexivity].
        split.
        -- unfold base. cbn. split; [assumption|]. split; [lia|].
           split; [|tauto].
           apply (merge_pairs_frozen _ _ _ _ 15); assumption.
        -- cbn.
           match goal with
           | |- live_ok _ _ (new_group ?v2 now) ∧ _ =>
               apply (new_group_ok v2 now); assumption
           end.
      * apply Z.leb_gt in Em. unfold MergeThreshold in Em.
        eexists. split; [reflexivity|]. cbn.
        split; [|repeat split; reflexivity].
        split.
        -- unfold base. cbn. split; [assumption|]. split; [lia|].
           split; [exact Hall1|tauto].
        -- cbn.
           match goal with
           | |- live_ok _ _ (new_group ?v2 now) ∧ _ =>
               apply (new_group_ok v2 now); assumption
           end.
    + eexists. split; [reflexivity|]. cbn.
      split; [|repeat split; reflexivity].
      split; [exact Hbase|]. cbn.
      destruct Hs as (Hd & Ho & Hm & HO0 & HM0 & HMp).
      unfold live_ok, holds_price, shaped. cbn.
      repeat split; try assumption.
      * apply not_gt_Max_l. assumption.
      * apply Min_not_gt_l. assumption.
      * apply Max_not_lt; assumption.
      * apply Max_not_gt; assumption.
      * rewrite last_snoc. reflexivity.
      * apply not_gt_Max_r. apply gt_irrefl.
      * apply Min_not_gt_r. apply gt_irrefl.
  - eexists. split; [reflexivity|]. cbn.
    split; [|repeat split; reflexivity].
    split.
    + unfold base. cbn. tauto.
    + cbn. apply (new_group_ok v now); assumption.
Qed.

Lemma group_tick_tick now v v' :
  group_tick now v = Some v' → tick v' = tick v.
Proof.
  unfold group_tick. destruct (currentGroup v) as [cg|].
  - destruct (_ <=? _).
    + destruct (deref v (Close cg)) as [x|]; [|discriminate].
      cbn [mbind option_bind alloc].
      destruct (MergeThreshold <=? _).
      * destruct (mergeGroups _ _) as [gs d]. intros [= <-]. reflexivity.
      * intros [= <-]. reflexivity.
    + intros [= <-]. reflexivity.
  - intros [= <-]. reflexivity.
Qed.

Variable clock : Z → Z.

Lemma inv_live v :
  inv v →
  match currentGroup v with
  | Some cg => live_ok (groupDuration v) (peak v) cg
  | None => groups v = []
  end.
Proof. intros [_ Hc]. destruct (currentGroup v); tauto. Qed.

(** One iteration: it never panics, a rug leaves the candles as they
    are, a tick leaves them in shape. *)
Lemma body_inv v r :
  inv v →
  match fst (body clock v r) with
  | Again v' => inv v' ∧ rugged v' = rugged v ∧ tick v' = tick v + 1
  | Break v' => inv v' ∧ rugged v' = true ∧ tick v' = tick v
  | Panic => False
  end.
Proof.
  intros Hinv. unfold body, bind, ret, Float64.
  destruct (rand_Float64 r) as [x r1].
  destruct (F64.lt x Engine.RugProb).
  - simpl. split; [exact Hinv|]. split; reflexivity.
  - pose proof (move_not_negative (price v) r1) as Hm.
    destruct (move (price v) r1) as [p r2]. cbn [fst] in Hm.
    destruct Hinv as [Hbase Hcur]. pose proof Hbase as (_ & _ & _ & _ & H0 & _).
    specialize (Hm H0).
    destruct (set_price_keeps p v Hbase Hm) as [Hb1 Hc1].
    { destruct (currentGroup v); tauto. }
    destruct (group_tick_inv (clock (tick v)) (set_price p v) Hb1 Hc1)
      as (v2 & -> & [Hb2 Hc2] & Ht2 & Hr2 & _ & _).
    simpl. split; [|split; [exact Hr2|rewrite Ht2; reflexivity]].
    split.
    + destruct Hb2 as (Ht & Hrest). split; [cbn; lia|exact Hrest].
    + exact Hc2.
Qed.

Lemma init_inv start : inv (init start).
Proof.
  unfold inv, base, init. cbn. repeat split; try reflexivity; try lia.
  constructor.
Qed.

Lemma loop_inv n start r :
  inv (snd (fst (for_loop cond (body clock) n (init start) r))).
Proof.
  apply (for_loop_rule cond (body clock) inv (λ _ v, inv v)); auto.
  - intros s r0 Hs _. pose proof (body_inv s r0 Hs) as Hb.
    destruct (fst (body clock s r0)); tauto.
  - apply init_inv.
Qed.

(** The loop, given its 5000 iterations, ends by the rug or at tick
    5000. *)
Lemma loop_exit start r :
  let st := fst (fst (for_loop cond (body clock) (Z.to_nat 5000)
                        (init start) r)) in
  let v := snd (fst (for_loop cond (body clock) (Z.to_nat 5000)
                       (init start) r)) in
  inv v ∧
  ((st = Broke ∧ rugged v = true ∧ 0 <= tick v < 5000) ∨
   (st = CondFalse ∧ rugged v = false ∧ tick v = 5000)).
Proof.
  intros st v. split; [apply loop_inv|].
  assert (Hfuel : st ≠ NoFuel).
  { subst st.
    apply (for_loop_fuel cond (body clock)
             (λ v, Z.to_nat (5000 - tick v))).
    - intros s Hc. unfold cond in Hc. apply Z.ltb_lt in Hc. lia.
    - intros s r0 s' Hc Hb.
      assert (Ht : tick s' = tick s + 1).
      { revert Hb. unfold body, bind, ret, Float64.
        destruct (rand_Float64 r0) as [x r1].
        destruct (F64.lt x Engine.RugProb); [discriminate|].
        destruct (move (price s) r1) as [p r2].
        destruct (group_tick (clock (tick s)) (set_price p s)) as [v2|]
          eqn:Eg; [|discriminate].
        apply group_tick_tick in Eg.
        cbn [fst]. intros [= <-]. cbn [next_tick tick]. rewrite Eg.
        reflexivity. }
      unfold cond in Hc. apply Z.ltb_lt in Hc. lia.
    - simpl. lia. }
  assert (Hexit : match st with
                  | CondFalse => rugged v = false ∧ tick v = 5000
                  | Broke => rugged v = true ∧ 0 <= tick v < 5000
                  | Panicked => False
                  | NoFuel => True
                  end).
  { subst st v.
    apply (for_loop_rule cond (body clock)
             (λ v, inv v ∧ rugged v = false ∧ 0 <= tick v <= 5000)
             (λ st v, match st with
                      | CondFalse => rugged v = false ∧ tick v = 5000
                      | Broke => rugged v = true ∧ 0 <= tick v < 5000
                      | Panicked => False
                      | NoFuel => True
                      end)).
    - intros s (_ & Hr & Ht) Hc. unfold cond in Hc.
      apply Z.ltb_ge in Hc. split; [assumption|lia].
    - trivial.
    - intros s r0 (Hs & Hr & Ht) Hc. unfold cond in Hc.
      apply Z.ltb_lt in Hc. pose proof (body_inv s r0 Hs) as Hb.
      destruct (fst (body clock s r0)) as [s'|s'|].
      + destruct Hb as (Hi & Hr' & Ht'). split; [assumption|].
        split; [congruence|lia].
      + destruct Hb as (_ & Hr' & Ht'). split; [assumption|lia].
      + exact Hb.
    - split; [apply init_inv|]. split; [reflexivity|]. simpl. lia. }
  destruct st; try tauto; congruence.
Qed.

(** Completing the last candle. *)
Lemma final_candle_finished v cg x :
  base v → shaped (groupDuration v) (peak v) cg →
  F64.gt x (Max cg) = false → F64.gt (Min cg) x = false →
  let v1 := snd (alloc x (set_current cg (groupStartTime v) v)) in
  let p := fst (alloc x (set_current cg (groupStartTime v) v)) in
  finished (set_groups (groups v1 ++ [frozen cg p]) (groupDuration v1) v1).
Proof.
  intros (Ht & Hlen & Hall & Hp & H0 & Hn) Hs Hx1 Hx2 v1 p.
  subst v1 p. unfold finished, alloc, set_current, set_groups.
  cbn [fst snd groups cells groupDuration peak].
  split; [rewrite length_app; simpl; lia|]. split.
  - apply Forall_app. split.
    + eapply Forall_impl; [exact Hall|]. intros g Hg.
      apply (frozen_ok_weaken (length (cells v)) _ _ (peak v));
        try assumption; [rewrite length_app; lia|apply gt_irrefl].
    + constructor; [|constructor].
      unfold frozen_ok, frozen.
      cbn [IsComplete ValueList Close].
      split; [reflexivity|]. split; [reflexivity|]. split.
      * eexists. split; [reflexivity|]. rewrite length_app. simpl. lia.
      * exact Hs.
  - intros g Hg. rewrite last_snoc in Hg. injection Hg as <-.
    unfold close_within, frozen, deref.
    cbn [Close Max Min cells]. exists x. split; [|split; assumption].
    rewrite lookup_app_r by lia. rewrite Nat.sub_diag. reflexivity.
Qed.

Lemma complete_final_finished v :
  inv v →
  ∃ v', complete_final v = Some v' ∧ finished v' ∧
        tick v' = tick v ∧ rugged v' = rugged v ∧ peak v' = peak v ∧
        groupDuration v' = groupDuration v.
Proof.
  intros [Hbase Hcur]. pose proof Hbase as (Ht & Hlen & Hall & Hp & H0 & Hn).
  unfold complete_final. destruct (currentGroup v) as [cg|] eqn:Ecg.
  - destruct Hcur as [(Hc & Hcl & Hs) (Hl & Hpm & Hmp)].
    rewrite Hc. cbn [negb]. rewrite Hcl. cbn [deref].
    pose proof Hs as (Hd & Ho & Hm & HO0 & HM0 & HMp).
    destruct (rugged v) eqn:Er; cbn [mbind option_bind].
    + set (cg1 := {| Open := Open cg; Close := Some PriceVar;
                     Max := Max cg; Min := 0%float;
                     ValueList := ValueList cg;
                     StartTime := StartTime cg;
                     DurationMs := DurationMs cg;
                     IsComplete := IsComplete cg |}).
      assert (Hs1 : shaped (groupDuration v) (peak v) cg1).
      { unfold shaped. subst cg1. cbn [DurationMs Open Max Min].
        repeat split; assumption. }
      pose proof (final_candle_finished v cg1 0%float Hbase Hs1 HM0
                    eq_refl) as Hfin.
      eexists. split; [reflexivity|]. split; [exact Hfin|].
      cbn. rewrite Er. repeat split; reflexivity.
    + pose proof (final_candle_finished v cg (price v) Hbase Hs Hpm Hmp)
        as Hfin.
      eexists. split; [reflexivity|]. split; [exact Hfin|].
      cbn. rewrite Er. repeat split; reflexivity.
  - exists v. split; [reflexivity|]. split; [|repeat split; reflexivity].
    unfold finished. rewrite Hcur. split; [simpl; lia|].
    split; [constructor|]. intros g Hg. discriminate.
Qed.

End CrashLoopFacts.

Section CrashGameFacts.
Context `{Std}.
Variable clock : Z → Z.
Import Candle Server CrashUnified CrashInvariant.

(** A game always runs to its end: by the rug before tick 5000, or with
    5000 ticks played; no step dereferences a nil close. *)
Lemma run_game_finished serverSeed gameID start :
  ∃ v, run_game clock serverSeed gameID start = Some v ∧
       finished v ∧ 0 <= tick v <= 5000 ∧
       (rugged v = true ∧ tick v < 5000 ∨
        rugged v = false ∧ tick v = 5000) ∧
       F64.IsNaN (peak v) = false.
Proof.
  unfold run_game, eval.
  pose proof (loop_exit clock start
                (Prng.NewSeededRNG (serverSeed ++ "-" ++ gameID)))
    as [Hinv Hexit].
  destruct (for_loop cond (body clock) (Z.to_nat 5000) (init start) _)
    as [[st v] r1].
  cbn [fst snd] in *.
  destruct (complete_final_finished v Hinv)
    as (v' & Hcf & Hfin & Ht & Hr & Hpk & _).
  assert (Hn : F64.IsNaN (peak v') = false).
  { rewrite Hpk. destruct Hinv as [(_ & _ & _ & _ & _ & Hn) _]. exact Hn. }
  exists v'. rewrite Ht, Hr.
  destruct Hexit as [(-> & Hrug & Htick)|(-> & Hrug & Htick)];
    (split; [exact Hcf|]); (split; [exact Hfin|]);
    (split; [lia|]); (split; [|exact Hn]); [left|right];
    split; first [assumption | lia].
Qed.

End CrashGameFacts.

(** X8. The simulation of [runCrashGameLoop] always ends, whatever the
    draws and the clock: no iteration panics on a nil close pointer, the
    loop stops by the rug check or when 5000 ticks are played, the last
    candle is completed, and the rugged flag is true exactly when fewer than
    5000 ticks were played. *)
Theorem crash_game_always_finishes `{Std} (clock : Z → Z)
    (serverSeed gameID : string) (start : Z) :
  ∃ v, CrashUnified.run_game clock serverSeed gameID start = Some v ∧
       0 <= CrashUnified.tick v <= 5000 ∧
       (CrashUnified.rugged v = true ↔ CrashUnified.tick v < 5000) ∧
       (CrashUnified.rugged v = false ↔ CrashUnified.tick v = 5000).
Proof.
  destruct (run_game_finished clock serverSeed gameID start)
    as (v & Hrun & _ & Ht & Hr & _).
  exists v. split; [exact Hrun|]. split; [exact Ht|].
  destruct Hr as [[Hr Hlt]|[Hr Heq]]; rewrite Hr; split; split; intros;
    first [ discriminate | reflexivity | lia ].
Qed.

(** X9. The crash loop keeps the number of retained candles bounded and
    their width uniform: after any number of ticks there are fewer than 30
    completed candles, at most 30 in the finished game, and every one of
    them has the current group duration. *)
Theorem crash_candles_bounded_and_uniform `{Std} (clock : Z → Z)
    (serverSeed gameID : string) (start : Z) (n : nat) :
  let rng := Prng.NewSeededRNG (serverSeed ++ "-" ++ gameID) in
  let vn := snd (eval (for_loop CrashUnified.cond (CrashUnified.body clock) n
                         (CrashUnified.init start)) rng) in
  (length (CrashUnified.groups vn) < 30)%nat ∧
  Forall (λ g, Candle.DurationMs g = CrashUnified.groupDuration vn)
         (CrashUnified.groups vn) ∧
  (∀ cg, CrashUnified.currentGroup vn = Some cg →
         Candle.DurationMs cg = CrashUnified.groupDuration vn) ∧
  ∃ v, CrashUnified.run_game clock serverSeed gameID start = Some v ∧
       (length (CrashUnified.groups v) <= 30)%nat ∧
       Forall (λ g, Candle.DurationMs g = CrashUnified.groupDuration v)
              (CrashUnified.groups v).
Proof.
  intros rng vn.
  pose proof (loop_inv clock n start rng) as Hinv.
  change (CrashInvariant.inv vn) in Hinv.
  destruct Hinv as [(_ & Hlen & Hall & _) Hcur].
  split; [exact Hlen|]. split.
  { eapply Forall_impl; [exact Hall|].
    intros g (_ & _ & _ & Hd & _). exact Hd. }
  split.
  { intros cg Hcg. rewrite Hcg in Hcur.
    destruct Hcur as [(_ & _ & Hd & _) _]. exact Hd. }
  destruct (run_game_finished clock serverSeed gameID start)
    as (v & Hrun & (Hl & Hf & _) & _).
  exists v. split; [exact Hrun|]. split; [exact Hl|].
  eapply Forall_impl; [exact Hf|].
  intros g (_ & _ & _ & Hd & _). exact Hd.
Qed.

(** X10. Every candle the crash loop has completed is frozen: it is marked
    complete, carries no value list, and its close points to a cell of its
    own that holds a value, never to the loop's live [price] variable; the
    candle being built is the only one whose close is the live price. *)
Theorem crash_completed_candles_frozen `{Std} (clock : Z → Z)
    (serverSeed gameID : string) (start : Z) (n : nat) :
  let rng := Prng.NewSeededRNG (serverSeed ++ "-" ++ gameID) in
  let vn := snd (eval (for_loop CrashUnified.cond (CrashUnified.body clock) n
                         (CrashUnified.init start)) rng) in
  let frozen v g :=
    Candle.IsComplete g = true ∧ Candle.ValueList g = [] ∧
    Candle.Close g ≠ Some Candle.PriceVar ∧
    ∃ c, CrashUnified.deref v (Candle.Close g) = Some c in
  Forall (frozen vn) (CrashUnified.groups vn) ∧
  (∀ cg, CrashUnified.currentGroup vn = Some cg →
         Candle.IsComplete cg = false ∧
         CrashUnified.deref vn (Candle.Close cg)
         = Some (CrashUnified.price vn)) ∧
  ∃ v, CrashUnified.run_game clock serverSeed gameID start = Some v ∧
       Forall (frozen v) (CrashUnified.groups v).
Proof.
  intros rng vn frozen.
  assert (Hfrozen : ∀ v g,
            CrashInvariant.frozen_ok (length (CrashUnified.cells v))
              (CrashUnified.groupDuration v) (CrashUnified.peak v) g →
            frozen v g).
  { intros v g (Hc & Hv & (k & Hk & Hlt) & _). subst frozen. cbv beta.
    split; [exact Hc|]. split; [exact Hv|]. rewrite Hk.
    split; [discriminate|]. cbn [CrashUnified.deref].
    apply lookup_lt_is_Some_2 in Hlt. destruct Hlt as [c Hcell].
    exists c. exact Hcell. }
  pose proof (loop_inv clock n start rng) as Hinv.
  change (CrashInvariant.inv vn) in Hinv.
  destruct Hinv as [(_ & _ & Hall & _) Hcur].
  split; [eapply Forall_impl; [exact Hall|apply Hfrozen]|]. split.
  { intros cg Hcg. rewrite Hcg in Hcur.
    destruct Hcur as [(Hc & Hcl & _) _]. split; [exact Hc|].
    rewrite Hcl. reflexivity. }
  destruct (run_game_finished clock serverSeed gameID start)
    as (v & Hrun & (_ & Hf & _) & _).
  exists v. split; [exact Hrun|].
  eapply Forall_impl; [exact Hf|apply Hfrozen].
Qed.

(** X11. In every candle of the crash loop the open lies between the
    extremes (it is not above the maximum and the minimum is not above it),
    open and maximum are not negative, and no maximum is above the game's
    peak, which is the peak multiplier of the game's history entry; the
    close of the candle being built and the close of the game's last candle
    lie between their extremes too. *)
Theorem crash_candle_open_within_extremes `{Std} (clock : Z → Z)
    (serverSeed gameID : string) (start finished : Z) (n : nat) :
  let rng := Prng.NewSeededRNG (serverSeed ++ "-" ++ gameID) in
  let vn := snd (eval (for_loop CrashUnified.cond (CrashUnified.body clock) n
                         (CrashUnified.init start)) rng) in
  let within peak g :=
    F64.gt (Candle.Open g) (Candle.Max g) = false ∧
    F64.gt (Candle.Min g) (Candle.Open g) = false ∧
    F64.lt (Candle.Open g) 0 = false ∧
    F64.lt (Candle.Max g) 0 = false ∧
    F64.gt (Candle.Max g) peak = false in
  Forall (within (CrashUnified.peak vn)) (CrashUnified.groups vn) ∧
  (∀ cg, CrashUnified.currentGroup vn = Some cg →
         within (CrashUnified.peak vn) cg ∧
         F64.gt (CrashUnified.price vn) (Candle.Max cg) = false ∧
         F64.gt (Candle.Min cg) (CrashUnified.price vn) = false) ∧
  ∃ v, CrashUnified.run_game clock serverSeed gameID start = Some v ∧
       let entry := CrashUnified.history_entry gameID finished v in
       Forall (within (CrashUnified.PeakMultiplier entry))
              (CrashUnified.Candles entry) ∧
       (∀ g, last (CrashUnified.Candles entry) = Some g →
             CrashInvariant.close_within v g).
Proof.
  intros rng vn within.
  assert (Hwithin : ∀ k d pk g,
            CrashInvariant.frozen_ok k d pk g → within pk g).
  { intros k d pk g (_ & _ & _ & _ & Hs). exact Hs. }
  pose proof (loop_inv clock n start rng) as Hinv.
  change (CrashInvariant.inv vn) in Hinv.
  destruct Hinv as [(_ & _ & Hall & _) Hcur].
  split; [eapply Forall_impl; [exact Hall|apply Hwithin]|]. split.
  { intros cg Hcg. rewrite Hcg in Hcur.
    destruct Hcur as [(_ & _ & _ & Hs) (_ & Hpm & Hmp)].
    split; [exact Hs|]. split; assumption. }
  destruct (run_game_finished clock serverSeed gameID start)
    as (v & Hrun & (_ & Hf & Hlast) & _).
  exists v. split; [exact Hrun|]. cbn. split; [|exact Hlast].
  eapply Forall_impl; [exact Hf|apply Hwithin].
Qed.

Section HubChatFacts.
Context `{Std}.
Import Unified.

Lemma chatHistory_broadcast channel m s :
  chatHistory (broadcastToSubscribers channel m s) = chatHistory s.
Proof.
  unfold broadcastToSubscribers. destruct (Marshal m); reflexivity.
Qed.

Lemma chatBroadcastCh_broadcast channel m s :
  chatBroadcastCh (broadcastToSubscribers channel m s) = chatBroadcastCh s.
Proof.
  unfold broadcastToSubscribers. destruct (Marshal m); reflexivity.
Qed.

(** One message through the chat case of the hub. *)
Lemma hub_chat_history m s :
  chatHistory (hub_chat m s)
  = drop (if (100 <=? length (chatHistory s))%nat then 1 else 0)
         (chatHistory s ++ [m]).
Proof.
  unfold hub_chat. rewrite chatHistory_broadcast. cbn [chatHistory set_chatHistory].
  rewrite length_app. cbn [length]. unfold maxChatHistory.
  destruct (100 <? Z.of_nat (length (chatHistory s) + 1)) eqn:E;
    destruct (100 <=? length (chatHistory s))%nat eqn:E';
    try reflexivity.
  - apply Z.ltb_lt in E. apply Nat.leb_gt in E'. lia.
  - apply Z.ltb_ge in E. apply Nat.leb_le in E'. lia.
Qed.

(** The hub taking every queued chat message in turn. *)
Lemma run_hub_chat ms : ∀ s,
  chatBroadcastCh s = ms →
  ∃ s', run (replicate (length ms) HubChat) s = Some s' ∧
        chatBroadcastCh s' = [] ∧
        chatHistory s'
        = drop (length (chatHistory s ++ ms)
                - Nat.min (Nat.max 100 (length (chatHistory s)))
                          (length (chatHistory s ++ ms)))
               (chatHistory s ++ ms).
Proof.
  induction ms as [|m ms IH]; intros s Hq.
  - exists s. split; [reflexivity|]. split; [exact Hq|].
    rewrite app_nil_r.
    replace (_ - _)%nat with 0%nat by lia. reflexivity.
  - cbn [length replicate run perform]. rewrite Hq. cbn [mbind option_bind].
    set (s0 := set_channels (crashBroadcast s) ms (roomsBroadcast s) s).
    destruct (IH (hub_chat m s0)) as (s' & Hrun & Hq' & Hh).
    { unfold hub_chat. rewrite chatBroadcastCh_broadcast. reflexivity. }
    exists s'. split; [exact Hrun|]. split; [exact Hq'|].
    rewrite Hh. rewrite hub_chat_history.
    change (chatHistory s0) with (chatHistory s).
    set (h := chatHistory s).
    destruct (100 <=? length h)%nat eqn:E.
    + apply Nat.leb_le in E.
      rewrite <- drop_app_le by (rewrite length_app; cbn; lia).
      rewrite drop_drop. rewrite <- !app_assoc. cbn [app].
      f_equal. rewrite !length_drop, !length_app. cbn [length]. lia.
    + apply Nat.leb_gt in E. rewrite !drop_0.
      rewrite <- !app_assoc. cbn [app].
      f_equal. rewrite !length_app. cbn [length]. lia.
Qed.

End HubChatFacts.

(** X12. The chat case of [runEventHub] keeps a sliding window: after the
    hub has taken all queued chat messages, the chat history is the end of
    the old history followed by the messages, in order, of length
    min(max(100, old length), old length + messages).  From a history of at
    most 100 entries it is the last 100 and never exceeds 100; a history
    that is longer than 100, as [loadChatHistoryFromDB] can leave it by
    appending the stored messages without trimming, keeps its length for
    ever. *)
Theorem chat_history_sliding_window `{Std} (s : Unified.state) :
  let ms := Unified.chatBroadcastCh s in
  let h := Unified.chatHistory s in
  let L := Nat.min (Nat.max (Z.to_nat Unified.maxChatHistory) (length h))
                   (length (h ++ ms)) in
  (∃ s', Unified.run (replicate (length ms) Unified.HubChat) s = Some s' ∧
         Unified.chatBroadcastCh s' = [] ∧
         Unified.chatHistory s' = drop (length (h ++ ms) - L) (h ++ ms) ∧
         length (Unified.chatHistory s') = L ∧
         ((length h <= 100)%nat →
          (length (Unified.chatHistory s') <= 100)%nat) ∧
         ((100 < length h)%nat →
          length (Unified.chatHistory s') = length h)) ∧
  ∀ stored, ∃ s1,
    Unified.perform (Unified.LoadChatHistory stored) s = Some s1 ∧
    length (Unified.chatHistory s1) = (length h + length stored)%nat.
Proof.
  intros ms h L. split.
  - destruct (run_hub_chat ms s eq_refl) as (s' & Hrun & Hq & Hh).
    change (Z.to_nat Unified.maxChatHistory) with 100%nat in L.
    fold h in Hh. fold L in Hh.
    assert (Hlen : length (Unified.chatHistory s') = L).
    { rewrite Hh, length_drop. subst L. lia. }
    exists s'. split; [exact Hrun|]. split; [exact Hq|].
    split; [exact Hh|]. split; [exact Hlen|].
    rewrite Hlen. subst L. rewrite length_app. split; lia.
  - intros stored. eexists. split; [reflexivity|].
    cbn. rewrite length_app, length_fmap. reflexivity.
Qed.

Section HubDeliveryFacts.
Context `{Std}.
Import Unified.

(** What a connection's [Send] channel takes of the payloads [ds]
    broadcast on [channel]: as many as it has room for, if the connection
    is registered and subscribed. *)
Lemma deliver_many channel ds : ∀ c,
  let c' := foldl (λ c d, deliver channel d c) c ds in
  Send c' = Send c ++ (if registered c && subscribed c channel
                       then take (Z.to_nat SendCapacity - length (Send c)) ds
                       else []) ∧
  written c' = written c ∧ reading c' = reading c ∧
  registered c' = registered c ∧ Subscriptions c' = Subscriptions c ∧
  ID c' = ID c.
Proof.
  change (Z.to_nat SendCapacity) with 256%nat.
  induction ds as [|d ds IH]; intros c; cbn [foldl].
  - cbv zeta. rewrite take_nil.
    destruct (registered c && subscribed c channel);
      rewrite app_nil_r; repeat split; reflexivity.
  - specialize (IH (deliver channel d c)). cbv zeta in IH |- *.
    destruct IH as (HS & HW & HR & HG & HU & HI).
    rewrite HS, HW, HR, HG, HU, HI. clear HS HW HR HG HU HI.
    unfold deliver, subscribed.
    destruct (registered c && default false (Subscriptions c !! channel))
      eqn:E; [|rewrite E; repeat split; reflexivity].
    unfold SendCapacity.
    destruct (Z.of_nat (length (Send c)) <? 256) eqn:Er.
    + apply Z.ltb_lt in Er. cbn [enqueue Send registered Subscriptions
                                 written reading ID].
      rewrite E, length_app. cbn [length].
      replace (256 - length (Send c))%nat
        with (S (256 - (length (Send c) + 1)))%nat by lia.
      cbn [take]. rewrite <- app_assoc. repeat split; reflexivity.
    + apply Z.ltb_ge in Er. rewrite E.
      replace (256 - length (Send c))%nat with 0%nat by lia.
      rewrite !take_0. repeat split; reflexivity.
Qed.

Lemma conns_broadcast channel m s :
  conns (broadcastToSubscribers channel m s)
  = (λ c, foldl (λ c d, deliver channel d c) c (omap Marshal [m]))
    <$> conns s.
Proof.
  unfold broadcastToSubscribers. cbn [omap list_omap].
  destruct (Marshal m) as [d|]; cbn [foldl].
  - reflexivity.
  - symmetry. apply map_fmap_id.
Qed.

Lemma deliver_all_cons channel m ms (cs : gmap nat ClientConnection) :
  (λ c, foldl (λ c d, deliver channel d c) c (omap Marshal ms))
  <$> ((λ c, foldl (λ c d, deliver channel d c) c (omap Marshal [m]))
       <$> cs)
  = (λ c, foldl (λ c d, deliver channel d c) c (omap Marshal (m :: ms)))
    <$> cs.
Proof.
  rewrite <- map_fmap_compose. apply map_fmap_ext. intros p c _.
  cbn [omap list_omap compose]. destruct (Marshal m); reflexivity.
Qed.

Lemma run_hub_crash ms : ∀ s,
  crashBroadcast s = ms →
  ∃ s', run (replicate (length ms) HubCrash) s = Some s' ∧
        conns s'
        = (λ c, foldl (λ c d, deliver "crash" d c) c (omap Marshal ms))
          <$> conns s.
Proof.
  induction ms as [|m ms IH]; intros s Hq.
  - exists s. split; [reflexivity|]. symmetry. apply map_fmap_id.
  - cbn [length replicate run perform]. rewrite Hq. cbn [mbind option_bind].
    set (s0 := set_channels ms (chatBroadcastCh s) (roomsBroadcast s) s).
    destruct (IH (broadcastToSubscribers "crash" m s0))
      as (s' & Hrun & Hc).
    { unfold broadcastToSubscribers. destruct (Marshal m); reflexivity. }
    exists s'. split; [exact Hrun|].
    rewrite Hc, conns_broadcast. apply deliver_all_cons.
Qed.

Lemma run_hub_rooms ms : ∀ s,
  roomsBroadcast s = ms →
  ∃ s', run (replicate (length ms) HubRooms) s = Some s' ∧
        conns s'
        = (λ c, foldl (λ c d, deliver "rooms" d c) c (omap Marshal ms))
          <$> conns s.
Proof.
  induction ms as [|m ms IH]; intros s Hq.
  - exists s. split; [reflexivity|]. symmetry. apply map_fmap_id.
  - cbn [length replicate run perform]. rewrite Hq. cbn [mbind option_bind].
    set (s0 := set_channels (crashBroadcast s) (chatBroadcastCh s) ms s).
    destruct (IH (broadcastToSubscribers "rooms" m s0))
      as (s' & Hrun & Hc).
    { unfold broadcastToSubscribers. destruct (Marshal m); reflexivity. }
    exists s'. split; [exact Hrun|].
    rewrite Hc, conns_broadcast. apply deliver_all_cons.
Qed.

Lemma run_hub_chat_conns ms : ∀ s,
  chatBroadcastCh s = ms →
  ∃ s', run (replicate (length ms) HubChat) s = Some s' ∧
        conns s'
        = (λ c, foldl (λ c d, deliver "chat" d c) c (omap Marshal ms))
          <$> conns s.
Proof.
  induction ms as [|m ms IH]; intros s Hq.
  - exists s. split; [reflexivity|]. symmetry. apply map_fmap_id.
  - cbn [length replicate run perform]. rewrite Hq. cbn [mbind option_bind].
    set (s0 := set_channels (crashBroadcast s) ms (roomsBroadcast s) s).
    destruct (IH (hub_chat m s0)) as (s' & Hrun & Hc).
    { unfold hub_chat. rewrite chatBroadcastCh_broadcast. reflexivity. }
    exists s'. split; [exact Hrun|].
    rewrite Hc. unfold hub_chat. rewrite conns_broadcast.
    apply deliver_all_cons.
Qed.

(** From the connections after a hub run to one of them. *)
Lemma delivered_at channel ms s s' p c :
  conns s'
  = (λ c, foldl (λ c d, deliver channel d c) c (omap Marshal ms))
    <$> conns s →
  conns s !! p = Some c →
  ∃ c', conns s' !! p = Some c' ∧
        Send c' = Send c ++ (if registered c && subscribed c channel
                             then take (Z.to_nat SendCapacity
                                        - length (Send c))
                                       (omap Marshal ms)
                             else []) ∧
        written c' = written c ∧
        ((length (Send c) <= 256)%nat → (length (Send c') <= 256)%nat).
Proof.
  intros Hs Hc. rewrite Hs, lookup_fmap, Hc. cbn [fmap option_fmap option_map].
  eexists. split; [reflexivity|].
  destruct (deliver_many channel (omap Marshal ms) c)
    as (HS & HW & _).
  cbv zeta in HS, HW. split; [exact HS|]. split; [exact HW|].
  intros Hle. rewrite HS.
  change (Z.to_nat SendCapacity) with 256%nat.
  destruct (registered c && subscribed c channel);
    rewrite length_app; [rewrite length_take|cbn [length]]; lia.
Qed.

End HubDeliveryFacts.

(** X13. [broadcastToSubscribers] never blocks and never queues more than
    the 256 payloads a [Send] channel holds: when the hub takes all the
    messages queued on the crash, chat or rooms channel, a connection that
    is registered and subscribed to that channel gets, in order, the
    encodable messages its [Send] channel has room for and silently loses
    the rest; any other connection gets none, and nothing is written to a
    socket by the hub. *)
Theorem hub_broadcast_fills_then_drops `{Std} (s : Unified.state) (p : nat)
    (c : Unified.ClientConnection) :
  Unified.conns s !! p = Some c →
  let outcome (a : Unified.action) (channel : string)
              (queue : list Unified.message) :=
    ∃ s' c',
      Unified.run (replicate (length queue) a) s = Some s' ∧
      Unified.conns s' !! p = Some c' ∧
      Unified.Send c'
      = Unified.Send c
        ++ (if Unified.registered c && Unified.subscribed c channel
            then take (Z.to_nat Unified.SendCapacity
                       - length (Unified.Send c))
                      (omap Unified.Marshal queue)
            else []) ∧
      Unified.written c' = Unified.written c ∧
      ((length (Unified.Send c) <= 256)%nat →
       (length (Unified.Send c') <= 256)%nat) in
  outcome Unified.HubCrash "crash"%string (Unified.crashBroadcast s) ∧
  outcome Unified.HubChat "chat"%string (Unified.chatBroadcastCh s) ∧
  outcome Unified.HubRooms "rooms"%string (Unified.roomsBroadcast s).
Proof.
  intros Hc outcome. subst outcome. cbv beta.
  split; [|split].
  - destruct (run_hub_crash _ s eq_refl) as (s' & Hrun & Hs).
    destruct (delivered_at _ _ _ _ p c Hs Hc) as (c' & Hc' & Hrest).
    exists s', c'. split; [exact Hrun|]. split; [exact Hc'|exact Hrest].
  - destruct (run_hub_chat_conns _ s eq_refl) as (s' & Hrun & Hs).
    destruct (delivered_at _ _ _ _ p c Hs Hc) as (c' & Hc' & Hrest).
    exists s', c'. split; [exact Hrun|]. split; [exact Hc'|exact Hrest].
  - destruct (run_hub_rooms _ s eq_refl) as (s' & Hrun & Hs).
    destruct (delivered_at _ _ _ _ p c Hs Hc) as (c' & Hc' & Hrest).
    exists s', c'. split; [exact Hrun|]. split; [exact Hc'|exact Hrest].
Qed.

Section HubClosedFacts.
Context `{Std}.
Import Unified HubRuns.

Lemma deliver_unregistered channel d c :
  registered c = false → deliver channel d c = c.
Proof. intros Hr. unfold deliver. rewrite Hr. reflexivity. Qed.

Lemma broadcast_unregistered channel m s p c :
  conns s !! p = Some c → registered c = false →
  conns (broadcastToSubscribers channel m s) !! p = Some c.
Proof.
  intros Hc Hr. unfold broadcastToSubscribers.
  destruct (Marshal m) as [d|]; [|exact Hc].
  cbn. rewrite lookup_fmap, Hc. cbn.
  rewrite deliver_unregistered by exact Hr. reflexivity.
Qed.

Lemma private_unregistered client userId m s p c :
  conns s !! p = Some c → registered c = false →
  conns (sendPrivateMessage client userId m s) !! p = Some c.
Proof.
  intros Hc Hr. unfold sendPrivateMessage.
  destruct (find_user userId s) as [q|] eqn:Hq; [|exact Hc].
  destruct (find_user_spec userId s q Hq) as (cq & Hcq & Hreg & _).
  destruct (Marshal m) as [d|]; [|exact Hc].
  rewrite Hcq. cbn.
  rewrite lookup_insert_ne; [exact Hc|].
  intros ->. rewrite Hc in Hcq. injection Hcq as <-. congruence.
Qed.

Lemma cashout_unregistered client data s s' p c :
  handleCrashCashout client data s = Some s' →
  conns s !! p = Some c → registered c = false →
  conns s' !! p = Some c.
Proof.
  unfold handleCrashCashout. intros Hrun Hc Hr.
  destruct (as_string data "playerAddress") as [pa|]; [|discriminate].
  destruct (as_string data "userId") as [u|]; [|discriminate].
  destruct (as_string data "gameId") as [g|]; [|discriminate].
  destruct (as_float64 data "cashoutMultiplier") as [cm|]; [|discriminate].
  destruct (as_float64 data "betAmount") as [ba|]; [|discriminate].
  destruct (as_float64 data "entryMultiplier") as [em|]; [|discriminate].
  simpl in Hrun.
  match type of Hrun with
  | (?e ≫= _) = _ => destruct e as [s1|] eqn:Hs1; [|discriminate]
  end.
  simpl in Hrun. injection Hrun as <-.
  apply private_unregistered; [|exact Hr].
  rewrite conns_RemoveActiveBettor. simpl.
  destruct (contractClient s); [|injection Hs1 as <-; assumption].
  destruct (F64.IsNaN _); [discriminate|].
  injection Hs1 as <-. assumption.
Qed.

(** A connection that has been unregistered stays so, and the only thing
    that happens to its [Send] channel is that its writer drains it. *)
Lemma perform_closed a s s' p c :
  perform a s = Some s' → conns s !! p = Some c →
  registered c = false → reading c = Exited →
  ∃ c' k, conns s' !! p = Some c' ∧ registered c' = false ∧
          reading c' = Exited ∧ stream c' = stream c ∧
          Send c' = drop k (Send c) ∧
          Subscriptions c' = Subscriptions c.
Proof.
  intros Hrun Hc Hr Hx.
  assert (Hsame : conns s' !! p = Some c →
            ∃ c' k, conns s' !! p = Some c' ∧ registered c' = false ∧
                    reading c' = Exited ∧ stream c' = stream c ∧
                    Send c' = drop k (Send c) ∧
                    Subscriptions c' = Subscriptions c).
  { intros Hc'. exists c, 0%nat. rewrite drop_0.
    repeat split; assumption. }
  assert (Hidle : idle p s = None).
  { unfold idle. rewrite Hc. cbn. rewrite Hx. reflexivity. }
  destruct a as [q id|q|q|channel m|q m|messages| | | |q channel|q|q|q
                 |q channel|q roomID|q data now|q data|q];
    cbn [perform] in Hrun.
  - (* Connect *)
    destruct (conns s !! q) eqn:Hq; [discriminate|].
    injection Hrun as <-. apply Hsame. cbn.
    rewrite lookup_insert_ne by congruence. exact Hc.
  - (* Register *)
    destruct (decide (q = p)) as [->|Hne].
    + rewrite Hc in Hrun. cbn in Hrun. rewrite Hx in Hrun. discriminate.
    + destruct (conns s !! q) as [cq|]; [|discriminate]. cbn in Hrun.
      apply Hsame.
      destruct (reading cq); try discriminate; injection Hrun as <-;
        cbn; rewrite lookup_insert_ne by assumption; exact Hc.
  - (* Unregister *)
    destruct (decide (q = p)) as [->|Hne].
    + rewrite Hidle in Hrun. discriminate.
    + destruct (idle q s) as [cq|]; [|discriminate]. cbn in Hrun.
      injection Hrun as <-. apply Hsame. cbn.
      rewrite lookup_insert_ne by assumption. exact Hc.
  - (* Produce *)
    apply Hsame.
    destruct (String.eqb channel "crash").
    + destruct (channel_has_room _); [|discriminate].
      injection Hrun as <-. exact Hc.
    + destruct (String.eqb channel "rooms"); [|discriminate].
      destruct (channel_has_room _); [|discriminate].
      injection Hrun as <-. exact Hc.
  - (* DirectWrite *)
    destruct (conns s !! q) as [cq|] eqn:Hq; [|discriminate].
    cbn in Hrun. injection Hrun as <-.
    destruct (decide (q = p)) as [->|Hne].
    + rewrite Hc in Hq. injection Hq as <-.
      exists (writeJSON m c), 0%nat. cbn. rewrite lookup_insert_eq, drop_0.
      split; [reflexivity|].
      rewrite stream_writeJSON, reading_writeJSON.
      unfold writeJSON. destruct (Marshal m); repeat split; assumption.
    + apply Hsame. cbn. rewrite lookup_insert_ne by assumption. exact Hc.
  - (* LoadChatHistory *)
    injection Hrun as <-. apply Hsame. exact Hc.
  - (* HubCrash *)
    destruct (crashBroadcast s) as [|m rest]; [discriminate|].
    injection Hrun as <-. apply Hsame.
    apply broadcast_unregistered; assumption.
  - (* HubChat *)
    destruct (chatBroadcastCh s) as [|m rest]; [discriminate|].
    injection Hrun as <-. apply Hsame. unfold hub_chat.
    apply broadcast_unregistered; assumption.
  - (* HubRooms *)
    destruct (roomsBroadcast s) as [|m rest]; [discriminate|].
    injection Hrun as <-. apply Hsame.
    apply broadcast_unregistered; assumption.
  - (* Subscribe *)
    destruct (decide (q = p)) as [->|Hne].
    + rewrite Hidle in Hrun. discriminate.
    + destruct (idle q s) as [cq|]; [|discriminate]. cbn in Hrun.
      injection Hrun as <-. apply Hsame. cbn.
      rewrite lookup_insert_ne by assumption. exact Hc.
  - (* InitialData *)
    destruct (decide (q = p)) as [->|Hne].
    + rewrite Hc in Hrun. cbn in Hrun. rewrite Hx in Hrun. discriminate.
    + destruct (conns s !! q) as [cq|]; [|discriminate]. cbn in Hrun.
      apply Hsame.
      destruct (reading cq) as [|channel| |]; try discriminate.
      destruct (String.eqb channel "chat");
        [|destruct (String.eqb channel "crash")];
        injection Hrun as <-; cbn;
        rewrite lookup_insert_ne by assumption; exact Hc.
  - (* SendHistoryMessage *)
    destruct (decide (q = p)) as [->|Hne].
    + rewrite Hc in Hrun. cbn in Hrun. rewrite Hx in Hrun. discriminate.
    + destruct (conns s !! q) as [cq|]; [|discriminate]. cbn in Hrun.
      destruct (reading cq) as [| |[|m rest]|]; try discriminate.
      destruct (has_room cq); [|discriminate].
      injection Hrun as <-. apply Hsame. cbn.
      rewrite lookup_insert_ne by assumption. exact Hc.
  - (* Return *)
    destruct (decide (q = p)) as [->|Hne].
    + rewrite Hc in Hrun. cbn in Hrun. rewrite Hx in Hrun. discriminate.
    + destruct (conns s !! q) as [cq|]; [|discriminate]. cbn in Hrun.
      destruct (reading cq) as [| |[|m rest]|]; try discriminate.
      injection Hrun as <-. apply Hsame. cbn.
      rewrite lookup_insert_ne by assumption. exact Hc.
  - (* Unsubscribe *)
    destruct (decide (q = p)) as [->|Hne].
    + rewrite Hidle in Hrun. discriminate.
    + destruct (idle q s) as [cq|]; [|discriminate]. cbn in Hrun.
      injection Hrun as <-. apply Hsame. cbn.
      rewrite lookup_insert_ne by assumption. exact Hc.
  - (* JoinCandleflipRoom *)
    destruct (decide (q = p)) as [->|Hne].
    + rewrite Hidle in Hrun. discriminate.
    + destruct (idle q s) as [cq|]; [|discriminate]. cbn in Hrun.
      injection Hrun as <-. apply Hsame. cbn.
      rewrite lookup_insert_ne by assumption. exact Hc.
  - (* ChatMessage *)
    destruct (idle q s); [|discriminate]. cbn in Hrun.
    destruct (channel_has_room _); [|discriminate].
    unfold handleChatMessage in Hrun.
    destruct (as_string data "message"); [|discriminate]. cbn in Hrun.
    destruct (conns s !! q); [|discriminate]. cbn in Hrun.
    injection Hrun as <-. apply Hsame. exact Hc.
  - (* CrashCashout *)
    destruct (idle q s); [|discriminate]. cbn in Hrun.
    destruct (cashout_blocks data s); [discriminate|].
    apply Hsame. eapply cashout_unregistered; eassumption.
  - (* WritePump *)
    destruct (conns s !! q) as [cq|] eqn:Hq; [|discriminate].
    cbn in Hrun. destruct (Send cq) as [|d rest] eqn:Hsend;
      [discriminate|].
    injection Hrun as <-.
    destruct (decide (q = p)) as [->|Hne].
    + rewrite Hc in Hq. injection Hq as <-.
      exists (write Pumped d (dequeue c)), 1%nat. cbn.
      rewrite lookup_insert_eq. split; [reflexivity|].
      split; [exact Hr|]. split; [exact Hx|]. split.
      * apply stream_pump. rewrite Hsend. reflexivity.
      * split; [|reflexivity]. rewrite Hsend. reflexivity.
    + apply Hsame. cbn. rewrite lookup_insert_ne by assumption. exact Hc.
Qed.

Lemma run_closed tr : ∀ s s' p c,
  run tr s = Some s' → conns s !! p = Some c →
  registered c = false → reading c = Exited →
  ∃ c' k, conns s' !! p = Some c' ∧ registered c' = false ∧
          reading c' = Exited ∧ stream c' = stream c ∧
          Send c' = drop k (Send c) ∧
          Subscriptions c' = Subscriptions c.
Proof.
  induction tr as [|a tr IH]; intros s s' p c Hrun Hc Hr Hx;
    cbn [run] in Hrun.
  - injection Hrun as <-. exists c, 0%nat. rewrite drop_0.
    repeat split; assumption.
  - destruct (perform a s) as [s1|] eqn:Ha; [|discriminate].
    cbn in Hrun.
    destruct (perform_closed a s s1 p c Ha Hc Hr Hx)
      as (c1 & k1 & Hc1 & Hr1 & Hx1 & Hs1 & Hd1 & Hu1).
    destruct (IH s1 s' p c1 Hrun Hc1 Hr1 Hx1)
      as (c' & k & Hc' & Hr' & Hx' & Hs' & Hd' & Hu').
    exists c', (k1 + k)%nat. split; [exact Hc'|].
    split; [exact Hr'|]. split; [exact Hx'|].
    split; [congruence|]. split; [|congruence].
    rewrite Hd', Hd1, drop_drop. reflexivity.
Qed.

End HubClosedFacts.

(** X14. Nothing is sent on a closed [Send] channel: once the hub has
    unregistered a connection (deleting it from [clients] and closing its
    [Send] channel), no later action of any goroutine, whether a hub
    broadcast, a private cashout result or a handler of the connection
    itself, puts a payload in that channel or registers the connection
    again; the channel can only be drained by its writer, so what it has
    carried stays what it was. *)
Theorem no_send_after_unregister `{Std} (p : nat)
    (tr : list Unified.action) (s s' : Unified.state) :
  Unified.run (Unified.Unregister p :: tr) s = Some s' →
  ∃ c c' k,
    Unified.conns s !! p = Some c ∧ Unified.conns s' !! p = Some c' ∧
    Unified.registered c' = false ∧
    Unified.reading c' = Unified.Exited ∧
    Unified.Send c' = drop k (Unified.Send c) ∧
    Unified.stream c' = Unified.stream c ∧
    ∀ a, HubRuns.actor a = Some p ∨ a = Unified.Register p →
         Unified.perform a s' = None.
Proof.
  intros Hrun. cbn [Unified.run Unified.perform] in Hrun.
  unfold Unified.idle in Hrun.
  destruct (Unified.conns s !! p) as [c|] eqn:Hc; [|discriminate].
  cbn in Hrun. destruct (Unified.reading c) eqn:Hidle; try discriminate.
  cbn in Hrun.
  match type of Hrun with
  | Unified.run tr ?s1 = _ =>
      destruct (run_closed tr s1 s' p
                  (Unified.set_reading Unified.Exited
                     (Unified.set_registered false c)) Hrun)
        as (c' & k & Hc' & Hr' & Hx' & Hs' & Hd' & _)
  end.
  { cbn. apply lookup_insert_eq. }
  { reflexivity. }
  { reflexivity. }
  exists c, c', k. split; [reflexivity|]. split; [exact Hc'|].
  split; [exact Hr'|]. split; [exact Hx'|]. split; [exact Hd'|].
  split; [exact Hs'|].
  intros a [Ha| ->].
  - destruct a; cbn in Ha; try discriminate; injection Ha as ->;
      cbn [Unified.perform]; unfold Unified.idle; rewrite Hc'; cbn;
      rewrite Hx'; reflexivity.
  - cbn [Unified.perform]. rewrite Hc'. cbn. rewrite Hx'. reflexivity.
Qed.

(** A slow subscriber: of two crash messages, the one free slot takes the
    first and the second is lost. *)
Lemma hub_broadcast_fills_then_drops_witness :
  ∃ s' c',
    @Unified.run ChatExample.lib
      [Unified.HubCrash; Unified.HubCrash] HubExample.hub = Some s' ∧
    Unified.conns s' !! 0%nat = Some c' ∧
    Unified.Send c'
    = Unified.Send HubExample.slow ++ [Unified.Encoded HubExample.tick1].
Proof.
  destruct (@hub_broadcast_fills_then_drops ChatExample.lib HubExample.hub
              0%nat HubExample.slow eq_refl)
    as [(s' & c' & Hrun & Hc & HS & _) _].
  exists s', c'. split; [exact Hrun|]. split; [exact Hc|].
  rewrite HS. vm_compute. reflexivity.
Defined.

(** A connection that joined the chat and left: the message published
    afterwards does not reach its channel. *)
Lemma no_send_after_unregister_witness :
  ∃ c c' k,
    Unified.conns (ChatExample.after HubExample.joined) !! 0%nat = Some c ∧
    Unified.conns
      (ChatExample.after
         (HubExample.joined
            ++ Unified.Unregister 0 :: HubExample.afterwards)) !! 0%nat
    = Some c' ∧
    Unified.registered c' = false ∧
    Unified.reading c' = Unified.Exited ∧
    Unified.Send c' = drop k (Unified.Send c) ∧
    Unified.stream c' = Unified.stream c ∧
    ∀ a, HubRuns.actor a = Some 0%nat ∨ a = Unified.Register 0 →
         @Unified.perform ChatExample.lib a
           (ChatExample.after
              (HubExample.joined
                 ++ Unified.Unregister 0 :: HubExample.afterwards))
         = None.
Proof.
  apply (@no_send_after_unregister ChatExample.lib 0%nat
           HubExample.afterwards (ChatExample.after HubExample.joined)).
  vm_compute. reflexivity.
Defined.

Section BettorsFacts.
Import Unified Bettors.

(** The addresses of the bettors listed are the keys of the registry when
    every bettor is stored under its own address. *)
Lemma listed_addresses (m : gmap string ActiveBettor) :
  (∀ a b, m !! a = Some b → Address b = a) →
  Address <$> (snd <$> map_to_list m) = fst <$> map_to_list m.
Proof.
  intros Hk. rewrite <- list_fmap_compose.
  apply list_eq. intros i. rewrite !list_lookup_fmap.
  destruct (map_to_list m !! i) as [[a b]|] eqn:Hi; [|reflexivity].
  cbn. f_equal. apply Hk. apply elem_of_map_to_list.
  eapply list_elem_of_lookup_2. exact Hi.
Qed.

Lemma listed_NoDup (m : gmap string ActiveBettor) :
  (∀ a b, m !! a = Some b → Address b = a) →
  NoDup (Address <$> (snd <$> map_to_list m)).
Proof.
  intros Hk. rewrite listed_addresses by exact Hk.
  apply NoDup_fst_map_to_list.
Qed.

Lemma listed_length (m : gmap string ActiveBettor) :
  length (snd <$> map_to_list m) = size m.
Proof. rewrite length_fmap. apply length_map_to_list. Qed.

(** One call: either nothing at all changes, or the registry is published
    as the call leaves it. *)
Lemma apply_step o s :
  (∀ a b, activeBettors s !! a = Some b → Address b = a) →
  (∀ a b, activeBettors (apply o s) !! a = Some b → Address b = a) ∧
  (apply o s = s ∨
   crashBroadcast (apply o s)
   = crashBroadcast s
     ++ [active_bettors (snd <$> map_to_list (activeBettors (apply o s)))
           (Z.of_nat (length (snd <$> map_to_list
                                        (activeBettors (apply o s)))))]).
Proof.
  intros Hk. destruct o as [address amount multiplier now|address|];
    cbn [apply].
  - unfold AddActiveBettor, broadcastActiveBettors. cbn. split.
    + intros a b. destruct (decide (a = address)) as [->|Hne].
      * rewrite lookup_insert_eq. intros [= <-]. reflexivity.
      * rewrite lookup_insert_ne by congruence. apply Hk.
    + right. reflexivity.
  - unfold RemoveActiveBettor.
    destruct (activeBettors s !! address) as [b0|] eqn:Ha.
    + unfold broadcastActiveBettors. cbn. split.
      * intros a b Hab. apply lookup_delete_Some in Hab.
        apply Hk. tauto.
      * right. reflexivity.
    + split; [exact Hk|left; reflexivity].
  - unfold ClearActiveBettors.
    destruct (0 <? Z.of_nat (size (activeBettors s))) eqn:E.
    + unfold broadcastActiveBettors. cbn. split.
      * intros a b. rewrite lookup_empty. discriminate.
      * right. reflexivity.
    + apply Z.ltb_ge in E.
      assert (Hempty : activeBettors s = ∅).
      { apply map_size_empty_iff. lia. }
      split.
      * cbn. intros a b. rewrite lookup_empty. discriminate.
      * left. destruct s. cbn in Hempty. subst. reflexivity.
Qed.

Lemma apply_all_spec ops : ∀ s,
  (∀ a b, activeBettors s !! a = Some b → Address b = a) →
  let s' := apply_all ops s in
  (∀ a b, activeBettors s' !! a = Some b → Address b = a) ∧
  ∃ msgs,
    crashBroadcast s' = crashBroadcast s ++ msgs ∧
    (length msgs <= length ops)%nat ∧
    Forall (λ m, ∃ l, m = active_bettors l (Z.of_nat (length l)) ∧
                      NoDup (Address <$> l)) msgs ∧
    (∀ m, last msgs = Some m →
          m = active_bettors (snd <$> map_to_list (activeBettors s'))
                (Z.of_nat (size (activeBettors s')))) ∧
    (msgs = [] → s' = s).
Proof.
  induction ops as [|o ops IH]; intros s Hk; cbv zeta.
  - cbn [apply_all foldl]. split; [exact Hk|]. exists [].
    rewrite app_nil_r. repeat split; try reflexivity.
    + constructor.
    + intros m. discriminate.
  - change (apply_all (o :: ops) s) with (apply_all ops (apply o s)).
    destruct (apply_step o s Hk) as [Hk1 Hstep].
    destruct (IH (apply o s) Hk1) as (Hk' & msgs & Hq & Hlen & Hall
                                       & Hlast & Hnil).
    cbv zeta in Hk', Hq, Hlast, Hnil. split; [exact Hk'|].
    clear Hk'. destruct Hstep as [Hsame|Hpub].
    + rewrite Hsame in Hq, Hlast, Hnil |- *.
      exists msgs. split; [exact Hq|].
      split; [cbn [length]; lia|]. split; [exact Hall|].
      split; [exact Hlast|exact Hnil].
    + eexists (_ :: msgs). rewrite Hq, Hpub, <- app_assoc.
      split; [reflexivity|]. split; [cbn [length]; lia|]. split.
      * constructor; [|exact Hall]. eexists. split; [reflexivity|].
        apply listed_NoDup. exact Hk1.
      * split; [|discriminate]. intros m.
        destruct msgs as [|m' msgs'] eqn:Hm.
        -- cbn. intros [= <-]. rewrite (Hnil eq_refl).
           rewrite listed_length. reflexivity.
        -- rewrite last_cons. rewrite <- Hm in *.
           destruct (last msgs) eqn:Hl.
           ++ intros [= <-]. apply Hlast. reflexivity.
           ++ apply last_None in Hl. congruence.
Qed.

Lemma activeBettors_sendPrivateMessage client userId m s :
  activeBettors (sendPrivateMessage client userId m s) = activeBettors s.
Proof.
  unfold sendPrivateMessage. destruct (find_user userId s); [|reflexivity].
  destruct (Marshal m); [|reflexivity].
  destruct (conns s !! n); reflexivity.
Qed.

Lemma crashBroadcast_sendPrivateMessage client userId m s :
  crashBroadcast (sendPrivateMessage client userId m s) = crashBroadcast s.
Proof.
  unfold sendPrivateMessage. destruct (find_user userId s); [|reflexivity].
  destruct (Marshal m); [|reflexivity].
  destruct (conns s !! n); reflexivity.
Qed.

End BettorsFacts.

(** X15. The registry of active bettors holds one bet per address, and
    every "active_bettors" message reports it faithfully: starting from the
    empty registry, after any sequence of [AddActiveBettor],
    [RemoveActiveBettor] and [ClearActiveBettors] calls each message
    published lists no address twice and carries the length of its list as
    count, at most one message is published per call (none by a call that
    changes nothing), and the last message published lists the registry as
    it is at the end. *)
Theorem active_bettors_messages_consistent (ops : list Bettors.operation)
    (s : Unified.state) :
  let s' := Bettors.apply_all ops (Bettors.no_bettors s) in
  (∀ a b, Unified.activeBettors s' !! a = Some b → Unified.Address b = a) ∧
  ∃ msgs,
    Unified.crashBroadcast s' = Unified.crashBroadcast s ++ msgs ∧
    (length msgs <= length ops)%nat ∧
    Forall (λ m, ∃ l, m = Unified.active_bettors l (Z.of_nat (length l)) ∧
                      NoDup (Unified.Address <$> l)) msgs ∧
    (∀ m, last msgs = Some m →
          ∃ l, m = Unified.active_bettors l
                     (Z.of_nat (size (Unified.activeBettors s'))) ∧
               l ≡ₚ Bettors.GetActiveBettors s') ∧
    (msgs = [] → Unified.activeBettors s' = ∅).
Proof.
  intros s'.
  destruct (apply_all_spec ops (Bettors.no_bettors s))
    as (Hk & msgs & Hq & Hlen & Hall & Hlast & Hnil).
  { cbn. intros a b. rewrite lookup_empty. discriminate. }
  cbv zeta in Hk, Hq, Hlast, Hnil. fold s' in Hk, Hq, Hlast, Hnil.
  split; [exact Hk|]. exists msgs. split; [exact Hq|].
  split; [exact Hlen|]. split; [exact Hall|]. split.
  - intros m Hm. eexists. split; [apply Hlast; exact Hm|]. reflexivity.
  - intros Hm. rewrite (Hnil Hm). reflexivity.
Qed.

(** X16. Placing a bet and cashing it out compose to a removal: after
    [handleCrashBetPlaced] the registry holds, under the player's address,
    the amount and entry multiplier of the message (replacing any earlier
    bet of that address), the database record has the message's fields and
    the status "active", and after [handleCrashCashout] for the same
    address the registry is the original one without that address; each of
    the two handlers publishes one "active_bettors" message whose count is
    the size of the registry it leaves. *)
Theorem bet_then_cashout_clears_bettor `{Std} (client client' : nat)
    (bet cashout : gmap string Unified.json) (created now : Z)
    (s s1 s2 : Unified.state) (record : Bettors.CrashBetRecord) :
  Bettors.handleCrashBetPlaced client bet created now s
  = Some (record, s1) →
  Unified.handleCrashCashout client' cashout s1 = Some s2 →
  Unified.as_string cashout "playerAddress"
  = Unified.as_string bet "playerAddress" →
  ∃ address amount multiplier,
    Unified.as_string bet "playerAddress" = Some address ∧
    Unified.as_float64 bet "betAmount" = Some amount ∧
    Unified.as_float64 bet "entryMultiplier" = Some multiplier ∧
    Bettors.PlayerAddress record = address ∧
    Bettors.BetAmount record = amount ∧
    Bettors.EntryMultiplier record = multiplier ∧
    Bettors.Status record = "active"%string ∧
    Unified.activeBettors s1
    = <[address := {| Unified.Address := address;
                      Unified.BetAmount := amount;
                      Unified.EntryMultiplier := multiplier;
                      Unified.BetTime := now |}]>
        (Unified.activeBettors s) ∧
    Unified.activeBettors s2 = delete address (Unified.activeBettors s) ∧
    (Unified.activeBettors s !! address = None →
     Unified.activeBettors s2 = Unified.activeBettors s) ∧
    ∃ l1 l2,
      Unified.crashBroadcast s2
      = Unified.crashBroadcast s
        ++ [Unified.active_bettors l1
              (Z.of_nat (size (Unified.activeBettors s1)));
            Unified.active_bettors l2
              (Z.of_nat (size (Unified.activeBettors s2)))].
Proof.
  unfold Bettors.handleCrashBetPlaced, Unified.handleCrashCashout.
  intros Hbet Hcash Haddr.
  destruct (Unified.as_string bet "playerAddress") as [address|];
    [|discriminate].
  destruct (Unified.as_string bet "userId") as [userId|]; [|discriminate].
  destruct (Unified.as_string bet "gameId") as [gameId|]; [|discriminate].
  destruct (Unified.as_float64 bet "betAmount") as [amount|];
    [|discriminate].
  destruct (Unified.as_float64 bet "entryMultiplier") as [multiplier|];
    [|discriminate].
  destruct (Unified.as_string bet "transactionHash") as [hash|];
    [|discriminate].
  cbn in Hbet. injection Hbet as <- <-.
  rewrite Haddr in Hcash. cbn in Hcash.
  destruct (Unified.as_string cashout "userId") as [u|]; [|discriminate].
  destruct (Unified.as_string cashout "gameId") as [g|]; [|discriminate].
  destruct (Unified.as_float64 cashout "cashoutMultiplier") as [cm|];
    [|discriminate].
  destruct (Unified.as_float64 cashout "betAmount") as [ba|];
    [|discriminate].
  destruct (Unified.as_float64 cashout "entryMultiplier") as [em|];
    [|discriminate].
  cbn in Hcash.
  match type of Hcash with
  | (?e ≫= _) = _ => destruct e as [s0|] eqn:Hs0; [|discriminate]
  end.
  cbn in Hcash. injection Hcash as <-.
  exists address, amount, multiplier.
  do 7 (split; [reflexivity|]).
  rewrite activeBettors_sendPrivateMessage, crashBroadcast_sendPrivateMessage.
  set (b := {| Unified.Address := address; Unified.BetAmount := amount;
               Unified.EntryMultiplier := multiplier;
               Unified.BetTime := now |}) in *.
  assert (Hab : Unified.activeBettors s0
                = <[address := b]> (Unified.activeBettors s) ∧
                Unified.crashBroadcast s0
                = Unified.crashBroadcast s
                  ++ [Unified.active_bettors
                        (snd <$> map_to_list
                                   (<[address := b]>
                                      (Unified.activeBettors s)))
                        (Z.of_nat (length
                           (snd <$> map_to_list
                                      (<[address := b]>
                                         (Unified.activeBettors s)))))]).
  { revert Hs0. cbn.
    destruct (Unified.contractClient s).
    - destruct (F64.IsNaN _); [discriminate|]. intros [= <-].
      split; reflexivity.
    - intros [= <-]. split; reflexivity. }
  destruct Hab as [Hab Hq].
  unfold Unified.RemoveActiveBettor.
  cbn [Unified.activeBettors Unified.spawn]. rewrite Hab.
  rewrite lookup_insert_eq.
  unfold Unified.broadcastActiveBettors. cbn.
  rewrite Hq, !delete_insert_eq.
  split; [reflexivity|]. split; [reflexivity|]. split.
  - intros Hnone. apply delete_id. exact Hnone.
  - eexists _, _. rewrite <- app_assoc. cbn [app].
    rewrite !listed_length. reflexivity.
Qed.

(** A bet of 0.2 by "0xA" and its cashout, from an empty registry: the
    registry is empty again. *)
Lemma bet_then_cashout_clears_bettor_witness :
  ∃ s2,
    (Bettors.handleCrashBetPlaced 0 HubExample.bet 1 2 CashoutExample.hub
       ≫= λ rs, @Unified.handleCrashCashout CashoutExample.lib 0
                  CashoutExample.data rs.2) = Some s2 ∧
    Unified.activeBettors s2 = ∅.
Proof.
  destruct (Bettors.handleCrashBetPlaced 0 HubExample.bet 1 2
              CashoutExample.hub) as [[record s1]|] eqn:E1;
    [|vm_compute in E1; discriminate].
  cbn [mbind option_bind snd].
  destruct (@Unified.handleCrashCashout CashoutExample.lib 0
              CashoutExample.data s1) as [s2|] eqn:E2.
  - exists s2. split; [reflexivity|].
    destruct (@bet_then_cashout_clears_bettor CashoutExample.lib 0%nat 0%nat
                HubExample.bet CashoutExample.data 1 2 CashoutExample.hub
                s1 s2 record E1 E2 eq_refl)
      as (address & amount & multiplier & _ & _ & _ & _ & _ & _ & _ & _
          & Hdel & _).
    rewrite Hdel. apply delete_empty.
  - exfalso. vm_compute in E1. injection E1 as <- <-.
    vm_compute in E2. discriminate.
Defined.

Section ChatFacts.
Context `{Std}.
Import Unified.

Lemma hub_chat_last m s : last (chatHistory (hub_chat m s)) = Some m.
Proof.
  rewrite hub_chat_history.
  destruct (100 <=? length (chatHistory s))%nat eqn:E.
  - apply Nat.leb_le in E.
    destruct (chatHistory s) as [|x h]; [cbn in E; lia|].
    cbn [app drop]. rewrite drop_0. apply last_snoc.
  - rewrite drop_0. apply last_snoc.
Qed.

Lemma hub_chat_conns m s :
  marshalable m = true →
  conns (hub_chat m s) = deliver "chat" (Encoded m) <$> conns s.
Proof.
  intros Hm. unfold hub_chat, broadcastToSubscribers, Marshal.
  rewrite Hm. reflexivity.
Qed.

Lemma hub_chat_tasks m s : tasks (hub_chat m s) = tasks s.
Proof.
  unfold hub_chat, broadcastToSubscribers.
  destruct (Marshal m); reflexivity.
Qed.

End ChatFacts.

(** X17. A chat message goes from its sender to the subscribers through the
    hub: for an inbound "chat_message" of an idle connection, with the chat
    channel empty, [handleChatMessage] followed by the chat case of the hub
    makes the message the last entry of the chat history, starts the
    storing of it, and puts it in the [Send] channel of exactly the
    registered connections that are subscribed to "chat" and have room.
    The address published is the one the message carries, and the sender's
    connection ID only when the message has no "playerAddress" string or an
    empty one; a message without a "message" string makes the handler
    panic. *)
Theorem chat_message_published `{Std} (p : nat)
    (data : gmap string Unified.json) (now : string) (s : Unified.state)
    (c : Unified.ClientConnection) :
  Unified.conns s !! p = Some c →
  Unified.reading c = Unified.Idle →
  Unified.chatBroadcastCh s = [] →
  match Unified.as_string data "message" with
  | None => Unified.handleChatMessage p data now s = None
  | Some text =>
      ∃ playerAddress s',
        Unified.run [Unified.ChatMessage p data now; Unified.HubChat] s
        = Some s' ∧
        (∀ addr, Unified.as_string data "playerAddress" = Some addr →
                 addr ≠ ""%string → playerAddress = addr) ∧
        (Unified.as_string data "playerAddress" = None ∨
         Unified.as_string data "playerAddress" = Some ""%string →
         playerAddress = Unified.ID c) ∧
        last (Unified.chatHistory s')
        = Some (Unified.chat_message playerAddress text now) ∧
        Unified.tasks s'
        = Unified.tasks s
          ++ [Unified.StoreChatMessage playerAddress text now] ∧
        Unified.chatBroadcastCh s' = [] ∧
        ∀ q cq, Unified.conns s !! q = Some cq →
          ∃ cq', Unified.conns s' !! q = Some cq' ∧
                 Unified.written cq' = Unified.written cq ∧
                 Unified.Send cq'
                 = if Unified.registered cq
                      && Unified.subscribed cq "chat"
                      && Unified.has_room cq
                   then Unified.Send cq
                        ++ [Unified.Encoded
                              (Unified.chat_message playerAddress text now)]
                   else Unified.Send cq
  end.
Proof.
  intros Hc Hidle Hq.
  destruct (Unified.as_string data "message") as [text|] eqn:Htext.
  - set (playerAddress :=
           match Unified.as_string data "playerAddress" with
           | Some addr => if String.eqb addr "" then Unified.ID c else addr
           | None => Unified.ID c
           end).
    exists playerAddress.
    cbn [Unified.run Unified.perform]. unfold Unified.idle.
    rewrite Hc. cbn [mbind option_bind]. rewrite Hidle.
    cbn [mbind option_bind]. rewrite Hq.
    change (Unified.channel_has_room []) with true. cbv iota.
    unfold Unified.handleChatMessage. rewrite Htext, Hc.
    cbn [mbind option_bind]. fold playerAddress.
    cbn [Unified.chatBroadcastCh Unified.set_channels Unified.spawn app].
    rewrite Hq. cbn [app mbind option_bind].
    eexists. split; [reflexivity|].
    split.
    { intros addr Ha Hne. subst playerAddress. rewrite Ha.
      destruct (String.eqb addr "") eqn:E; [|reflexivity].
      apply String.eqb_eq in E. contradiction. }
    split.
    { intros [Ha|Ha]; subst playerAddress; rewrite Ha; reflexivity. }
    split; [apply hub_chat_last|].
    split; [rewrite hub_chat_tasks; reflexivity|].
    split.
    { unfold Unified.hub_chat. rewrite chatBroadcastCh_broadcast.
      reflexivity. }
    intros q cq Hcq. rewrite hub_chat_conns by reflexivity.
    cbn [Unified.conns Unified.set_channels Unified.spawn].
    rewrite lookup_fmap, Hcq. cbn [fmap option_fmap option_map].
    eexists. split; [reflexivity|].
    unfold Unified.deliver, Unified.has_room.
    destruct (Unified.registered cq && Unified.subscribed cq "chat");
      [|split; reflexivity].
    cbn [andb].
    destruct (Z.of_nat (length (Unified.Send cq)) <? Unified.SendCapacity);
      split; reflexivity.
  - unfold Unified.handleChatMessage. rewrite Htext. reflexivity.
Qed.

(** Connection 1 says "wagmi" without an address: it is published under
    the connection's ID. *)
Lemma chat_message_published_witness :
  ∃ s',
    @Unified.run ChatExample.lib
      [Unified.ChatMessage 1 ChatExample.said "2025-01-01T00:00:03Z";
       Unified.HubChat] (ChatExample.after HubExample.joined) = Some s' ∧
    last (Unified.chatHistory s')
    = Some (Unified.chat_message "1700000000-2" "wagmi"
              "2025-01-01T00:00:03Z").
Proof.
  pose proof (@chat_message_published ChatExample.lib 1%nat ChatExample.said
                "2025-01-01T00:00:03Z" (ChatExample.after HubExample.joined)
                (ChatExample.fresh "1700000000-2")
                eq_refl eq_refl eq_refl) as Hw.
  change (Unified.as_string ChatExample.said "message")
    with (Some "wagmi"%string) in Hw.
  destruct Hw as (playerAddress & s' & Hrun & _ & Hid & Hlast & _).
  exists s'. split; [exact Hrun|].
  rewrite Hlast. rewrite (Hid (or_introl eq_refl)). reflexivity.
Defined.

(** The entry after the head of a list. *)
Ltac lookup_tail :=
  match goal with
  | |- context [(?x :: ?l) !! S ?i] =>
      change ((x :: l) !! S i) with (l !! i)
  end.

Section CandleflipRoomFacts.
Context `{Std}.
Variable RoundToDecimal : float → Z → float.
Import Candleflip CandleflipSim CandleflipRoom.

Lemma ticks_seq_S n p r :
  (λ k, fst (ticks k p r)) <$> seq 1 (S n)
  = fst (GenerateCandleflipPrice p r)
    :: ((λ k, fst (ticks k (fst (GenerateCandleflipPrice p r))
                         (snd (GenerateCandleflipPrice p r))))
        <$> seq 1 n).
Proof.
  cbn [seq fmap list_fmap]. f_equal.
  - rewrite ticks_S. reflexivity.
  - rewrite <- fmap_S_seq, <- list_fmap_compose.
    apply list_fmap_ext. intros i k _. cbn. apply ticks_S.
Qed.

(** The loop of the room: the clamp changes nothing, the history grows by
    the price after each tick and each price is broadcast, rounded, with
    its tick number. *)
Lemma simulate_spec n : ∀ roomId tick cur hist sent r,
  fst (simulate RoundToDecimal n roomId tick cur hist sent r)
  = (fst (ticks n cur r),
     hist ++ ((λ k, fst (ticks k cur r)) <$> seq 1 n),
     sent ++ ((λ k, price_update roomId (tick + Z.of_nat k)
                      (RoundToDecimal (fst (ticks k cur r)) 3))
              <$> seq 1 n)).
Proof.
  induction n as [|n IH]; intros roomId tick cur hist sent r.
  - cbn. rewrite !app_nil_r. reflexivity.
  - cbn [simulate]. unfold bind.
    pose proof (GenerateCandleflipPrice_not_negative cur r) as Hg.
    pose proof (ticks_seq_S n cur r) as Hseq.
    pose proof (ticks_S n cur r) as HS.
    assert (Hmsg :
      (λ k, price_update roomId (tick + Z.of_nat k)
              (RoundToDecimal (fst (ticks k cur r)) 3)) <$> seq 1 (S n)
      = price_update roomId (tick + 1)
          (RoundToDecimal (fst (GenerateCandleflipPrice cur r)) 3)
        :: ((λ k, price_update roomId (tick + 1 + Z.of_nat k)
                    (RoundToDecimal
                       (fst (ticks k (fst (GenerateCandleflipPrice cur r))
                               (snd (GenerateCandleflipPrice cur r)))) 3))
            <$> seq 1 n)).
    { cbn [seq fmap list_fmap]. f_equal.
      - rewrite ticks_S. reflexivity.
      - rewrite <- fmap_S_seq, <- list_fmap_compose.
        apply list_fmap_ext. intros i k _. cbn [compose].
        rewrite ticks_S. f_equal. lia. }
    rewrite Hseq, Hmsg, HS. clear Hseq Hmsg HS.
    destruct (GenerateCandleflipPrice cur r) as [p r1].
    cbn [fst snd] in *. rewrite Hg. rewrite IH.
    rewrite <- !app_assoc. reflexivity.
Qed.

(** The history [SimulateCandleflipGame] returns, as a list. *)
Lemma SimulateCandleflipGame_history serverSeed :
  let rng := Prng.NewSeededRNG (serverSeed ++ "-candleflip") in
  fst (SimulateCandleflipGame serverSeed)
  = CandleflipStartingPrice
    :: ((λ k, fst (ticks k CandleflipStartingPrice rng)) <$> seq 1 40) ∧
  snd (SimulateCandleflipGame serverSeed)
  = (if F64.lt (fst (ticks 40 CandleflipStartingPrice rng)) 1.0
     then "RED" else "GREEN")%string.
Proof.
  intros rng. unfold SimulateCandleflipGame. fold rng. unfold eval.
  pose proof (simulate_from_spec CandleflipTotalTicks 0
                CandleflipStartingPrice
                (<[0%nat := CandleflipStartingPrice]>
                   (replicate (CandleflipTotalTicks + 1) 0%float))
                rng) as Hspec.
  destruct (simulate_from _ _ _ _ rng) as [[cur hist] r1].
  cbn [fst snd] in *.
  destruct Hspec as (Hcur & Hlen & Hlow & Hup).
  { rewrite length_insert, length_replicate.
    unfold CandleflipTotalTicks. lia. }
  rewrite length_insert, length_replicate in Hlen.
  split; [|rewrite Hcur; reflexivity].
  apply list_eq. intros i.
  destruct i as [|i].
  - rewrite Hlow by lia. reflexivity.
  - lookup_tail.
    destruct (decide (i < 40)%nat) as [Hi|Hi].
    + change (S i) with (0 + S i)%nat.
      rewrite Hup by (unfold CandleflipTotalTicks; lia).
      rewrite list_lookup_fmap, lookup_seq_lt by lia. reflexivity.
    + rewrite (lookup_ge_None_2 hist) by (rewrite Hlen; cbn; lia).
      symmetry. apply lookup_ge_None_2.
      rewrite length_fmap, length_seq. lia.
Qed.

End CandleflipRoomFacts.

(** X18. The game a candleflip room plays live is the game its seed
    reproduces: the price history [runCandleflipRoom] builds and puts in
    its "game_end" message is the one [SimulateCandleflipGame] returns for
    the same server seed, its winner is the one [VerifyCandleflip] names,
    the player has won exactly when [CalculateCandleflipPayout] pays the
    player's trend, and the 40 "price_update" messages carry, in order and
    numbered from 1, the rounded entries of that history. *)
Theorem room_game_is_the_verifiable_game `{Std}
    (RoundToDecimal : float → Z → float)
    (roomId gameId serverSeed playerTrend : string) :
  let r := CandleflipRoom.runCandleflipRoom RoundToDecimal roomId gameId
             serverSeed playerTrend in
  CandleflipRoom.priceHistory r
  = fst (CandleflipSim.SimulateCandleflipGame serverSeed) ∧
  CandleflipRoom.winner r = Candleflip.VerifyCandleflip serverSeed ∧
  last (CandleflipRoom.priceHistory r)
  = Some (CandleflipRoom.currentPrice r) ∧
  (∀ betAmount,
     CandleflipSim.CalculateCandleflipPayout betAmount playerTrend
       (CandleflipRoom.winner r)
     = if CandleflipRoom.playerWon r then (betAmount * 2.0)%float
       else 0%float) ∧
  length (CandleflipRoom.broadcast r) = 41%nat ∧
  (∀ k p, (1 <= k <= 40)%nat →
     CandleflipRoom.priceHistory r !! k = Some p →
     CandleflipRoom.broadcast r !! (k - 1)%nat
     = Some (CandleflipRoom.price_update roomId (Z.of_nat k)
               (RoundToDecimal p 3))) ∧
  last (CandleflipRoom.broadcast r)
  = Some (CandleflipRoom.game_end roomId gameId serverSeed
            (RoundToDecimal (CandleflipRoom.currentPrice r) 3)
            (CandleflipRoom.winner r) (CandleflipRoom.priceHistory r)).
Proof.
  intros r. subst r. unfold CandleflipRoom.runCandleflipRoom, eval.
  rewrite simulate_spec.
  destruct (SimulateCandleflipGame_history serverSeed) as [Hh Hw].
  cbv zeta in Hh, Hw.
  set (rng := Prng.NewSeededRNG (serverSeed ++ "-candleflip")) in *.
  change Candleflip.CandleflipTotalTicks with 40%nat.
  set (prices := (λ k, fst (Candleflip.ticks k
                              Candleflip.CandleflipStartingPrice rng))
                 <$> seq 1 40) in *.
  cbn [CandleflipRoom.priceHistory CandleflipRoom.winner
       CandleflipRoom.currentPrice CandleflipRoom.playerWon
       CandleflipRoom.broadcast app].
  split; [symmetry; exact Hh|].
  split.
  { unfold Candleflip.VerifyCandleflip, Candleflip.winner_of,
      Candleflip.final_price, eval. fold rng.
    change Candleflip.CandleflipTotalTicks with 40%nat.
    destruct (F64.lt _ 1.0); reflexivity. }
  split.
  { rewrite last_lookup. cbn [length]. subst prices.
    rewrite length_fmap, length_seq. cbn [pred]. lookup_tail.
    rewrite list_lookup_fmap, lookup_seq_lt by lia. reflexivity. }
  split.
  { intros betAmount. unfold CandleflipSim.CalculateCandleflipPayout.
    reflexivity. }
  split.
  { rewrite length_app, length_fmap, length_seq. reflexivity. }
  split.
  { intros k p Hk. destruct k as [|k]; [lia|].
    lookup_tail. subst prices. rewrite list_lookup_fmap, lookup_seq_lt by lia.
    cbn [fmap option_fmap option_map]. intros [= <-].
    replace (S k - 1)%nat with k by lia.
    rewrite lookup_app_l by (rewrite length_fmap, length_seq; lia).
    rewrite list_lookup_fmap, lookup_seq_lt by lia.
    cbn [fmap option_fmap option_map]. do 2 f_equal. }
  apply last_snoc.
Qed.

Section TrackerFacts.
Import CandleflipRoom.

(** The rooms of one round: those that finish while the tracker [t] is
    the game's, [t] being a new one when the game has none.  The room that
    brings the number of finished rooms to the total, if there is one,
    resolves, and starts a goroutine. *)
Lemma track_round ws : ∀ id rc rest resolving results t,
  id ≠ ""%string → 0 < rc →
  match results !! id with
  | Some tracker => tracker
  | None => {| GameID := id; TotalRooms := rc; FinishedRooms := 0;
               RoomsWon := 0; resolveStarted := false |}
  end = t →
  0 <= RoomsWon t <= FinishedRooms t →
  (resolveStarted t = true → TotalRooms t <= FinishedRooms t) →
  FinishedRooms t + Z.of_nat (length ws) < 2 ^ 63 →
  ∃ results1,
    track_all id rc ((Finish <$> ws) ++ rest) resolving results
    = match track_all id rc rest
              (resolving
               + (if ((FinishedRooms t <? TotalRooms t)
                      && (TotalRooms t
                          <=? FinishedRooms t + Z.of_nat (length ws)))%Z
                  then 1 else 0))%nat
              results1 with
      | Some (results2, answers) =>
          Some (results2,
                imap (λ i _,
                        if FinishedRooms t + Z.of_nat (S i) =? TotalRooms t
                        then Some (RoomsWon t
                                   + Z.of_nat
                                       (length
                                          (List.filter (λ w : bool, w)
                                             (take (S i) ws))))
                        else None) ws
                ++ answers)
      | None => None
      end ∧
    (∀ other, other ≠ id → results1 !! other = results !! other).
Proof.
  induction ws as [|w ws IH];
    intros id rc rest resolving results t Hid Hrc Ht Hw Hres Hlt.
  - exists results. cbn [fmap list_fmap app length imap].
    split; [|reflexivity].
    replace (_ && _) with false.
    + rewrite Nat.add_0_r.
      destruct (track_all id rc rest resolving results) as [[r a]|];
        reflexivity.
    + symmetry. apply andb_false_iff.
      destruct (FinishedRooms t <? TotalRooms t) eqn:E; [|left; reflexivity].
      right. apply Z.ltb_lt in E. apply Z.leb_gt. cbn. lia.
  - cbn [fmap list_fmap app track_all]. unfold track.
    assert (Hguard : negb (String.eqb id "") && (0 <? rc) = true).
    { apply andb_true_intro. split.
      - apply negb_true_iff. apply String.eqb_neq. exact Hid.
      - apply Z.ltb_lt. exact Hrc. }
    rewrite Hguard, Ht.
    cbn [length] in Hlt.
    assert (Hwrap : Int64.wrap (FinishedRooms t + 1)
                    = FinishedRooms t + 1).
    { unfold Int64.wrap. rewrite Z.mod_small by lia. lia. }
    assert (Hwrapw : Int64.wrap (RoomsWon t + 1) = RoomsWon t + 1).
    { unfold Int64.wrap. rewrite Z.mod_small by lia. lia. }
    rewrite Hwrap, Hwrapw.
    set (won1 := if w then RoomsWon t + 1 else RoomsWon t).
    set (resolve := (FinishedRooms t + 1 =? TotalRooms t)
                    && negb (resolveStarted t)).
    assert (Hresolve : resolve = (FinishedRooms t + 1 =? TotalRooms t)).
    { subst resolve. destruct (FinishedRooms t + 1 =? TotalRooms t) eqn:E;
        [|reflexivity].
      apply Z.eqb_eq in E.
      destruct (resolveStarted t); [|reflexivity].
      specialize (Hres eq_refl). lia. }
    set (t1 := {| GameID := GameID t; TotalRooms := TotalRooms t;
                  FinishedRooms := FinishedRooms t + 1; RoomsWon := won1;
                  resolveStarted := if resolve then true
                                    else resolveStarted t |}).
    set (resolving1 := match (if resolve then Some won1 else None) with
                       | Some _ => S resolving
                       | None => resolving
                       end).
    destruct (IH id rc rest resolving1 (<[id := t1]> results) t1 Hid Hrc)
      as (results1 & Hrun & Hother).
    { rewrite lookup_insert_eq. reflexivity. }
    { subst t1 won1. cbn. destruct w; lia. }
    { subst t1. cbn. rewrite Hresolve.
      destruct (FinishedRooms t + 1 =? TotalRooms t) eqn:E.
      - apply Z.eqb_eq in E. lia.
      - intros Hs. specialize (Hres Hs). lia. }
    { subst t1. cbn. lia. }
    exists results1. split.
    + rewrite Hrun. clear Hrun IH.
      cbn [FinishedRooms TotalRooms RoomsWon t1].
      assert (Hcount :
        (resolving1
         + (if ((FinishedRooms t + 1 <? TotalRooms t)
                && (TotalRooms t
                    <=? FinishedRooms t + 1 + Z.of_nat (length ws)))%Z
            then 1 else 0))%nat
        = (resolving
           + (if ((FinishedRooms t <? TotalRooms t)
                  && (TotalRooms t
                      <=? FinishedRooms t + Z.of_nat (length (w :: ws))))%Z
              then 1 else 0))%nat).
      { subst resolving1. rewrite Hresolve. cbn [length].
        destruct (Z.eqb_spec (FinishedRooms t + 1) (TotalRooms t));
          destruct (Z.ltb_spec (FinishedRooms t + 1) (TotalRooms t));
          destruct (Z.ltb_spec (FinishedRooms t) (TotalRooms t));
          destruct (Z.leb_spec (TotalRooms t)
                      (FinishedRooms t + 1 + Z.of_nat (length ws)));
          destruct (Z.leb_spec (TotalRooms t)
                      (FinishedRooms t + Z.of_nat (S (length ws))));
          cbn [andb]; lia. }
      rewrite Hcount. clear Hcount.
      destruct (track_all id rc rest _ results1) as [[results2 answers]|];
        [|reflexivity].
      f_equal. f_equal. rewrite imap_cons. cbn [app]. f_equal.
      * rewrite Hresolve. change (Z.of_nat 1) with 1.
        destruct (FinishedRooms t + 1 =? TotalRooms t); [|reflexivity].
        f_equal. subst won1. cbn [take]. rewrite take_0.
        destruct w; cbn [List.filter length]; lia.
      * f_equal. apply imap_ext. intros i x _. cbn [compose].
        replace (FinishedRooms t + 1 + Z.of_nat (S i))
          with (FinishedRooms t + Z.of_nat (S (S i))) by lia.
        destruct (FinishedRooms t + Z.of_nat (S (S i)) =? TotalRooms t);
          [|reflexivity].
        f_equal. subst won1. cbn [take List.filter].
        destruct w; cbn [length]; lia.
    + intros other Hne. rewrite Hother by exact Hne.
      apply lookup_insert_ne. congruence.
Qed.

(** Rounds of rooms, the tracker being deleted after each round, and
    then the rooms [ws]. *)
Lemma track_rounds id n rounds : ∀ ws results,
  id ≠ ""%string → 0 < n → results !! id = None →
  Forall (λ r : list bool, n <= Z.of_nat (length r)) rounds →
  Z.of_nat (length (concat rounds) + length ws) < 2 ^ 63 →
  ∃ results',
    track_all id n
      (concat ((λ r, (Finish <$> r) ++ [Cleanup]) <$> rounds)
       ++ (Finish <$> ws)) 0 results
    = Some (results',
            concat ((λ r : list bool,
                       imap (λ i _,
                               if 0 + Z.of_nat (S i) =? n
                               then Some (0 + Z.of_nat
                                                (length
                                                   (List.filter
                                                      (λ w : bool, w)
                                                      (take (S i) r))))
                               else None) r) <$> rounds)
            ++ imap (λ i _,
                       if 0 + Z.of_nat (S i) =? n
                       then Some (0 + Z.of_nat
                                        (length
                                           (List.filter (λ w : bool, w)
                                              (take (S i) ws))))
                       else None) ws) ∧
    (∀ other, other ≠ id → results' !! other = results !! other).
Proof.
  induction rounds as [|r rounds IH];
    intros ws results Hid Hn Hnone Hall Hlen.
  - cbn [fmap list_fmap concat app].
    destruct (track_round ws id n [] 0%nat results _ Hid Hn eq_refl)
      as (results1 & Hrun & Hother).
    { rewrite Hnone. cbn. lia. }
    { rewrite Hnone. cbn. discriminate. }
    { rewrite Hnone. cbn. cbn [concat length] in Hlen. lia. }
    rewrite Hnone in Hrun.
    cbn [FinishedRooms TotalRooms RoomsWon track_all] in Hrun.
    rewrite app_nil_r in Hrun. exists results1.
    rewrite Hrun, app_nil_r. split; [reflexivity|exact Hother].
  - apply Forall_cons in Hall. destruct Hall as [Hr Hall].
    cbn [fmap list_fmap concat] in *.
    rewrite length_app in Hlen. rewrite <- !app_assoc. cbn [app].
    destruct (track_round r id n
                (Cleanup
                   :: concat ((λ r, (Finish <$> r) ++ [Cleanup])
                              <$> rounds)
                   ++ (Finish <$> ws)) 0%nat results _ Hid Hn eq_refl)
      as (results1 & Hrun & Hother).
    { rewrite Hnone. cbn. lia. }
    { rewrite Hnone. cbn. discriminate. }
    { rewrite Hnone. cbn. lia. }
    rewrite Hnone in Hrun.
    cbn [FinishedRooms TotalRooms RoomsWon] in Hrun.
    assert (Hone : (0 <? n) && (n <=? 0 + Z.of_nat (length r)) = true).
    { apply andb_true_intro. split; [apply Z.ltb_lt|apply Z.leb_le]; lia. }
    rewrite Hone in Hrun. cbn [Nat.add track_all] in Hrun.
    destruct (IH ws (cleanup id results1) Hid Hn)
      as (results' & Hrest & Hother').
    { apply lookup_delete_eq. }
    { exact Hall. }
    { lia. }
    rewrite Hrest in Hrun. exists results'. rewrite Hrun.
    split; [reflexivity|].
    intros other Hne. rewrite Hother' by exact Hne.
    unfold cleanup. rewrite lookup_delete_ne by congruence.
    apply Hother. exact Hne.
Qed.

End TrackerFacts.

(** X19. A contract game is resolved once for each tracker it gets.  From
    no tracker, when rooms that announce the same positive number [n] of
    rooms finish one after the other, the room that finishes as number [n],
    and no other, starts the call of [ResolveCandleFlip], with the number of
    rooms won among those [n]; further rooms change nothing of that until
    the resolving goroutine deletes the tracker, after which the next room
    starts a new tracker and the [n]-th room after the deletion resolves
    the game again.  The trackers of other games are not touched. *)
Theorem contract_game_resolved_once_per_tracker (id : string) (n : Z)
    (rounds : list (list bool)) (ws : list bool)
    (results : gmap string CandleflipRoom.ContractGameTracker) :
  id ≠ ""%string → 0 < n → results !! id = None →
  Forall (λ r : list bool, n <= Z.of_nat (length r)) rounds →
  Z.of_nat (length (concat rounds) + length ws) < 2 ^ 63 →
  let events :=
    concat ((λ r, (CandleflipRoom.Finish <$> r) ++ [CandleflipRoom.Cleanup])
            <$> rounds)
    ++ (CandleflipRoom.Finish <$> ws) in
  let answers_of (r : list bool) :=
    imap (λ i _,
            if Z.of_nat (S i) =? n
            then Some (Z.of_nat (length (List.filter (λ w : bool, w)
                                           (take (S i) r))))
            else None) r in
  ∃ results',
    CandleflipRoom.track_all id n events 0 results
    = Some (results', concat (answers_of <$> rounds) ++ answers_of ws) ∧
    (∀ other, other ≠ id → results' !! other = results !! other).
Proof.
  intros Hid Hn Hnone Hall Hlen events answers_of.
  exact (track_rounds id n rounds ws results Hid Hn Hnone Hall Hlen).
Qed.

(** Two rooms of a game of one room each, the tracker deleted between
    them: both resolve the game, the first with one room won, the second
    with none. *)
Lemma contract_game_resolved_once_per_tracker_witness :
  ∃ results',
    CandleflipRoom.track_all "7" 1
      [CandleflipRoom.Finish true; CandleflipRoom.Cleanup;
       CandleflipRoom.Finish false] 0 ∅
    = Some (results', [Some 1; Some 0]).
Proof.
  assert (Hid : "7"%string ≠ ""%string) by discriminate.
  assert (Hn : 0 < 1) by lia.
  assert (Hall : Forall (λ r : list bool, 1 <= Z.of_nat (length r))
                        [[true]]).
  { constructor; [|constructor]. cbn. lia. }
  assert (Hlen : Z.of_nat (length (concat [[true]]) + length [false])
                 < 2 ^ 63) by (vm_compute; reflexivity).
  destruct (contract_game_resolved_once_per_tracker "7" 1 [[true]] [false]
              ∅ Hid Hn (lookup_empty _) Hall Hlen)
    as (results' & Hrun & _).
  exists results'. exact Hrun.
Defined.

Section GlobalRoomsFacts.
Import Unified GlobalRooms.

Lemma ids_keeps st st' m :
  keeps st st' → Forall (λ p, is_Some (heap st !! p)) m →
  RoomID <$> encode st' m = RoomID <$> encode st m.
Proof.
  intros Hk Hm. unfold encode.
  induction Hm as [|p m [r Hr] Hm IH]; [reflexivity|].
  cbn [omap list_omap]. destruct (Hk p r Hr) as (r' & Hr' & Hid).
  rewrite Hr, Hr'. cbn [fmap list_fmap]. rewrite Hid. f_equal. exact IH.
Qed.

Lemma listed_once_keeps st st' m :
  keeps st st' → listed_once st m → listed_once st' m.
Proof.
  intros Hk [Hv Hn]. split.
  - eapply Forall_impl; [exact Hv|]. intros p [r Hr].
    destruct (Hk p r Hr) as (r' & Hr' & _). exists r'. exact Hr'.
  - rewrite (ids_keeps st st' m Hk Hv). exact Hn.
Qed.

Lemma listed_pairs st (l : list (string * nat)) :
  (∀ k p, (k, p) ∈ l → ∃ r, heap st !! p = Some r ∧ RoomID r = k) →
  Forall (λ p, is_Some (heap st !! p)) (snd <$> l) ∧
  RoomID <$> encode st (snd <$> l) = fst <$> l.
Proof.
  induction l as [|[k p] l IH]; intros Hl.
  - split; [constructor|reflexivity].
  - destruct IH as [Hv Hids].
    { intros k' p' Hin. apply Hl. right. exact Hin. }
    destruct (Hl k p) as (r & Hr & Hid); [left|].
    split.
    + constructor; [exists r; exact Hr|exact Hv].
    + unfold encode in *. cbn [fmap list_fmap omap list_omap snd fst].
      rewrite Hr. cbn [fmap list_fmap]. rewrite Hid. f_equal. exact Hids.
Qed.

Lemma listed_new st (G : gmap string nat) :
  (∀ k p, G !! k = Some p → ∃ r, heap st !! p = Some r ∧ RoomID r = k) →
  listed_once st (snd <$> map_to_list G).
Proof.
  intros HG.
  destruct (listed_pairs st (map_to_list G)) as [Hv Hids].
  { intros k p Hin. apply HG. apply elem_of_map_to_list. exact Hin. }
  split; [exact Hv|]. rewrite Hids. apply NoDup_fst_map_to_list.
Qed.

Lemma inv_keeps st st' :
  keeps st st' → globalRooms st' = globalRooms st →
  roomsBroadcast st' = roomsBroadcast st → inv st → inv st'.
Proof.
  intros Hk HG HQ [Hkey Hq]. split.
  - intros k p Hp. rewrite HG in Hp.
    destruct (Hkey k p Hp) as (r & Hr & Hid).
    destruct (Hk p r Hr) as (r' & Hr' & Hid').
    exists r'. split; [exact Hr'|congruence].
  - rewrite HQ. eapply Forall_impl; [exact Hq|].
    intros m. apply listed_once_keeps. exact Hk.
Qed.

Lemma inv_broadcast st : inv st → inv (BroadcastRoomUpdate st).
Proof.
  intros [Hkey Hq]. split; [exact Hkey|].
  unfold BroadcastRoomUpdate. cbn [roomsBroadcast].
  apply Forall_app. split.
  - exact Hq.
  - constructor; [|constructor]. apply (listed_new st). exact Hkey.
Qed.

Lemma inv_periodic st : inv st → inv (periodic st).
Proof.
  intros Hi. unfold periodic.
  destruct (_ && _); [|exact Hi]. apply (inv_broadcast st Hi).
Qed.

Lemma keeps_update roomID f st :
  (∀ r, RoomID (f r) = RoomID r) → keeps st (update roomID f st).
Proof.
  intros Hf p r Hr. unfold update.
  destruct (globalRooms st !! roomID) as [q|]; [|exists r; tauto].
  destruct (heap st !! q) as [room|] eqn:Hq; [|exists r; tauto].
  cbn [heap set_heap]. destruct (decide (q = p)) as [->|Hne].
  - rewrite list_lookup_insert_eq by (eapply lookup_lt_Some; exact Hr).
    exists (f room). split; [reflexivity|]. rewrite Hf. congruence.
  - rewrite list_lookup_insert_ne by exact Hne. exists r. tauto.
Qed.

Lemma inv_update roomID f st :
  (∀ r, RoomID (f r) = RoomID r) → inv st → inv (update roomID f st).
Proof.
  intros Hf. apply inv_keeps.
  - apply keeps_update. exact Hf.
  - unfold update. destruct (globalRooms st !! roomID) as [q|];
      [|reflexivity].
    destruct (heap st !! q); reflexivity.
  - unfold update. destruct (globalRooms st !! roomID) as [q|];
      [|reflexivity].
    destruct (heap st !! q); reflexivity.
Qed.

Lemma inv_remove roomID st : inv st → inv (RemoveRoom roomID st).
Proof.
  intros [Hkey Hq]. apply inv_broadcast. split.
  - intros k p Hp. cbn in Hp. apply lookup_delete_Some in Hp.
    apply Hkey. tauto.
  - exact Hq.
Qed.

Lemma inv_create roomID gameType betAmount trend now st :
  inv st → inv (snd (CreateRoom roomID gameType betAmount trend now st)).
Proof.
  intros [Hkey Hq]. unfold CreateRoom. cbn [snd].
  apply inv_broadcast.
  match goal with
  | |- inv (set_globalRooms _ (set_heap (heap st ++ [?room]) st)) =>
      set (room0 := room)
  end.
  assert (Hk : keeps st (set_heap (heap st ++ [room0]) st)).
  { intros p r Hr. exists r. split; [|reflexivity]. cbn.
    apply lookup_app_l_Some. exact Hr. }
  split.
  - intros k p. cbn [globalRooms set_globalRooms heap set_heap].
    destruct (decide (k = roomID)) as [->|Hne].
    + rewrite lookup_insert_eq. intros [= <-]. exists room0.
      split; [|reflexivity]. apply list_lookup_middle. reflexivity.
    + rewrite lookup_insert_ne by congruence. intros Hp.
      destruct (Hkey k p Hp) as (r & Hr & Hid). exists r.
      split; [|exact Hid]. apply lookup_app_l_Some. exact Hr.
  - cbn [roomsBroadcast set_globalRooms set_heap].
    eapply Forall_impl; [exact Hq|]. intros m Hm.
    destruct (listed_once_keeps st _ m Hk Hm) as [Hv Hn].
    split; [exact Hv|exact Hn].
Qed.

Lemma inv_handle int data now st st' :
  handleCreateRoom int data now st = Some st' → inv st → inv st'.
Proof.
  unfold handleCreateRoom. intros Hrun Hi.
  destruct (as_string data "roomId") as [roomID|]; [|discriminate].
  destruct (as_string data "gameType") as [gameType|]; [|discriminate].
  destruct (as_float64 data "betAmount") as [betAmount|]; [|discriminate].
  cbn [mbind option_bind] in Hrun.
  pose proof (inv_create roomID gameType betAmount
                (string_or data "trend" "") now st Hi) as H1.
  destruct (_ && _); injection Hrun as <-; [|exact H1].
  apply inv_broadcast. apply inv_update; [|exact H1].
  intros r. reflexivity.
Qed.

Lemma inv_apply int o st : inv st → inv (apply int o st).
Proof.
  intros Hi. destruct o; cbn [apply].
  - apply inv_create. exact Hi.
  - destruct (handleCreateRoom int data now st) as [st'|] eqn:E;
      [|exact Hi].
    eapply inv_handle; eassumption.
  - apply inv_broadcast. apply inv_update; [reflexivity|exact Hi].
  - apply inv_broadcast. apply inv_update; [reflexivity|exact Hi].
  - apply inv_remove. exact Hi.
  - apply inv_periodic. exact Hi.
Qed.

Lemma inv_apply_all int ops : ∀ st, inv st → inv (apply_all int ops st).
Proof.
  induction ops as [|o ops IH]; intros st Hi; [exact Hi|].
  apply IH. apply inv_apply. exact Hi.
Qed.

Lemma inv_start : inv start.
Proof.
  split; [|constructor]. intros k p. cbn. rewrite lookup_empty.
  discriminate.
Qed.

Lemma encode_length st m :
  Forall (λ p, is_Some (heap st !! p)) m →
  length (encode st m) = length m.
Proof.
  unfold encode. induction 1 as [|p m [r Hr] _ IH]; [reflexivity|].
  cbn [omap list_omap]. rewrite Hr. cbn [length]. rewrite IH.
  reflexivity.
Qed.

End GlobalRoomsFacts.

(** X20. No "rooms_update" message lists a room twice: after any sequence
    of room creations (direct or by [handleCreateRoom]), status and player
    updates, removals and periodic broadcasts from the empty list of rooms,
    every room is stored under its own id, and every queued message, which
    holds pointers to the rooms and is encoded by the hub only later, shows
    as many rooms as it lists, all with different ids, whatever has been
    changed in them since. *)
Theorem rooms_update_lists_each_room_once (int : float → Z)
    (ops : list GlobalRooms.operation) :
  let st := GlobalRooms.apply_all int ops GlobalRooms.start in
  (∀ roomID p, GlobalRooms.globalRooms st !! roomID = Some p →
     ∃ room, GlobalRooms.heap st !! p = Some room ∧
             GlobalRooms.RoomID room = roomID) ∧
  Forall (λ rooms,
            length (GlobalRooms.encode st rooms) = length rooms ∧
            NoDup (GlobalRooms.RoomID <$> GlobalRooms.encode st rooms))
         (GlobalRooms.roomsBroadcast st).
Proof.
  intros st.
  destruct (inv_apply_all int ops GlobalRooms.start inv_start)
    as [Hkey Hq].
  split; [exact Hkey|].
  eapply Forall_impl; [exact Hq|]. intros m [Hv Hn].
  split; [apply encode_length; exact Hv|exact Hn].
Qed.

(** X21. [handleCreateRoom] seats the player of a candleflip room on the
    side chosen and the bot on the other: for a "create_room" message with
    the game type "candleflip" and a creator, the room stored under the
    room id is a new one, active, with one player of at most one, the bot
    "AI", the player on the bull side and the bot on the bear side for the
    trend "bullish", the other way round for "bearish", and neither side
    assigned for any other trend; rooms allocated before, also one of the
    same id, are left as they were.  Two "rooms_update" messages are
    queued, both pointing to the same rooms: encoded after the handler has
    finished, the first shows the creator and the sides as well, though it
    was queued before they were assigned. *)
Theorem candleflip_room_sides (int : float → Z)
    (data : gmap string Unified.json) (now : Z) (st : GlobalRooms.state)
    (roomID creatorId : string) (betAmount : float) :
  Unified.as_string data "roomId" = Some roomID →
  Unified.as_string data "gameType" = Some "candleflip"%string →
  Unified.as_float64 data "betAmount" = Some betAmount →
  Unified.as_string data "creatorId" = Some creatorId →
  creatorId ≠ ""%string →
  let trend := GlobalRooms.string_or data "trend" "" in
  let created :=
    snd (GlobalRooms.CreateRoom roomID "candleflip" betAmount trend now st) in
  ∃ st' room rooms,
    GlobalRooms.handleCreateRoom int data now st = Some st' ∧
    GlobalRooms.globalRooms st' !! roomID
    = Some (length (GlobalRooms.heap st)) ∧
    GlobalRooms.heap st' !! length (GlobalRooms.heap st) = Some room ∧
    (∀ p, (p < length (GlobalRooms.heap st))%nat →
          GlobalRooms.heap st' !! p = GlobalRooms.heap st !! p) ∧
    GlobalRooms.RoomID room = roomID ∧
    GlobalRooms.GameType room = "candleflip"%string ∧
    GlobalRooms.BetAmount room = betAmount ∧
    GlobalRooms.Trend room = trend ∧
    GlobalRooms.Status room = "active"%string ∧
    GlobalRooms.Players room = 1 ∧ GlobalRooms.MaxPlayers room = 1 ∧
    GlobalRooms.CreatorId room = creatorId ∧
    GlobalRooms.BotName room = "AI"%string ∧
    (trend = "bullish"%string →
     GlobalRooms.BullSide room = "player"%string ∧
     GlobalRooms.BearSide room = "bot"%string) ∧
    (trend = "bearish"%string →
     GlobalRooms.BullSide room = "bot"%string ∧
     GlobalRooms.BearSide room = "player"%string) ∧
    (trend ≠ "bullish"%string → trend ≠ "bearish"%string →
     GlobalRooms.BullSide room = ""%string ∧
     GlobalRooms.BearSide room = ""%string) ∧
    GlobalRooms.roomsBroadcast st'
    = GlobalRooms.roomsBroadcast st ++ [rooms; rooms] ∧
    GlobalRooms.roomsBroadcast created
    = GlobalRooms.roomsBroadcast st ++ [rooms] ∧
    room ∈ GlobalRooms.encode st' rooms ∧
    ∃ room0, room0 ∈ GlobalRooms.encode created rooms ∧
             GlobalRooms.RoomID room0 = roomID ∧
             GlobalRooms.Players room0 = 0 ∧
             GlobalRooms.CreatorId room0 = ""%string.
Proof.
  intros Hid Htype Hbet Hcreator Hne trend created.
  unfold GlobalRooms.handleCreateRoom.
  rewrite Hid, Htype, Hbet. cbn [mbind option_bind].
  assert (Hc : GlobalRooms.string_or data "creatorId" "" = creatorId).
  { unfold GlobalRooms.string_or. rewrite Hcreator. reflexivity. }
  rewrite Hc. fold trend. fold created.
  assert (Hguard : String.eqb "candleflip" "candleflip"
                   && negb (String.eqb creatorId "") = true).
  { apply andb_true_intro. split; [reflexivity|].
    apply negb_true_iff. apply String.eqb_neq. exact Hne. }
  rewrite Hguard.
  set (p := length (GlobalRooms.heap st)).
  set (G := <[roomID := p]> (GlobalRooms.globalRooms st)).
  set (room0 :=
         {| GlobalRooms.RoomID := roomID;
            GlobalRooms.GameType := "candleflip";
            GlobalRooms.BetAmount := betAmount;
            GlobalRooms.Trend := trend; GlobalRooms.Status := "active";
            GlobalRooms.CreatedAt := now; GlobalRooms.Players := 0;
            GlobalRooms.CreatorId := ""; GlobalRooms.BotName := "";
            GlobalRooms.BearSide := ""; GlobalRooms.BullSide := "";
            GlobalRooms.MaxPlayers := 1; GlobalRooms.ContractGameID := "";
            GlobalRooms.RoomsCount := 0 |}).
  set (rooms := snd <$> map_to_list G).
  assert (Hcreated :
    created = {| GlobalRooms.heap := GlobalRooms.heap st ++ [room0];
                 GlobalRooms.globalRooms := G;
                 GlobalRooms.roomsBroadcast :=
                   GlobalRooms.roomsBroadcast st ++ [rooms] |})
    by reflexivity.
  assert (Hp0 : (GlobalRooms.heap st ++ [room0]) !! p = Some room0)
    by (apply list_lookup_middle; reflexivity).
  assert (Hin : p ∈ rooms).
  { subst rooms. apply list_elem_of_fmap. exists (roomID, p).
    split; [reflexivity|]. apply elem_of_map_to_list.
    subst G. apply lookup_insert_eq. }
  set (f := GlobalRooms.assign creatorId
              (GlobalRooms.string_or data "contractGameId" "")
              (GlobalRooms.string_or data "botNameSeed" "") trend
              match Unified.as_float64 data "roomsCount" with
              | Some count => int count
              | None => 0
              end).
  assert (Hupd : GlobalRooms.update roomID f created
                 = {| GlobalRooms.heap :=
                        <[p := f room0]> (GlobalRooms.heap st ++ [room0]);
                      GlobalRooms.globalRooms := G;
                      GlobalRooms.roomsBroadcast :=
                        GlobalRooms.roomsBroadcast st ++ [rooms] |}).
  { unfold GlobalRooms.update. rewrite Hcreated.
    cbn [GlobalRooms.globalRooms GlobalRooms.heap].
    subst G. rewrite lookup_insert_eq, Hp0. reflexivity. }
  rewrite Hupd. unfold GlobalRooms.BroadcastRoomUpdate.
  cbn [GlobalRooms.globalRooms GlobalRooms.heap GlobalRooms.roomsBroadcast].
  fold rooms.
  assert (Hp1 : <[p := f room0]> (GlobalRooms.heap st ++ [room0]) !! p
                = Some (f room0)).
  { apply list_lookup_insert_eq. rewrite length_app. cbn. lia. }
  eexists _, (f room0), rooms. split; [reflexivity|].
  cbn [GlobalRooms.globalRooms GlobalRooms.heap GlobalRooms.roomsBroadcast].
  split; [subst G; apply lookup_insert_eq|].
  split; [exact Hp1|].
  split.
  { intros q Hq. rewrite list_lookup_insert_ne by lia.
    apply lookup_app_l. exact Hq. }
  do 9 (split; [reflexivity|]).
  split.
  { intros Ht. subst f. unfold GlobalRooms.assign. rewrite Ht.
    split; reflexivity. }
  split.
  { intros Ht. subst f. unfold GlobalRooms.assign. rewrite Ht.
    split; reflexivity. }
  split.
  { intros Hb Hr. subst f. unfold GlobalRooms.assign.
    apply String.eqb_neq in Hb. apply String.eqb_neq in Hr.
    cbn [GlobalRooms.BullSide GlobalRooms.BearSide].
    rewrite Hb, Hr. split; reflexivity. }
  split; [rewrite <- app_assoc; reflexivity|].
  split; [rewrite Hcreated; reflexivity|].
  split.
  { unfold GlobalRooms.encode. apply list_elem_of_omap.
    exists p. split; [exact Hin|exact Hp1]. }
  exists room0. split; [|repeat split; reflexivity].
  unfold GlobalRooms.encode. apply list_elem_of_omap.
  exists p. split; [exact Hin|]. rewrite Hcreated. exact Hp0.
Qed.

(** A bullish candleflip room created by "alice". *)
Lemma candleflip_room_sides_witness :
  ∃ st' room,
    GlobalRooms.handleCreateRoom (λ _, 3) HubExample.create 0
      GlobalRooms.start = Some st' ∧
    GlobalRooms.heap st' !! 0%nat = Some room ∧
    GlobalRooms.BullSide room = "player"%string ∧
    GlobalRooms.BearSide room = "bot"%string.
Proof.
  assert (Hne : "alice"%string ≠ ""%string) by discriminate.
  assert (H1 : Unified.as_string HubExample.create "roomId"
               = Some "room-1"%string) by (vm_compute; reflexivity).
  assert (H2 : Unified.as_string HubExample.create "gameType"
               = Some "candleflip"%string) by (vm_compute; reflexivity).
  assert (H3 : Unified.as_float64 HubExample.create "betAmount"
               = Some 0.5%float) by (vm_compute; reflexivity).
  assert (H4 : Unified.as_string HubExample.create "creatorId"
               = Some "alice"%string) by (vm_compute; reflexivity).
  assert (H5 : GlobalRooms.string_or HubExample.create "trend" ""
               = "bullish"%string) by (vm_compute; reflexivity).
  destruct (candleflip_room_sides (λ _, 3) HubExample.create 0
              GlobalRooms.start "room-1" "alice" 0.5 H1 H2 H3 H4 Hne)
    as (st' & room & rooms & Hrun & _ & Hroom & _ & _ & _ & _ & _ & _ & _
        & _ & _ & _ & Hbull & _).
  exists st', room. split; [exact Hrun|]. split; [exact Hroom|].
  apply Hbull. exact H5.
Defined.

Section HubChannelsFacts.
Context `{Std}.
Import Unified HubRuns HubChannels.

Lemma norm_subscriptions c channel :
  Subscriptions (norm c) !! channel
  = if hub_channel channel then Subscriptions c !! channel else None.
Proof.
  unfold norm. cbn [Subscriptions set_subscriptions].
  rewrite map_lookup_filter. destruct (Subscriptions c !! channel) as [b|];
    cbn.
  - destruct (hub_channel channel) eqn:E.
    + rewrite option_guard_True by reflexivity. reflexivity.
    + rewrite option_guard_False by discriminate. reflexivity.
  - destruct (hub_channel channel); reflexivity.
Qed.

(** Two connections that differ at most in subscriptions the hub never
    looks at. *)
Lemma norm_eq c c' :
  ID c = ID c' → Send c = Send c' → registered c = registered c' →
  written c = written c' → reading c = reading c' →
  (∀ channel, hub_channel channel = true →
     Subscriptions c !! channel = Subscriptions c' !! channel) →
  norm c = norm c'.
Proof.
  intros HI HS HR HW HX Hsub.
  assert (Hf : Subscriptions (norm c) = Subscriptions (norm c')).
  { apply map_eq. intros channel. rewrite !norm_subscriptions.
    destruct (hub_channel channel) eqn:E; [|reflexivity].
    apply Hsub. exact E. }
  unfold norm in *. cbn [Subscriptions set_subscriptions] in Hf.
  unfold set_subscriptions. rewrite Hf, HI, HS, HR, HW, HX. reflexivity.
Qed.

Lemma norm_norm c : norm (norm c) = norm c.
Proof.
  apply norm_eq; try reflexivity.
  intros channel Hc. rewrite norm_subscriptions, Hc. reflexivity.
Qed.

Lemma norm_state_idem s : norm_state (norm_state s) = norm_state s.
Proof.
  unfold norm_state. cbn [conns set_conns]. unfold set_conns. cbn.
  f_equal. rewrite <- map_fmap_compose. apply map_fmap_ext.
  intros p c _. apply norm_norm.
Qed.

Lemma conns_norm_state s p :
  conns (norm_state s) !! p = norm <$> conns s !! p.
Proof. unfold norm_state. cbn. apply lookup_fmap. Qed.

Lemma norm_set_conn p c s :
  norm_state (set_conn p c s) = set_conn p (norm c) (norm_state s).
Proof.
  unfold norm_state, set_conn, set_conns. cbn. f_equal. apply fmap_insert.
Qed.

(** Replacing a connection by one that is the same for the hub. *)
Lemma norm_set_conn_eq p c c' s :
  norm c = norm c' →
  norm_state (set_conn p c (norm_state s)) = norm_state (set_conn p c' s).
Proof.
  intros Hc. rewrite !norm_set_conn, norm_state_idem, Hc. reflexivity.
Qed.

Lemma subscribed_norm c channel :
  hub_channel channel = true →
  subscribed (norm c) channel = subscribed c channel.
Proof.
  intros Hc. unfold subscribed. rewrite norm_subscriptions, Hc.
  reflexivity.
Qed.

Lemma deliver_norm channel d c :
  hub_channel channel = true →
  norm (deliver channel d (norm c)) = norm (deliver channel d c).
Proof.
  intros Hc. unfold deliver. rewrite subscribed_norm by exact Hc.
  change (registered (norm c)) with (registered c).
  change (Send (norm c)) with (Send c).
  destruct (registered c && subscribed c channel); [|apply norm_norm].
  destruct (_ <? _); [|apply norm_norm].
  change (enqueue d (norm c)) with (norm (enqueue d c)). apply norm_norm.
Qed.

Lemma broadcast_norm channel m s :
  hub_channel channel = true →
  norm_state (broadcastToSubscribers channel m (norm_state s))
  = norm_state (broadcastToSubscribers channel m s).
Proof.
  intros Hc. unfold broadcastToSubscribers.
  destruct (Marshal m) as [d|]; [|apply norm_state_idem].
  unfold norm_state, set_conns. cbn. f_equal.
  rewrite <- !map_fmap_compose. apply map_fmap_ext. intros p c _.
  cbn. apply deliver_norm. exact Hc.
Qed.

Lemma find_user_norm userId s :
  find_user userId (norm_state s) = find_user userId s.
Proof.
  unfold find_user, norm_state. cbn [conns set_conns].
  rewrite map_to_list_fmap.
  induction (map_to_list (conns s)) as [|[q c] l IH]; [reflexivity|].
  cbn [fmap list_fmap prod_map List.find fst snd id].
  change (registered (norm c)) with (registered c).
  change (ID (norm c)) with (ID c).
  destruct (registered c && String.eqb (ID c) userId); [reflexivity|].
  exact IH.
Qed.

Lemma private_norm client userId m s :
  norm_state (sendPrivateMessage client userId m (norm_state s))
  = norm_state (sendPrivateMessage client userId m s).
Proof.
  unfold sendPrivateMessage. rewrite find_user_norm.
  destruct (find_user userId s) as [q|]; [|apply norm_state_idem].
  destruct (Marshal m) as [d|]; [|apply norm_state_idem].
  rewrite conns_norm_state.
  destruct (conns s !! q) as [c|]; cbn [fmap option_fmap option_map];
    [|apply norm_state_idem].
  apply norm_set_conn_eq.
  change (enqueue d (norm c)) with (norm (enqueue d c)). apply norm_norm.
Qed.

Lemma RemoveActiveBettor_norm a s :
  RemoveActiveBettor a (norm_state s)
  = norm_state (RemoveActiveBettor a s).
Proof.
  unfold RemoveActiveBettor.
  change (activeBettors (norm_state s)) with (activeBettors s).
  destruct (activeBettors s !! a); reflexivity.
Qed.

Lemma cashout_norm client data s :
  norm_state <$> handleCrashCashout client data (norm_state s)
  = norm_state <$> handleCrashCashout client data s.
Proof.
  unfold handleCrashCashout.
  destruct (as_string data "playerAddress") as [pa|]; [|reflexivity].
  destruct (as_string data "userId") as [u|]; [|reflexivity].
  destruct (as_string data "gameId") as [g|]; [|reflexivity].
  destruct (as_float64 data "cashoutMultiplier") as [cm|]; [|reflexivity].
  destruct (as_float64 data "betAmount") as [ba|]; [|reflexivity].
  destruct (as_float64 data "entryMultiplier") as [em|]; [|reflexivity].
  cbn [mbind option_bind].
  change (contractClient (norm_state s)) with (contractClient s).
  destruct (contractClient s).
  - destruct (F64.IsNaN _); [reflexivity|].
    cbn [mbind option_bind fmap option_fmap option_map]. f_equal.
    match goal with
    | |- context [RemoveActiveBettor pa (spawn ?t (spawn ?t' (norm_state s)))] =>
        change (spawn t (spawn t' (norm_state s)))
          with (norm_state (spawn t (spawn t' s)))
    end.
    rewrite RemoveActiveBettor_norm. apply private_norm.
  - cbn [mbind option_bind fmap option_fmap option_map]. f_equal.
    match goal with
    | |- context [RemoveActiveBettor pa (spawn ?t (norm_state s))] =>
        change (spawn t (norm_state s)) with (norm_state (spawn t s))
    end.
    rewrite RemoveActiveBettor_norm. apply private_norm.
Qed.

Lemma cashout_blocks_norm data s :
  cashout_blocks data (norm_state s) = cashout_blocks data s.
Proof.
  unfold cashout_blocks.
  destruct (as_string data "playerAddress") as [pa|]; [|reflexivity].
  destruct (as_string data "userId") as [u|]; [|reflexivity].
  change (activeBettors (norm_state s)) with (activeBettors s).
  change (crashBroadcast (norm_state s)) with (crashBroadcast s).
  rewrite find_user_norm. f_equal.
  destruct (find_user u s) as [q|]; [|reflexivity].
  rewrite conns_norm_state. destruct (conns s !! q); reflexivity.
Qed.

Lemma idle_norm p s : idle p (norm_state s) = norm <$> idle p s.
Proof.
  unfold idle. rewrite conns_norm_state.
  destruct (conns s !! p) as [c|]; [|reflexivity]. cbn.
  change (reading (norm c)) with (reading c).
  destruct (reading c); reflexivity.
Qed.

Lemma norm_state_eq s1 s2 :
  conns s1 = norm <$> conns s2 →
  crashBroadcast s1 = crashBroadcast s2 →
  chatBroadcastCh s1 = chatBroadcastCh s2 →
  roomsBroadcast s1 = roomsBroadcast s2 →
  chatHistory s1 = chatHistory s2 →
  crashGameHistory s1 = crashGameHistory s2 →
  currentCrashGame s1 = currentCrashGame s2 →
  activeBettors s1 = activeBettors s2 →
  contractClient s1 = contractClient s2 →
  tasks s1 = tasks s2 →
  norm_state s1 = norm_state s2.
Proof.
  intros Hc H1 H2 H3 H4 H5 H6 H7 H8 H9. unfold norm_state, set_conns.
  rewrite Hc, H1, H2, H3, H4, H5, H6, H7, H8, H9. f_equal.
  rewrite <- map_fmap_compose. apply map_fmap_ext.
  intros p c _. apply norm_norm.
Qed.

(** A step that leaves the connections alone. *)
Ltac same_conns :=
  cbn [fmap option_fmap option_map]; f_equal;
  apply norm_state_eq; reflexivity.

Ltac unnorm :=
  repeat match goal with
  | |- context [reading (norm ?c)] =>
      change (reading (norm c)) with (reading c)
  | |- context [Send (norm ?c)] => change (Send (norm c)) with (Send c)
  | |- context [has_room (norm ?c)] =>
      change (has_room (norm c)) with (has_room c)
  end.

(** The subscriptions of an updated connection, as the hub sees them. *)
Ltac same_for_hub :=
  apply norm_set_conn_eq; apply norm_eq; try reflexivity;
  let channel := fresh "channel" in
  let Hc := fresh "Hc" in
  intros channel Hc;
  cbn [Subscriptions set_subscriptions set_reading set_registered enqueue
       write dequeue];
  rewrite ?norm_subscriptions, ?Hc; try reflexivity.

(** An action does for the hub the same whether or not the connections
    hold subscriptions to other channels. *)
Lemma perform_norm a s :
  norm_state <$> perform a (norm_state s) = norm_state <$> perform a s.
Proof.
  destruct a as [q id|q|q|channel m|q m|messages| | | |q channel|q|q|q
                 |q channel|q roomID|q data now|q data|q];
    cbn [perform]; rewrite ?idle_norm, ?conns_norm_state.
  - (* Connect *)
    destruct (conns s !! q); cbn [fmap option_fmap option_map mbind option_bind]; unnorm; [reflexivity|]. f_equal. same_for_hub.
  - (* Register *)
    destruct (conns s !! q) as [c|]; cbn [fmap option_fmap option_map mbind option_bind]; unnorm; [|reflexivity].
    destruct (reading c); cbn [fmap option_fmap option_map mbind option_bind]; unnorm; try reflexivity; f_equal; same_for_hub.
  - (* Unregister *)
    destruct (idle q s) as [c|]; cbn [fmap option_fmap option_map mbind option_bind]; unnorm; [|reflexivity]. f_equal.
    same_for_hub.
  - (* Produce *)
    change (crashBroadcast (norm_state s)) with (crashBroadcast s).
    change (roomsBroadcast (norm_state s)) with (roomsBroadcast s).
    destruct (String.eqb channel "crash").
    + destruct (channel_has_room _); [same_conns|reflexivity].
    + destruct (String.eqb channel "rooms"); [|reflexivity].
      destruct (channel_has_room _); [same_conns|reflexivity].
  - (* DirectWrite *)
    destruct (conns s !! q) as [c|]; cbn [fmap option_fmap option_map mbind option_bind]; unnorm; [|reflexivity]. f_equal.
    unfold writeJSON. destruct (Marshal m); same_for_hub.
  - (* LoadChatHistory *)
    same_conns.
  - (* HubCrash *)
    change (crashBroadcast (norm_state s)) with (crashBroadcast s).
    destruct (crashBroadcast s) as [|m rest]; [reflexivity|].
    cbn [fmap option_fmap option_map]. f_equal.
    apply (broadcast_norm "crash" m
             (set_channels rest (chatBroadcastCh s) (roomsBroadcast s) s)).
    reflexivity.
  - (* HubChat *)
    change (chatBroadcastCh (norm_state s)) with (chatBroadcastCh s).
    destruct (chatBroadcastCh s) as [|m rest]; [reflexivity|].
    cbn [fmap option_fmap option_map]. f_equal. unfold hub_chat.
    match goal with
    | |- _ = norm_state (broadcastToSubscribers "chat" m ?s0) =>
        apply (broadcast_norm "chat" m s0)
    end.
    reflexivity.
  - (* HubRooms *)
    change (roomsBroadcast (norm_state s)) with (roomsBroadcast s).
    destruct (roomsBroadcast s) as [|m rest]; [reflexivity|].
    cbn [fmap option_fmap option_map]. f_equal.
    apply (broadcast_norm "rooms" m
             (set_channels (crashBroadcast s) (chatBroadcastCh s) rest s)).
    reflexivity.
  - (* Subscribe *)
    destruct (idle q s) as [c|]; cbn [fmap option_fmap option_map mbind option_bind]; unnorm; [|reflexivity]. f_equal.
    same_for_hub.
    destruct (decide (channel0 = channel)) as [->|Hne].
    + rewrite !lookup_insert_eq. reflexivity.
    + rewrite !lookup_insert_ne by congruence.
      rewrite norm_subscriptions, Hc. reflexivity.
  - (* InitialData *)
    destruct (conns s !! q) as [c|]; cbn [fmap option_fmap option_map mbind option_bind]; unnorm; [|reflexivity].
    destruct (reading c) as [|channel| |]; cbn [fmap option_fmap option_map mbind option_bind]; unnorm; try reflexivity.
    destruct (String.eqb channel "chat"); cbn [fmap option_fmap option_map mbind option_bind]; unnorm; [f_equal; same_for_hub|].
    destruct (String.eqb channel "crash"); cbn [fmap option_fmap option_map mbind option_bind]; unnorm; [|f_equal; same_for_hub].
    f_equal. unfold writeJSON.
    destruct (Marshal (crash_history _)); destruct (Marshal (active_bettors _ _));
      same_for_hub.
  - (* SendHistoryMessage *)
    destruct (conns s !! q) as [c|]; cbn [fmap option_fmap option_map mbind option_bind]; unnorm; [|reflexivity].
    destruct (reading c) as [| |[|m rest]|]; cbn [fmap option_fmap option_map mbind option_bind]; unnorm; try reflexivity.
    destruct (has_room c); cbn [fmap option_fmap option_map mbind option_bind]; unnorm; [|reflexivity]. f_equal. same_for_hub.
  - (* Return *)
    destruct (conns s !! q) as [c|]; cbn [fmap option_fmap option_map mbind option_bind]; unnorm; [|reflexivity].
    destruct (reading c) as [| |[|m rest]|]; cbn [fmap option_fmap option_map mbind option_bind]; unnorm; try reflexivity.
    f_equal. same_for_hub.
  - (* Unsubscribe *)
    destruct (idle q s) as [c|]; cbn [fmap option_fmap option_map mbind option_bind]; unnorm; [|reflexivity]. f_equal.
    same_for_hub.
    destruct (decide (channel0 = channel)) as [->|Hne].
    + rewrite !lookup_delete_eq. reflexivity.
    + rewrite !lookup_delete_ne by congruence.
      rewrite norm_subscriptions, Hc. reflexivity.
  - (* JoinCandleflipRoom *)
    destruct (idle q s) as [c|]; cbn [fmap option_fmap option_map mbind option_bind]; unnorm; [|reflexivity]. f_equal.
    same_for_hub.
    destruct (decide (channel = ("candleflip:" ++ roomID)%string))
      as [->|Hne].
    + rewrite !lookup_insert_eq. reflexivity.
    + rewrite !lookup_insert_ne by congruence.
      rewrite norm_subscriptions, Hc. reflexivity.
  - (* ChatMessage *)
    destruct (idle q s) as [c|]; cbn [fmap option_fmap option_map mbind
                                      option_bind]; [|reflexivity].
    change (chatBroadcastCh (norm_state s)) with (chatBroadcastCh s).
    destruct (channel_has_room _); [|reflexivity].
    unfold handleChatMessage.
    destruct (as_string data "message"); [|reflexivity].
    cbn [mbind option_bind]. rewrite conns_norm_state.
    destruct (conns s !! q) as [c'|]; [|reflexivity].
    cbn [mbind option_bind fmap option_fmap option_map].
    change (ID (norm c')) with (ID c'). same_conns.
  - (* CrashCashout *)
    destruct (idle q s) as [c|]; cbn [fmap option_fmap option_map mbind
                                      option_bind]; [|reflexivity].
    rewrite cashout_blocks_norm.
    destruct (cashout_blocks data s); [reflexivity|].
    apply cashout_norm.
  - (* WritePump *)
    destruct (conns s !! q) as [c|]; cbn [fmap option_fmap option_map mbind option_bind]; unnorm; [|reflexivity].
    destruct (Send c) as [|d rest]; cbn [fmap option_fmap option_map mbind option_bind]; unnorm; [reflexivity|]. f_equal.
    same_for_hub.
Qed.

Lemma run_norm tr : ∀ s,
  norm_state <$> run tr (norm_state s) = norm_state <$> run tr s.
Proof.
  induction tr as [|a tr IH]; intros s; cbn [run].
  - cbn. f_equal. apply norm_state_idem.
  - pose proof (perform_norm a s) as Ha.
    destruct (perform a (norm_state s)) as [x|];
      destruct (perform a s) as [y|]; try discriminate Ha;
      cbn [mbind option_bind]; [|reflexivity].
    cbn [fmap option_fmap option_map] in Ha.
    assert (Hxy : norm_state x = norm_state y) by congruence.
    rewrite <- (IH x), <- (IH y), Hxy. reflexivity.
Qed.

End HubChannelsFacts.

(** X22. Joining a candleflip room on the unified socket changes nothing
    any client is sent: the subscription "candleflip:<roomId>" that
    [handleJoinCandleflipRoom] adds is one no broadcast of the hub looks at
    (it publishes on "crash", "chat" and "rooms" only), so whatever the
    goroutines do afterwards, the run without the join is possible too and
    leaves every connection with the same [Send] channel, the same payloads
    written to its socket and the same place in its handler, and the
    channels, the chat history, the bettors and the started tasks the
    same. *)
Theorem candleflip_subscription_delivers_nothing `{Std} (p : nat)
    (roomID : string) (tr : list Unified.action) (s s1 : Unified.state) :
  Unified.run (Unified.JoinCandleflipRoom p roomID :: tr) s = Some s1 →
  ∃ s2,
    Unified.run tr s = Some s2 ∧
    (∀ q, Unified.Send <$> Unified.conns s1 !! q
          = Unified.Send <$> Unified.conns s2 !! q ∧
          Unified.written <$> Unified.conns s1 !! q
          = Unified.written <$> Unified.conns s2 !! q ∧
          Unified.reading <$> Unified.conns s1 !! q
          = Unified.reading <$> Unified.conns s2 !! q ∧
          Unified.registered <$> Unified.conns s1 !! q
          = Unified.registered <$> Unified.conns s2 !! q ∧
          ∀ channel, HubChannels.hub_channel channel = true →
            (λ c, Unified.subscribed c channel) <$> Unified.conns s1 !! q
            = (λ c, Unified.subscribed c channel)
              <$> Unified.conns s2 !! q) ∧
    Unified.crashBroadcast s1 = Unified.crashBroadcast s2 ∧
    Unified.chatBroadcastCh s1 = Unified.chatBroadcastCh s2 ∧
    Unified.roomsBroadcast s1 = Unified.roomsBroadcast s2 ∧
    Unified.chatHistory s1 = Unified.chatHistory s2 ∧
    Unified.activeBettors s1 = Unified.activeBettors s2 ∧
    Unified.tasks s1 = Unified.tasks s2.
Proof.
  intros Hrun. cbn [Unified.run Unified.perform] in Hrun.
  destruct (Unified.idle p s) as [c|] eqn:Hidle; [|discriminate].
  cbn [mbind option_bind] in Hrun.
  set (s0 := Unified.set_conn p
               (Unified.set_subscriptions
                  (<[("candleflip:" ++ roomID)%string := true]>
                     (Unified.Subscriptions c)) c) s) in Hrun.
  assert (Hc : Unified.conns s !! p = Some c).
  { unfold Unified.idle in Hidle.
    destruct (Unified.conns s !! p) as [c'|]; [|discriminate].
    cbn in Hidle. destruct (Unified.reading c'); try discriminate.
    injection Hidle as ->. reflexivity. }
  assert (Hs0 : HubChannels.norm_state s0 = HubChannels.norm_state s).
  { subst s0. rewrite norm_set_conn.
    unfold HubChannels.norm_state, Unified.set_conn, Unified.set_conns.
    cbn. f_equal. apply map_eq. intros q.
    destruct (decide (q = p)) as [->|Hne].
    - rewrite lookup_insert_eq, lookup_fmap, Hc. cbn. f_equal.
      apply norm_eq; try reflexivity. intros channel Hch.
      cbn [Unified.Subscriptions Unified.set_subscriptions].
      apply lookup_insert_ne. intros <-. cbn in Hch. discriminate.
    - rewrite lookup_insert_ne by congruence. reflexivity. }
  pose proof (run_norm tr s0) as H0. pose proof (run_norm tr s) as H1.
  rewrite Hs0, H1, Hrun in H0.
  destruct (Unified.run tr s) as [s2|]; [|discriminate].
  cbn [fmap option_fmap option_map] in H0.
  assert (Heq : HubChannels.norm_state s1 = HubChannels.norm_state s2)
    by congruence.
  clear H0. exists s2. split; [reflexivity|].
  assert (Hconn : ∀ q, HubChannels.norm <$> Unified.conns s1 !! q
                       = HubChannels.norm <$> Unified.conns s2 !! q).
  { intros q. rewrite <- !conns_norm_state, Heq. reflexivity. }
  split.
  - intros q. specialize (Hconn q).
    destruct (Unified.conns s1 !! q) as [c1|];
      destruct (Unified.conns s2 !! q) as [c2|]; try discriminate;
      [|repeat split; reflexivity].
    cbn [fmap option_fmap option_map] in Hconn.
    assert (Hn : HubChannels.norm c1 = HubChannels.norm c2) by congruence.
    assert (HS : Unified.Send (HubChannels.norm c1)
                 = Unified.Send (HubChannels.norm c2)) by congruence.
    assert (HW : Unified.written (HubChannels.norm c1)
                 = Unified.written (HubChannels.norm c2)) by congruence.
    assert (HR : Unified.reading (HubChannels.norm c1)
                 = Unified.reading (HubChannels.norm c2)) by congruence.
    assert (HG : Unified.registered (HubChannels.norm c1)
                 = Unified.registered (HubChannels.norm c2)) by congruence.
    cbn in HS, HW, HR, HG. cbn [fmap option_fmap option_map].
    split; [congruence|]. split; [congruence|]. split; [congruence|].
    split; [congruence|]. intros channel Hch. cbn. f_equal.
    rewrite <- (subscribed_norm c1 channel Hch),
            <- (subscribed_norm c2 channel Hch), Hn.
    reflexivity.
  - assert (Hf : ∀ {A} (f : Unified.state → A),
              (∀ x, f (HubChannels.norm_state x) = f x) → f s1 = f s2).
    { intros A f Hfx. rewrite <- (Hfx s1), <- (Hfx s2), Heq. reflexivity. }
    repeat split; apply Hf; intros x; reflexivity.
Qed.

(** Connection 0 joins a candleflip room before a chat message is
    published: the run without the join ends with the same chat history. *)
Lemma candleflip_subscription_delivers_nothing_witness :
  ∃ s2,
    @Unified.run ChatExample.lib HubExample.afterwards
      (ChatExample.after HubExample.joined) = Some s2 ∧
    Unified.chatHistory
      (ChatExample.after
         (HubExample.joined
            ++ Unified.JoinCandleflipRoom 0 "room-1"
               :: HubExample.afterwards))
    = Unified.chatHistory s2.
Proof.
  destruct (@candleflip_subscription_delivers_nothing ChatExample.lib 0%nat
              "room-1" HubExample.afterwards
              (ChatExample.after HubExample.joined)
              (ChatExample.after
                 (HubExample.joined
                    ++ Unified.JoinCandleflipRoom 0 "room-1"
                       :: HubExample.afterwards)))
    as (s2 & Hrun & _ & _ & _ & _ & Hh & _).
  { vm_compute. reflexivity. }
  exists s2. split; [exact Hrun|exact Hh].
Defined.
